(** * db_stress: the stress-and-verification harness of tools/db_stress.cc

    A shallow embedding of the pure and state-passing parts of the harness:
    the key codec, the value generator, the statistics block, the shared
    barrier state, the verifier, the batch-mode writer, the control skeleton
    of the per-thread operation loop and the start-up validation of [main];
    then the rest of the harness: the lock table, the batch-mode reader,
    deleter and prefix scanner, the branches of the operation loop, the
    verification of the whole key space and the argument loop of [main],
    with a reference database (a finite map) to run them against.

    Conventions.  C++ integers are [Z] with the wrap-around of their type
    written out ([uint32], [uint64], [int32]).  A [std::string], a [Slice]
    and a [char] buffer are lists of byte values in [0, 256).  Stack buffers
    and the shadow array are lists read with [!!] and written with
    [<[ _ := _ ]>], guarded by the bounds check that C++ leaves undefined.
    A function that can call [exit], fail an [assert] or touch memory out of
    bounds returns an [outcome]; a function that also prints or calls the
    database returns the list of those events in order ([prog]). *)

From Stdlib Require Import ZArith List String Ascii Bool Lia.
From stdpp Require Import base list gmap.
Import ListNotations.
Local Open Scope Z_scope.

(** ** Machine integers *)

Definition uint32 (x : Z) : Z := x mod 2 ^ 32.
Definition uint64 (x : Z) : Z := x mod 2 ^ 64.
(** Conversion to a 32-bit [int] (two's complement). *)
Definition int32 (x : Z) : Z := (x + 2 ^ 31) mod 2 ^ 32 - 2 ^ 31.

Definition is_uint32 (x : Z) : Prop := 0 <= x < 2 ^ 32.
Definition is_int (x : Z) : Prop := - 2 ^ 31 <= x < 2 ^ 31.
Definition is_long (x : Z) : Prop := - 2 ^ 63 <= x < 2 ^ 63.

(** ** Byte strings *)

Abbreviation bytes := (list Z) (only parsing).

Definition is_byte (b : Z) : Prop := 0 <= b < 256.

(** A C string literal as bytes. *)
Definition lit (s : string) : bytes :=
  map (fun c : ascii => Z.of_N (N_of_ascii c)) (list_ascii_of_string s).

(** Lexicographic comparison of byte strings, as [memcmp] and
    [Slice::compare] order them: bytes are unsigned, a proper prefix is
    smaller. *)
Fixpoint bytes_compare (a b : bytes) : comparison :=
  match a, b with
  | [], [] => Eq
  | [], _ :: _ => Lt
  | _ :: _, [] => Gt
  | x :: a', y :: b' =>
      match x ?= y with
      | Eq => bytes_compare a' b'
      | c => c
      end
  end.

Definition bytes_lt (a b : bytes) : bool :=
  match bytes_compare a b with Lt => true | _ => false end.

(** [memcmp(a, b, n)]: the sign of the comparison of the first [n] bytes. *)
Definition memcmp (a b : bytes) (n : Z) : Z :=
  match bytes_compare (take (Z.to_nat n) a) (take (Z.to_nat n) b) with
  | Eq => 0
  | Lt => -1
  | Gt => 1
  end.

(** ** Outcomes and event traces *)

Inductive outcome (A : Type) : Type :=
| Returned (a : A)      (* the call returns *)
| Exited (code : Z)     (* exit(code) *)
| AssertFailed          (* an assert(...) does not hold *)
| Undefined.            (* out-of-bounds access or division by zero *)

Arguments Returned {A} a.
Arguments Exited {A} code.
Arguments AssertFailed {A}.
Arguments Undefined {A}.

(** Modelled from the spec: [class Status] of leveldb/status.h is not
    among the sources; by section 6 a database call answers OK, NotFound
    or an error. *)
Inductive Status : Type :=
| OK | NotFound | Error.

Definition ok (s : Status) : bool :=
  match s with OK => true | _ => false end.

Inductive printf_arg : Type :=
| ArgInt (n : Z)
| ArgStr (s : bytes)
| ArgStatus (s : Status).     (* s.ToString().c_str() *)

Inductive stream : Type := Stdout | Stderr.

(** Modelled from the spec: [class WriteBatch] of leveldb/write_batch.h is
    not among the sources; by section 6 a batch is a sequence of put,
    merge and delete steps that [write] applies atomically. *)
Inductive batch_op : Type :=
| BatchPut (key value : bytes)
| BatchMerge (key value : bytes)
| BatchDelete (key : bytes).

(** What a run does to the outside world, in order. *)
Inductive event : Type :=
| EvFprintf (f : stream) (format : string) (args : list printf_arg)
| EvDbGet (key : bytes)
| EvDbWrite (batch : list batch_op)
| EvStressRun.

Definition prog (A : Type) : Type := (list event * outcome A)%type.

Definition prog_ret {A} (a : A) : prog A := ([], Returned a).

Definition prog_bind {A B} (k : A -> prog B) (m : prog A) : prog B :=
  match m with
  | (t, Returned a) => let (t', r) := k a in (t ++ t', r)
  | (t, Exited c) => (t, Exited c)
  | (t, AssertFailed) => (t, AssertFailed)
  | (t, Undefined) => (t, Undefined)
  end.

Definition outcome_bind {A B} (k : A -> outcome B) (m : outcome A) : outcome B :=
  match m with
  | Returned a => k a
  | Exited c => Exited c
  | AssertFailed => AssertFailed
  | Undefined => Undefined
  end.

#[export] Instance prog_mret : MRet prog := @prog_ret.
#[export] Instance prog_mbind : MBind prog := @prog_bind.
#[export] Instance outcome_mret : MRet outcome := @Returned.
#[export] Instance outcome_mbind : MBind outcome := @outcome_bind.

Definition emit (e : event) : prog unit := ([e], Returned tt).

(** A call of a function that has no events of its own. *)
Definition lift {A} (o : outcome A) : prog A := ([], o).

Definition exit {A} (code : Z) : prog A := ([], Exited code).

Definition cassert (b : bool) : outcome unit :=
  if b then Returned tt else AssertFailed.

(** The events of a trace that reach the database. *)
Definition is_db_event (e : event) : bool :=
  match e with
  | EvDbGet _ | EvDbWrite _ | EvStressRun => true
  | EvFprintf _ _ _ => false
  end.

(** ** The flags (the [FLAGS_] globals the modelled functions read) *)

Record Flags : Type := {
  FLAGS_seed : Z;                        (* uint32_t *)
  FLAGS_max_key : Z;                     (* long *)
  FLAGS_test_batches_snapshots : bool;
  FLAGS_threads : Z;                     (* int *)
  FLAGS_value_size_mult : Z;             (* int *)
  FLAGS_verify_before_write : bool;
  FLAGS_histogram : bool;
  FLAGS_verbose : bool;
  FLAGS_reopen : Z;                      (* int *)
  FLAGS_disable_wal : bool;
  FLAGS_readpercent : Z;                 (* unsigned int *)
  FLAGS_prefixpercent : Z;               (* unsigned int *)
  FLAGS_writepercent : Z;                (* unsigned int *)
  FLAGS_delpercent : Z;                  (* unsigned int *)
  FLAGS_ops_per_thread : Z;              (* uint32_t *)
  FLAGS_log2_keys_per_lock : Z;          (* uint32_t *)
  FLAGS_use_merge_put : bool
}.

Definition KB : Z := 1024.

(** The static initialisers of the flags. *)
Definition default_flags : Flags := {|
  FLAGS_seed := 2341234;
  FLAGS_max_key := 1 * KB * KB * KB;
  FLAGS_test_batches_snapshots := false;
  FLAGS_threads := 32;
  FLAGS_value_size_mult := 8;
  FLAGS_verify_before_write := false;
  FLAGS_histogram := false;
  FLAGS_verbose := false;
  FLAGS_reopen := 10;
  FLAGS_disable_wal := false;
  FLAGS_readpercent := 10;
  FLAGS_prefixpercent := 25;
  FLAGS_writepercent := 50;
  FLAGS_delpercent := 15;
  FLAGS_ops_per_thread := 600000;
  FLAGS_log2_keys_per_lock := 2;
  FLAGS_use_merge_put := false
|}.

(** ** Key codec *)

(** Modelled from the spec: [PutFixed64] of util/coding, which is not among
    the sources.  It appends the eight bytes of a 64-bit value to the
    string, least significant byte first ([Key] reverses them into the
    big-endian serialization of section 4.1). *)
Definition PutFixed64 (dst : bytes) (value : Z) : bytes :=
  dst ++ map (fun i : nat => Z.land (Z.shiftr value (8 * Z.of_nat i)) 255)
             (seq 0 8).

(** [sizeof(long)] *)
Definition sizeof_long : nat := 8.

(** [Key(val)]: convert long to a big-endian slice key.  The assertion
    on the size of [little_endian_key] always holds, by the length of what
    [PutFixed64] appends. *)
Definition Key (val : Z) : bytes :=
  let little_endian_key := PutFixed64 [] (uint64 val) in
  let big_endian_key := replicate sizeof_long 0 in
  fold_left
    (fun big_endian_key (i : nat) =>
       <[ i := little_endian_key !!! (sizeof_long - 1 - i)%nat ]> big_endian_key)
    (seq 0 sizeof_long) big_endian_key.

(** The inverse of the codec: the number a big-endian byte string denotes. *)
Definition decode_key (k : bytes) : Z :=
  fold_left (fun acc b => acc * 256 + b) k 0.

(** ** Stats *)

(** The counters of [class Stats].  Times are microsecond counts of the
    environment's clock; the derived [seconds_] (a floating-point product)
    is left out. *)
Record Stats : Type := {
  start_stats : Z;
  finish_ : Z;
  done_ : Z;                  (* long *)
  gets_ : Z;
  prefixes_ : Z;
  writes_ : Z;
  deletes_ : Z;
  iterator_size_sums_ : Z;
  founds_ : Z;
  errors_ : Z;
  next_report_ : Z;           (* int *)
  bytes_ : Z;                 (* size_t *)
  last_op_finish_ : Z;
  hist_ : list Z              (* the samples added to the histogram *)
}.

(** [Stats::Start], at clock reading [now]. *)
Definition Start (now : Z) : Stats := {|
  start_stats := now;
  finish_ := now;
  done_ := 0;
  gets_ := 0;
  prefixes_ := 0;
  writes_ := 0;
  deletes_ := 0;
  iterator_size_sums_ := 0;
  founds_ := 0;
  errors_ := 0;
  next_report_ := 100;
  bytes_ := 0;
  last_op_finish_ := now;
  hist_ := []
|}.

Definition set_progress (st : Stats) (done next_report : Z) : Stats := {|
  start_stats := start_stats st;
  finish_ := finish_ st;
  done_ := done;
  gets_ := gets_ st;
  prefixes_ := prefixes_ st;
  writes_ := writes_ st;
  deletes_ := deletes_ st;
  iterator_size_sums_ := iterator_size_sums_ st;
  founds_ := founds_ st;
  errors_ := errors_ st;
  next_report_ := next_report;
  bytes_ := bytes_ st;
  last_op_finish_ := last_op_finish_ st;
  hist_ := hist_ st
|}.

Definition set_timing (st : Stats) (last_op_finish : Z) (hist : list Z) : Stats := {|
  start_stats := start_stats st;
  finish_ := finish_ st;
  done_ := done_ st;
  gets_ := gets_ st;
  prefixes_ := prefixes_ st;
  writes_ := writes_ st;
  deletes_ := deletes_ st;
  iterator_size_sums_ := iterator_size_sums_ st;
  founds_ := founds_ st;
  errors_ := errors_ st;
  next_report_ := next_report_ st;
  bytes_ := bytes_ st;
  last_op_finish_ := last_op_finish;
  hist_ := hist
|}.

(** The amount [FinishedSingleOp] adds to [next_report_]. *)
Definition report_bump (next_report : Z) : Z :=
  if next_report <? 1000 then 100
  else if next_report <? 5000 then 500
  else if next_report <? 10000 then 1000
  else if next_report <? 50000 then 5000
  else if next_report <? 100000 then 10000
  else if next_report <? 500000 then 50000
  else 100000.

(** [Stats::FinishedSingleOp], at clock reading [now]: the events printed
    and the new counters. *)
Definition FinishedSingleOp (F : Flags) (now : Z) (st : Stats)
  : list event * Stats :=
  let '(t1, st) :=
    if FLAGS_histogram F then
      let micros := now - last_op_finish_ st in
      let t := if 20000 <? micros
               then [EvFprintf Stdout "long op: %.1f micros%30s\r"
                       [ArgInt micros; ArgStr (lit "")]]
               else [] in
      (t, set_timing st now (hist_ st ++ [micros]))
    else ([], st) in
  let done := done_ st + 1 in
  if next_report_ st <=? done then
    let next_report := int32 (next_report_ st + report_bump (next_report_ st)) in
    (t1 ++ [EvFprintf Stdout "... finished %ld ops%30s\r"
              [ArgInt done; ArgStr (lit "")]],
     set_progress st done next_report)
  else (t1, set_progress st done (next_report_ st)).

Definition is_progress_line (e : event) : bool :=
  match e with
  | EvFprintf Stdout format _ =>
      if string_dec format "... finished %ld ops%30s\r" then true else false
  | _ => false
  end.

(** [n] consecutive calls of [FinishedSingleOp]; [clock k] is the reading
    of the clock at the call that completes operation [k]. *)
Fixpoint finish_ops (F : Flags) (clock : Z -> Z) (n : nat) (st : Stats)
  : list event * Stats :=
  match n with
  | O => ([], st)
  | S n' =>
      let '(t, st1) := finish_ops F clock n' st in
      let '(t', st2) := FinishedSingleOp F (clock (done_ st1 + 1)) st1 in
      (t ++ t', st2)
  end.

Definition AddBytesForWrites (nwrites nbytes : Z) (st : Stats) : Stats := {|
  start_stats := start_stats st;
  finish_ := finish_ st;
  done_ := done_ st;
  gets_ := gets_ st;
  prefixes_ := prefixes_ st;
  writes_ := writes_ st + nwrites;
  deletes_ := deletes_ st;
  iterator_size_sums_ := iterator_size_sums_ st;
  founds_ := founds_ st;
  errors_ := errors_ st;
  next_report_ := next_report_ st;
  bytes_ := uint64 (bytes_ st + nbytes);
  last_op_finish_ := last_op_finish_ st;
  hist_ := hist_ st
|}.

Definition AddErrors (n : Z) (st : Stats) : Stats := {|
  start_stats := start_stats st;
  finish_ := finish_ st;
  done_ := done_ st;
  gets_ := gets_ st;
  prefixes_ := prefixes_ st;
  writes_ := writes_ st;
  deletes_ := deletes_ st;
  iterator_size_sums_ := iterator_size_sums_ st;
  founds_ := founds_ st;
  errors_ := errors_ st + n;
  next_report_ := next_report_ st;
  bytes_ := bytes_ st;
  last_op_finish_ := last_op_finish_ st;
  hist_ := hist_ st
|}.

(** The schedule the spec's sentence on progress reports describes when its
    seven numbers are read as the op counts at which the bump changes: from
    op count 100 the bump is 100, from 500 it is 500, from 1000 it is 1000,
    and so on up to 100000. *)
Definition claimed_report_bump (next_report : Z) : Z :=
  if next_report <? 500 then 100
  else if next_report <? 1000 then 500
  else if next_report <? 5000 then 1000
  else if next_report <? 10000 then 5000
  else if next_report <? 50000 then 10000
  else if next_report <? 100000 then 50000
  else 100000.

(** The schedule of the progress reports with the seven bump sizes read as
    the steps between thresholds: the bump in force while the threshold is
    below each bound, in order, and 100000 from the last bound on. *)
Definition bump_schedule : list (Z * Z) :=
  [(1000, 100); (5000, 500); (10000, 1000); (50000, 5000);
   (100000, 10000); (500000, 50000)].

Definition scheduled_bump (threshold : Z) : Z :=
  match List.find (fun '(bound, _) => threshold <? bound) bump_schedule with
  | Some (_, bump) => bump
  | None => 100000
  end.

(** The op counts at which a progress line is due by that schedule: the
    positive multiples of the bump in force. *)
Definition report_due (n : Z) : bool :=
  (0 <? n) && (n mod scheduled_bump n =? 0).

(** The threshold in force after [n] completed operations, by that
    schedule. *)
Definition next_report_after (n : Z) : Z :=
  let step := scheduled_bump n in step * (n / step + 1).

(** ** SharedState *)

Definition SENTINEL : Z := 0xffffffff.

(** The fields of [class SharedState] other than the mutexes and the
    condition variable.  [values_] is [None] for the null pointer of the
    batch mode. *)
Record SharedState : Type := {
  seed_ : Z;
  max_key_ : Z;
  log2_keys_per_lock_ : Z;
  num_threads_ : Z;           (* const int *)
  num_initialized_ : Z;       (* long *)
  num_populated_ : Z;
  vote_reopen_ : Z;
  num_done_ : Z;
  start_ : bool;
  start_verify_ : bool;
  values_ : option (list Z)
}.

(** The constructor [SharedState::SharedState]. *)
Definition new_SharedState (F : Flags) : SharedState := {|
  seed_ := FLAGS_seed F;
  max_key_ := FLAGS_max_key F;
  log2_keys_per_lock_ := FLAGS_log2_keys_per_lock F;
  num_threads_ := FLAGS_threads F;
  num_initialized_ := 0;
  num_populated_ := 0;
  vote_reopen_ := 0;
  num_done_ := 0;
  start_ := false;
  start_verify_ := false;
  values_ :=
    if FLAGS_test_batches_snapshots F then None
    else Some (replicate (Z.to_nat (FLAGS_max_key F)) SENTINEL)
|}.

Definition set_vote_reopen (s : SharedState) (v : Z) : SharedState := {|
  seed_ := seed_ s;
  max_key_ := max_key_ s;
  log2_keys_per_lock_ := log2_keys_per_lock_ s;
  num_threads_ := num_threads_ s;
  num_initialized_ := num_initialized_ s;
  num_populated_ := num_populated_ s;
  vote_reopen_ := v;
  num_done_ := num_done_ s;
  start_ := start_ s;
  start_verify_ := start_verify_ s;
  values_ := values_ s
|}.

Definition set_counters (s : SharedState) (i p d : Z) (st sv : bool)
  : SharedState := {|
  seed_ := seed_ s;
  max_key_ := max_key_ s;
  log2_keys_per_lock_ := log2_keys_per_lock_ s;
  num_threads_ := num_threads_ s;
  num_initialized_ := i;
  num_populated_ := p;
  vote_reopen_ := vote_reopen_ s;
  num_done_ := d;
  start_ := st;
  start_verify_ := sv;
  values_ := values_ s
|}.

Definition set_values (s : SharedState) (v : option (list Z)) : SharedState := {|
  seed_ := seed_ s;
  max_key_ := max_key_ s;
  log2_keys_per_lock_ := log2_keys_per_lock_ s;
  num_threads_ := num_threads_ s;
  num_initialized_ := num_initialized_ s;
  num_populated_ := num_populated_ s;
  vote_reopen_ := vote_reopen_ s;
  num_done_ := num_done_ s;
  start_ := start_ s;
  start_verify_ := start_verify_ s;
  values_ := v
|}.

Definition IncInitialized (s : SharedState) : SharedState :=
  set_counters s (num_initialized_ s + 1) (num_populated_ s) (num_done_ s)
    (start_ s) (start_verify_ s).

Definition IncOperated (s : SharedState) : SharedState :=
  set_counters s (num_initialized_ s) (num_populated_ s + 1) (num_done_ s)
    (start_ s) (start_verify_ s).

Definition IncDone (s : SharedState) : SharedState :=
  set_counters s (num_initialized_ s) (num_populated_ s) (num_done_ s + 1)
    (start_ s) (start_verify_ s).

Definition SetStart (s : SharedState) : SharedState :=
  set_counters s (num_initialized_ s) (num_populated_ s) (num_done_ s)
    true (start_verify_ s).

Definition SetStartVerify (s : SharedState) : SharedState :=
  set_counters s (num_initialized_ s) (num_populated_ s) (num_done_ s)
    (start_ s) true.

(** [vote_reopen_ = (vote_reopen_ + 1) % num_threads_]; the remainder of
    C++ truncates towards zero, and a zero divisor is undefined. *)
Definition IncVotedReopen (s : SharedState) : outcome SharedState :=
  if num_threads_ s =? 0 then Undefined
  else Returned (set_vote_reopen s (Z.rem (vote_reopen_ s + 1) (num_threads_ s))).

Definition AllVotedReopen (s : SharedState) : bool := vote_reopen_ s =? 0.

(** [values_[key]], undefined outside the array. *)
Definition Get (s : SharedState) (key : Z) : outcome Z :=
  match values_ s with
  | None => Undefined
  | Some vs =>
      if (0 <=? key) && (key <? Z.of_nat (length vs))
      then match vs !! Z.to_nat key with
           | Some v => Returned v
           | None => Undefined
           end
      else Undefined
  end.

Definition store {A} (vs : list A) (i : Z) (x : A) : outcome (list A) :=
  if (0 <=? i) && (i <? Z.of_nat (length vs))
  then Returned (<[ Z.to_nat i := x ]> vs)
  else Undefined.

(** [values_[key] = value_base] *)
Definition Put (s : SharedState) (key value_base : Z) : outcome SharedState :=
  match values_ s with
  | None => Undefined
  | Some vs => vs' ← store vs key value_base; mret (set_values s (Some vs'))
  end.

(** [values_[key] = SENTINEL] *)
Definition Delete (s : SharedState) (key : Z) : outcome SharedState :=
  Put s key SENTINEL.

(** The methods that write a field, as steps; the label tells whether the
    step is a reopen vote. *)
Inductive shared_step (s : SharedState) : bool -> SharedState -> Prop :=
| step_IncInitialized : shared_step s false (IncInitialized s)
| step_IncOperated : shared_step s false (IncOperated s)
| step_IncDone : shared_step s false (IncDone s)
| step_SetStart : shared_step s false (SetStart s)
| step_SetStartVerify : shared_step s false (SetStartVerify s)
| step_IncVotedReopen s' :
    IncVotedReopen s = Returned s' -> shared_step s true s'
| step_Put key value_base s' :
    Put s key value_base = Returned s' -> shared_step s false s'
| step_Delete key s' :
    Delete s key = Returned s' -> shared_step s false s'.

(** [reachable F n s]: a run under flags [F] can bring the shared state
    from its constructor to [s], with [n] reopen votes on the way. *)
Inductive reachable (F : Flags) : nat -> SharedState -> Prop :=
| reachable_new : reachable F 0 (new_SharedState F)
| reachable_step n s b s' :
    reachable F n s -> shared_step s b s' ->
    reachable F (if b then S n else n) s'.

(** ** The reopen vote of [OperateDb]

    The block a thread runs under the shared mutex at a vote index:
    it votes, and the voter that brings the counter back to zero calls
    [Reopen], which counts in [num_times_reopened_]. *)
Definition vote_and_reopen (st : SharedState * Z) : outcome (SharedState * Z) :=
  let '(shared, num_times_reopened) := st in
  shared ← IncVotedReopen shared;
  if AllVotedReopen shared
  then mret (shared, num_times_reopened + 1)
  else mret (shared, num_times_reopened).

Fixpoint vote_and_reopen_times (n : nat) (st : SharedState * Z)
  : outcome (SharedState * Z) :=
  match n with
  | O => Returned st
  | S n' => st' ← vote_and_reopen_times n' st; vote_and_reopen st'
  end.

(** ** Value generator *)

(** The byte order of the machine, which decides how
    [*((uint32_t* )v) = rand] lays out its four bytes. *)
Inductive byte_order : Type := LittleEndian | BigEndian.

Definition uint32_bytes (host : byte_order) (x : Z) : bytes :=
  let le := map (fun i : nat => Z.land (Z.shiftr x (8 * Z.of_nat i)) 255)
                (seq 0 4) in
  match host with
  | LittleEndian => le
  | BigEndian => rev le
  end.

Fixpoint store_bytes (v : bytes) (i : Z) (bs : bytes) : outcome bytes :=
  match bs with
  | [] => Returned v
  | b :: bs' => v' ← store v i b; store_bytes v' (i + 1) bs'
  end.

(** [n] rounds of the loop [for (i = ...; i < value_sz; i++) v[i] = (char)(rand ^ i)],
    from index [i]. *)
Fixpoint fill_value (n : nat) (rand i : Z) (v : bytes) : outcome bytes :=
  match n with
  | O => Returned v
  | S n' =>
      v' ← store v i (Z.land (Z.lxor rand i) 255);
      fill_value n' rand (i + 1) v'
  end.

(** The size computed on the first line of [GenerateValue]: a product of
    32-bit unsigned numbers. *)
Definition value_size (F : Flags) (rand : Z) : Z :=
  uint32 ((rand mod 3 + 1) * uint32 (FLAGS_value_size_mult F)).

(** [GenerateValue(rand, v, max_sz)]: [v] is the caller's buffer with
    whatever it holds; the result is the size and the buffer afterwards. *)
Definition GenerateValue (F : Flags) (host : byte_order)
    (rand : Z) (v : bytes) (max_sz : Z) : outcome (Z * bytes) :=
  let value_sz := value_size F rand in
  cassert ((value_sz <=? max_sz) && (4 <=? value_sz));;
  v ← store_bytes v 0 (uint32_bytes host rand);
  v ← fill_value (Z.to_nat (value_sz - 4)) rand 4 v;
  v ← store v value_sz 0;
  mret (value_sz, v).

(** The canonical value bytes of a base, as section 3 of the spec words
    them: the four bytes of the base, then byte [i] is [base XOR i]
    truncated to 8 bits, up to the given length. *)
Definition value_byte (base : Z) (i : nat) : Z :=
  Z.land (Z.lxor base (Z.of_nat i)) 255.

Definition canonical_value (host : byte_order) (base len : Z) : bytes :=
  uint32_bytes host base ++ map (value_byte base) (seq 4 (Z.to_nat len - 4)).

(** The size of the [char value[100]] buffers of [OperateDb] and
    [VerifyValue]. *)
Definition value_buffer_size : Z := 100.

(** ** Verifier *)

(** [VerificationAbort(msg, key)] *)
Definition VerificationAbort (msg : string) (key : Z) : prog unit :=
  emit (EvFprintf Stderr "Verification failed for key %ld: %s\n"
          [ArgInt key; ArgStr (lit msg)]);;
  exit 1.

(** [VerifyValue(key, opts, shared, value_from_db, strict)].
    [db_Get k v] is what [db_->Get(opts, k, value_from_db)] answers for key
    [k] when the string holds [v]: the status and the string afterwards.
    [value] is the stack buffer, 100 bytes of unspecified content.  The
    result is the content of [*value_from_db] on return. *)
Definition VerifyValue (F : Flags) (host : byte_order)
    (db_Get : bytes -> bytes -> Status * bytes)
    (value : bytes)
    (key : Z) (shared : SharedState) (value_from_db : bytes) (strict : bool)
  : prog bytes :=
  let keystr := Key key in
  let k := keystr in
  value_base ← lift (Get shared key);
  if (value_base =? SENTINEL) && negb strict then mret value_from_db
  else
    emit (EvDbGet k);;
    let '(s, value_from_db) := db_Get k value_from_db in
    if ok s then
      (if value_base =? SENTINEL
       then VerificationAbort "Unexpected value found" key else mret tt);;
      '(sz, value) ← lift (GenerateValue F host value_base value value_buffer_size);
      (if negb (Z.of_nat (length value_from_db) =? sz)
       then VerificationAbort "Length of value read is not equal" key
       else mret tt);;
      (if negb (memcmp value_from_db value sz =? 0)
       then VerificationAbort "Contents of value read don't match" key
       else mret tt);;
      mret value_from_db
    else
      (if negb (value_base =? SENTINEL)
       then VerificationAbort "Value not found" key else mret tt);;
      mret value_from_db.

(** ** Batch mode: MultiPut *)

Definition lane_digits : list string :=
  ["9"; "8"; "7"; "6"; "5"; "4"; "3"; "2"; "1"; "0"]%string.

(** The loop of [MultiPut] that fills the batch; the state is the arrays
    [keys], [values], [value_slices] and the batch built so far. *)
Definition MultiPut_loop (F : Flags) (key value : bytes)
  : list bytes * list bytes * list bytes * list batch_op :=
  fold_left
    (fun '(keys, values, value_slices, batch) (i : nat) =>
       let keys := <[ i := keys !!! i ++ key ]> keys in
       let values := <[ i := values !!! i ++ value ]> values in
       let value_slices := <[ i := values !!! i ]> value_slices in
       let batch :=
         if FLAGS_use_merge_put F
         then batch ++ [BatchMerge (keys !!! i) (value_slices !!! i)]
         else batch ++ [BatchPut (keys !!! i) (value_slices !!! i)] in
       (keys, values, value_slices, batch))
    (seq 0 10)
    (map lit lane_digits, map lit lane_digits, replicate 10 [], []).

(** [MultiPut(thread, writeoptions, key, value, sz)]; [db_Write] is the
    status [db_->Write] answers for a batch, [stats] is [thread->stats]. *)
Definition MultiPut (F : Flags) (db_Write : list batch_op -> Status)
    (stats : Stats) (key value : bytes) (sz : Z) : prog (Status * Stats) :=
  let '(_, _, _, batch) := MultiPut_loop F key value in
  emit (EvDbWrite batch);;
  let s := db_Write batch in
  if negb (ok s) then
    emit (EvFprintf Stderr "multiput error: %s\n" [ArgStatus s]);;
    mret (s, AddErrors 1 stats)
  else
    mret (s, AddBytesForWrites 10 (uint64 ((sz + 1) * 10)) stats).

Definition batch_key (o : batch_op) : bytes :=
  match o with
  | BatchPut k _ | BatchMerge k _ | BatchDelete k => k
  end.


(** ** The operation loop of OperateDb (control skeleton) *)

Inductive op_kind : Type := OpRead | OpPrefixScan | OpWrite | OpDelete.

(** The four tests on [prob_op] in the body of the loop, in the order of
    the source; each branch taken is recorded.  [prob_op] is an [int], the
    percentages are [unsigned int]: the subtraction is unsigned and its
    result is converted back. *)
Definition selected_ops (F : Flags) (prob_op : Z) : list op_kind :=
  (* OPERATION read? *)
  let ops :=
    if (0 <=? prob_op) && (prob_op <? int32 (FLAGS_readpercent F))
    then [OpRead] else [] in
  let prob_op := int32 (uint32 (uint32 prob_op - FLAGS_readpercent F)) in
  (* OPERATION prefix scan? *)
  let ops :=
    if (0 <=? prob_op) && (prob_op <? int32 (FLAGS_prefixpercent F))
    then ops ++ [OpPrefixScan] else ops in
  let prob_op := int32 (uint32 (uint32 prob_op - FLAGS_prefixpercent F)) in
  (* OPERATION write? *)
  let ops :=
    if (0 <=? prob_op) && (prob_op <? int32 (FLAGS_writepercent F))
    then ops ++ [OpWrite] else ops in
  let prob_op := int32 (uint32 (uint32 prob_op - FLAGS_writepercent F)) in
  (* OPERATION delete? *)
  let ops :=
    if (0 <=? prob_op) && (prob_op <? int32 (FLAGS_delpercent F))
    then ops ++ [OpDelete] else ops in
  ops.

(** The classification of section 4.4 of the spec, in its words. *)
Definition classify (F : Flags) (p : Z) : option op_kind :=
  if p <? FLAGS_readpercent F then Some OpRead
  else
    let p := p - FLAGS_readpercent F in
    if p <? FLAGS_prefixpercent F then Some OpPrefixScan
    else
      let p := p - FLAGS_prefixpercent F in
      if p <? FLAGS_writepercent F then Some OpWrite
      else
        let p := p - FLAGS_writepercent F in
        if p <? FLAGS_delpercent F then Some OpDelete
        else None.

(** The test that opens the body of the loop:
    [i != 0 && (i % (FLAGS_ops_per_thread / (FLAGS_reopen + 1))) == 0]. *)
Definition votes_at (F : Flags) (i : Z) : outcome bool :=
  if i =? 0 then Returned false
  else
    let d := uint32 (FLAGS_reopen F + 1) in
    if d =? 0 then Undefined
    else
      let chunk := Z.quot (FLAGS_ops_per_thread F) d in
      if chunk =? 0 then Undefined
      else Returned (Z.rem i chunk =? 0).

Inductive loop_event : Type :=
| LoopVote (i : Z)                 (* the reopen vote before operation i *)
| LoopOp (i : Z) (k : op_kind).    (* a branch taken by operation i *)

(** [n] rounds of the loop from index [i]; [draw i] is the number
    [thread->rand.Uniform(100)] yields in round [i]. *)
Fixpoint OperateDb_loop (F : Flags) (draw : Z -> Z) (n : nat) (i : Z)
  : outcome (list loop_event) :=
  match n with
  | O => Returned []
  | S n' =>
      vote ← votes_at F i;
      rest ← OperateDb_loop F draw n' (i + 1);
      mret ((if vote : bool then [LoopVote i] else [])
            ++ map (LoopOp i) (selected_ops F (draw i)) ++ rest)
  end.

Definition OperateDb (F : Flags) (draw : Z -> Z) : outcome (list loop_event) :=
  OperateDb_loop F draw (Z.to_nat (FLAGS_ops_per_thread F)) 0.

Definition vote_indices (t : list loop_event) : list Z :=
  omap (fun e => match e with LoopVote i => Some i | _ => None end) t.

Definition ops_of (i : Z) (t : list loop_event) : list op_kind :=
  omap (fun e => match e with
                 | LoopOp j k => if j =? i then Some k else None
                 | _ => None
                 end) t.

(** The [n] indices from [i] on. *)
Fixpoint index_range (n : nat) (i : Z) : list Z :=
  match n with
  | O => []
  | S n' => i :: index_range n' (i + 1)
  end.

(** The number of votes of one thread, in closed form. *)
Definition votes_per_thread (F : Flags) : Z :=
  (FLAGS_ops_per_thread F - 1) / (FLAGS_ops_per_thread F / (FLAGS_reopen F + 1)).

(** ** main: flag parsing and start-up validation *)

(** A command-line argument after its [sscanf]: the option it names and
    the number scanned.  [Arg_compression_type ctype] is
    [--compression_type=ctype]; [Arg_other] is any of the other options the
    loop takes that set none of the flags modelled here (the option matches
    and its number passes the test of its branch), and [Arg_unknown] an
    argument that gets through every test. *)
Inductive flag_arg : Type :=
| Arg_seed (u : Z)
| Arg_max_key (l : Z)
| Arg_log2_keys_per_lock (u : Z)
| Arg_ops_per_thread (u : Z)
| Arg_verbose (n : Z)
| Arg_histogram (n : Z)
| Arg_verify_before_write (n : Z)
| Arg_test_batches_snapshots (n : Z)
| Arg_threads (n : Z)
| Arg_value_size_mult (n : Z)
| Arg_reopen (n : Z)
| Arg_readpercent (n : Z)
| Arg_prefixpercent (n : Z)
| Arg_writepercent (n : Z)
| Arg_delpercent (n : Z)
| Arg_disable_wal (n : Z)
| Arg_use_merge (n : Z)
| Arg_compression_type (ctype : string)
| Arg_other
| Arg_unknown.

(** The number lies in the type of the variable [sscanf] fills. *)
Definition arg_typed (a : flag_arg) : Prop :=
  match a with
  | Arg_seed u | Arg_log2_keys_per_lock u | Arg_ops_per_thread u => is_uint32 u
  | Arg_max_key l => is_long l
  | Arg_verbose n | Arg_histogram n | Arg_verify_before_write n
  | Arg_test_batches_snapshots n | Arg_threads n | Arg_value_size_mult n
  | Arg_reopen n | Arg_readpercent n | Arg_prefixpercent n
  | Arg_writepercent n | Arg_delpercent n | Arg_disable_wal n
  | Arg_use_merge n => is_int n
  | Arg_compression_type _ | Arg_other | Arg_unknown => True
  end.

Definition is_01 (n : Z) : bool := (n =? 0) || (n =? 1).
Definition is_percent (n : Z) : bool := (0 <=? n) && (n <=? 100).
Definition to_bool (n : Z) : bool := negb (n =? 0).

(** [strcasecmp(a, b) == 0], in the C locale. *)
Definition to_lower (c : ascii) : ascii :=
  let n := N_of_ascii c in
  if ((65 <=? n) && (n <=? 90))%N then ascii_of_N (n + 32) else c.

Fixpoint lower (s : string) : string :=
  match s with
  | EmptyString => EmptyString
  | String c s' => String (to_lower c) (lower s')
  end.

Definition strcasecmp_eq (a b : string) : bool :=
  String.eqb (lower a) (lower b).

(** The names the [--compression_type=] branch knows. *)
Definition known_compression_type (ctype : string) : bool :=
  strcasecmp_eq ctype "none" || strcasecmp_eq ctype "snappy"
  || strcasecmp_eq ctype "zlib" || strcasecmp_eq ctype "bzip2".

(** What the argument loop prints on standard output for an argument: the
    line of the [--compression_type=] branch for a name it does not know;
    the loop then goes on with the next argument. *)
Definition cannot_parse_line (a : flag_arg) : list event :=
  match a with
  | Arg_compression_type ctype =>
      if known_compression_type ctype then []
      else [EvFprintf Stdout "Cannot parse %s\n"
              [ArgStr (lit ("--compression_type=" ++ ctype))]]
  | _ => []
  end.

Definition invalid_flag : prog Flags :=
  emit (EvFprintf Stderr "Invalid flag '%s'\n" []);; exit 1.

Definition with_flag (F : Flags) (guard : bool) (F' : Flags) : prog Flags :=
  if guard then mret F' else invalid_flag.

(** Assignments to single flags. *)
Definition set_seed (F : Flags) (x : Z) : Flags := {|
  FLAGS_seed := x;
  FLAGS_max_key := FLAGS_max_key F;
  FLAGS_test_batches_snapshots := FLAGS_test_batches_snapshots F;
  FLAGS_threads := FLAGS_threads F;
  FLAGS_value_size_mult := FLAGS_value_size_mult F;
  FLAGS_verify_before_write := FLAGS_verify_before_write F;
  FLAGS_histogram := FLAGS_histogram F;
  FLAGS_verbose := FLAGS_verbose F;
  FLAGS_reopen := FLAGS_reopen F;
  FLAGS_disable_wal := FLAGS_disable_wal F;
  FLAGS_readpercent := FLAGS_readpercent F;
  FLAGS_prefixpercent := FLAGS_prefixpercent F;
  FLAGS_writepercent := FLAGS_writepercent F;
  FLAGS_delpercent := FLAGS_delpercent F;
  FLAGS_ops_per_thread := FLAGS_ops_per_thread F;
  FLAGS_log2_keys_per_lock := FLAGS_log2_keys_per_lock F;
  FLAGS_use_merge_put := FLAGS_use_merge_put F
|}.

Definition set_max_key (F : Flags) (x : Z) : Flags := {|
  FLAGS_seed := FLAGS_seed F;
  FLAGS_max_key := x;
  FLAGS_test_batches_snapshots := FLAGS_test_batches_snapshots F;
  FLAGS_threads := FLAGS_threads F;
  FLAGS_value_size_mult := FLAGS_value_size_mult F;
  FLAGS_verify_before_write := FLAGS_verify_before_write F;
  FLAGS_histogram := FLAGS_histogram F;
  FLAGS_verbose := FLAGS_verbose F;
  FLAGS_reopen := FLAGS_reopen F;
  FLAGS_disable_wal := FLAGS_disable_wal F;
  FLAGS_readpercent := FLAGS_readpercent F;
  FLAGS_prefixpercent := FLAGS_prefixpercent F;
  FLAGS_writepercent := FLAGS_writepercent F;
  FLAGS_delpercent := FLAGS_delpercent F;
  FLAGS_ops_per_thread := FLAGS_ops_per_thread F;
  FLAGS_log2_keys_per_lock := FLAGS_log2_keys_per_lock F;
  FLAGS_use_merge_put := FLAGS_use_merge_put F
|}.

Definition set_test_batches_snapshots (F : Flags) (x : bool) : Flags := {|
  FLAGS_seed := FLAGS_seed F;
  FLAGS_max_key := FLAGS_max_key F;
  FLAGS_test_batches_snapshots := x;
  FLAGS_threads := FLAGS_threads F;
  FLAGS_value_size_mult := FLAGS_value_size_mult F;
  FLAGS_verify_before_write := FLAGS_verify_before_write F;
  FLAGS_histogram := FLAGS_histogram F;
  FLAGS_verbose := FLAGS_verbose F;
  FLAGS_reopen := FLAGS_reopen F;
  FLAGS_disable_wal := FLAGS_disable_wal F;
  FLAGS_readpercent := FLAGS_readpercent F;
  FLAGS_prefixpercent := FLAGS_prefixpercent F;
  FLAGS_writepercent := FLAGS_writepercent F;
  FLAGS_delpercent := FLAGS_delpercent F;
  FLAGS_ops_per_thread := FLAGS_ops_per_thread F;
  FLAGS_log2_keys_per_lock := FLAGS_log2_keys_per_lock F;
  FLAGS_use_merge_put := FLAGS_use_merge_put F
|}.

Definition set_threads (F : Flags) (x : Z) : Flags := {|
  FLAGS_seed := FLAGS_seed F;
  FLAGS_max_key := FLAGS_max_key F;
  FLAGS_test_batches_snapshots := FLAGS_test_batches_snapshots F;
  FLAGS_threads := x;
  FLAGS_value_size_mult := FLAGS_value_size_mult F;
  FLAGS_verify_before_write := FLAGS_verify_before_write F;
  FLAGS_histogram := FLAGS_histogram F;
  FLAGS_verbose := FLAGS_verbose F;
  FLAGS_reopen := FLAGS_reopen F;
  FLAGS_disable_wal := FLAGS_disable_wal F;
  FLAGS_readpercent := FLAGS_readpercent F;
  FLAGS_prefixpercent := FLAGS_prefixpercent F;
  FLAGS_writepercent := FLAGS_writepercent F;
  FLAGS_delpercent := FLAGS_delpercent F;
  FLAGS_ops_per_thread := FLAGS_ops_per_thread F;
  FLAGS_log2_keys_per_lock := FLAGS_log2_keys_per_lock F;
  FLAGS_use_merge_put := FLAGS_use_merge_put F
|}.

Definition set_value_size_mult (F : Flags) (x : Z) : Flags := {|
  FLAGS_seed := FLAGS_seed F;
  FLAGS_max_key := FLAGS_max_key F;
  FLAGS_test_batches_snapshots := FLAGS_test_batches_snapshots F;
  FLAGS_threads := FLAGS_threads F;
  FLAGS_value_size_mult := x;
  FLAGS_verify_before_write := FLAGS_verify_before_write F;
  FLAGS_histogram := FLAGS_histogram F;
  FLAGS_verbose := FLAGS_verbose F;
  FLAGS_reopen := FLAGS_reopen F;
  FLAGS_disable_wal := FLAGS_disable_wal F;
  FLAGS_readpercent := FLAGS_readpercent F;
  FLAGS_prefixpercent := FLAGS_prefixpercent F;
  FLAGS_writepercent := FLAGS_writepercent F;
  FLAGS_delpercent := FLAGS_delpercent F;
  FLAGS_ops_per_thread := FLAGS_ops_per_thread F;
  FLAGS_log2_keys_per_lock := FLAGS_log2_keys_per_lock F;
  FLAGS_use_merge_put := FLAGS_use_merge_put F
|}.

Definition set_verify_before_write (F : Flags) (x : bool) : Flags := {|
  FLAGS_seed := FLAGS_seed F;
  FLAGS_max_key := FLAGS_max_key F;
  FLAGS_test_batches_snapshots := FLAGS_test_batches_snapshots F;
  FLAGS_threads := FLAGS_threads F;
  FLAGS_value_size_mult := FLAGS_value_size_mult F;
  FLAGS_verify_before_write := x;
  FLAGS_histogram := FLAGS_histogram F;
  FLAGS_verbose := FLAGS_verbose F;
  FLAGS_reopen := FLAGS_reopen F;
  FLAGS_disable_wal := FLAGS_disable_wal F;
  FLAGS_readpercent := FLAGS_readpercent F;
  FLAGS_prefixpercent := FLAGS_prefixpercent F;
  FLAGS_writepercent := FLAGS_writepercent F;
  FLAGS_delpercent := FLAGS_delpercent F;
  FLAGS_ops_per_thread := FLAGS_ops_per_thread F;
  FLAGS_log2_keys_per_lock := FLAGS_log2_keys_per_lock F;
  FLAGS_use_merge_put := FLAGS_use_merge_put F
|}.

Definition set_histogram (F : Flags) (x : bool) : Flags := {|
  FLAGS_seed := FLAGS_seed F;
  FLAGS_max_key := FLAGS_max_key F;
  FLAGS_test_batches_snapshots := FLAGS_test_batches_snapshots F;
  FLAGS_threads := FLAGS_threads F;
  FLAGS_value_size_mult := FLAGS_value_size_mult F;
  FLAGS_verify_before_write := FLAGS_verify_before_write F;
  FLAGS_histogram := x;
  FLAGS_verbose := FLAGS_verbose F;
  FLAGS_reopen := FLAGS_reopen F;
  FLAGS_disable_wal := FLAGS_disable_wal F;
  FLAGS_readpercent := FLAGS_readpercent F;
  FLAGS_prefixpercent := FLAGS_prefixpercent F;
  FLAGS_writepercent := FLAGS_writepercent F;
  FLAGS_delpercent := FLAGS_delpercent F;
  FLAGS_ops_per_thread := FLAGS_ops_per_thread F;
  FLAGS_log2_keys_per_lock := FLAGS_log2_keys_per_lock F;
  FLAGS_use_merge_put := FLAGS_use_merge_put F
|}.

Definition set_verbose (F : Flags) (x : bool) : Flags := {|
  FLAGS_seed := FLAGS_seed F;
  FLAGS_max_key := FLAGS_max_key F;
  FLAGS_test_batches_snapshots := FLAGS_test_batches_snapshots F;
  FLAGS_threads := FLAGS_threads F;
  FLAGS_value_size_mult := FLAGS_value_size_mult F;
  FLAGS_verify_before_write := FLAGS_verify_before_write F;
  FLAGS_histogram := FLAGS_histogram F;
  FLAGS_verbose := x;
  FLAGS_reopen := FLAGS_reopen F;
  FLAGS_disable_wal := FLAGS_disable_wal F;
  FLAGS_readpercent := FLAGS_readpercent F;
  FLAGS_prefixpercent := FLAGS_prefixpercent F;
  FLAGS_writepercent := FLAGS_writepercent F;
  FLAGS_delpercent := FLAGS_delpercent F;
  FLAGS_ops_per_thread := FLAGS_ops_per_thread F;
  FLAGS_log2_keys_per_lock := FLAGS_log2_keys_per_lock F;
  FLAGS_use_merge_put := FLAGS_use_merge_put F
|}.

Definition set_reopen (F : Flags) (x : Z) : Flags := {|
  FLAGS_seed := FLAGS_seed F;
  FLAGS_max_key := FLAGS_max_key F;
  FLAGS_test_batches_snapshots := FLAGS_test_batches_snapshots F;
  FLAGS_threads := FLAGS_threads F;
  FLAGS_value_size_mult := FLAGS_value_size_mult F;
  FLAGS_verify_before_write := FLAGS_verify_before_write F;
  FLAGS_histogram := FLAGS_histogram F;
  FLAGS_verbose := FLAGS_verbose F;
  FLAGS_reopen := x;
  FLAGS_disable_wal := FLAGS_disable_wal F;
  FLAGS_readpercent := FLAGS_readpercent F;
  FLAGS_prefixpercent := FLAGS_prefixpercent F;
  FLAGS_writepercent := FLAGS_writepercent F;
  FLAGS_delpercent := FLAGS_delpercent F;
  FLAGS_ops_per_thread := FLAGS_ops_per_thread F;
  FLAGS_log2_keys_per_lock := FLAGS_log2_keys_per_lock F;
  FLAGS_use_merge_put := FLAGS_use_merge_put F
|}.

Definition set_disable_wal (F : Flags) (x : bool) : Flags := {|
  FLAGS_seed := FLAGS_seed F;
  FLAGS_max_key := FLAGS_max_key F;
  FLAGS_test_batches_snapshots := FLAGS_test_batches_snapshots F;
  FLAGS_threads := FLAGS_threads F;
  FLAGS_value_size_mult := FLAGS_value_size_mult F;
  FLAGS_verify_before_write := FLAGS_verify_before_write F;
  FLAGS_histogram := FLAGS_histogram F;
  FLAGS_verbose := FLAGS_verbose F;
  FLAGS_reopen := FLAGS_reopen F;
  FLAGS_disable_wal := x;
  FLAGS_readpercent := FLAGS_readpercent F;
  FLAGS_prefixpercent := FLAGS_prefixpercent F;
  FLAGS_writepercent := FLAGS_writepercent F;
  FLAGS_delpercent := FLAGS_delpercent F;
  FLAGS_ops_per_thread := FLAGS_ops_per_thread F;
  FLAGS_log2_keys_per_lock := FLAGS_log2_keys_per_lock F;
  FLAGS_use_merge_put := FLAGS_use_merge_put F
|}.

Definition set_readpercent (F : Flags) (x : Z) : Flags := {|
  FLAGS_seed := FLAGS_seed F;
  FLAGS_max_key := FLAGS_max_key F;
  FLAGS_test_batches_snapshots := FLAGS_test_batches_snapshots F;
  FLAGS_threads := FLAGS_threads F;
  FLAGS_value_size_mult := FLAGS_value_size_mult F;
  FLAGS_verify_before_write := FLAGS_verify_before_write F;
  FLAGS_histogram := FLAGS_histogram F;
  FLAGS_verbose := FLAGS_verbose F;
  FLAGS_reopen := FLAGS_reopen F;
  FLAGS_disable_wal := FLAGS_disable_wal F;
  FLAGS_readpercent := x;
  FLAGS_prefixpercent := FLAGS_prefixpercent F;
  FLAGS_writepercent := FLAGS_writepercent F;
  FLAGS_delpercent := FLAGS_delpercent F;
  FLAGS_ops_per_thread := FLAGS_ops_per_thread F;
  FLAGS_log2_keys_per_lock := FLAGS_log2_keys_per_lock F;
  FLAGS_use_merge_put := FLAGS_use_merge_put F
|}.

Definition set_prefixpercent (F : Flags) (x : Z) : Flags := {|
  FLAGS_seed := FLAGS_seed F;
  FLAGS_max_key := FLAGS_max_key F;
  FLAGS_test_batches_snapshots := FLAGS_test_batches_snapshots F;
  FLAGS_threads := FLAGS_threads F;
  FLAGS_value_size_mult := FLAGS_value_size_mult F;
  FLAGS_verify_before_write := FLAGS_verify_before_write F;
  FLAGS_histogram := FLAGS_histogram F;
  FLAGS_verbose := FLAGS_verbose F;
  FLAGS_reopen := FLAGS_reopen F;
  FLAGS_disable_wal := FLAGS_disable_wal F;
  FLAGS_readpercent := FLAGS_readpercent F;
  FLAGS_prefixpercent := x;
  FLAGS_writepercent := FLAGS_writepercent F;
  FLAGS_delpercent := FLAGS_delpercent F;
  FLAGS_ops_per_thread := FLAGS_ops_per_thread F;
  FLAGS_log2_keys_per_lock := FLAGS_log2_keys_per_lock F;
  FLAGS_use_merge_put := FLAGS_use_merge_put F
|}.

Definition set_writepercent (F : Flags) (x : Z) : Flags := {|
  FLAGS_seed := FLAGS_seed F;
  FLAGS_max_key := FLAGS_max_key F;
  FLAGS_test_batches_snapshots := FLAGS_test_batches_snapshots F;
  FLAGS_threads := FLAGS_threads F;
  FLAGS_value_size_mult := FLAGS_value_size_mult F;
  FLAGS_verify_before_write := FLAGS_verify_before_write F;
  FLAGS_histogram := FLAGS_histogram F;
  FLAGS_verbose := FLAGS_verbose F;
  FLAGS_reopen := FLAGS_reopen F;
  FLAGS_disable_wal := FLAGS_disable_wal F;
  FLAGS_readpercent := FLAGS_readpercent F;
  FLAGS_prefixpercent := FLAGS_prefixpercent F;
  FLAGS_writepercent := x;
  FLAGS_delpercent := FLAGS_delpercent F;
  FLAGS_ops_per_thread := FLAGS_ops_per_thread F;
  FLAGS_log2_keys_per_lock := FLAGS_log2_keys_per_lock F;
  FLAGS_use_merge_put := FLAGS_use_merge_put F
|}.

Definition set_delpercent (F : Flags) (x : Z) : Flags := {|
  FLAGS_seed := FLAGS_seed F;
  FLAGS_max_key := FLAGS_max_key F;
  FLAGS_test_batches_snapshots := FLAGS_test_batches_snapshots F;
  FLAGS_threads := FLAGS_threads F;
  FLAGS_value_size_mult := FLAGS_value_size_mult F;
  FLAGS_verify_before_write := FLAGS_verify_before_write F;
  FLAGS_histogram := FLAGS_histogram F;
  FLAGS_verbose := FLAGS_verbose F;
  FLAGS_reopen := FLAGS_reopen F;
  FLAGS_disable_wal := FLAGS_disable_wal F;
  FLAGS_readpercent := FLAGS_readpercent F;
  FLAGS_prefixpercent := FLAGS_prefixpercent F;
  FLAGS_writepercent := FLAGS_writepercent F;
  FLAGS_delpercent := x;
  FLAGS_ops_per_thread := FLAGS_ops_per_thread F;
  FLAGS_log2_keys_per_lock := FLAGS_log2_keys_per_lock F;
  FLAGS_use_merge_put := FLAGS_use_merge_put F
|}.

Definition set_ops_per_thread (F : Flags) (x : Z) : Flags := {|
  FLAGS_seed := FLAGS_seed F;
  FLAGS_max_key := FLAGS_max_key F;
  FLAGS_test_batches_snapshots := FLAGS_test_batches_snapshots F;
  FLAGS_threads := FLAGS_threads F;
  FLAGS_value_size_mult := FLAGS_value_size_mult F;
  FLAGS_verify_before_write := FLAGS_verify_before_write F;
  FLAGS_histogram := FLAGS_histogram F;
  FLAGS_verbose := FLAGS_verbose F;
  FLAGS_reopen := FLAGS_reopen F;
  FLAGS_disable_wal := FLAGS_disable_wal F;
  FLAGS_readpercent := FLAGS_readpercent F;
  FLAGS_prefixpercent := FLAGS_prefixpercent F;
  FLAGS_writepercent := FLAGS_writepercent F;
  FLAGS_delpercent := FLAGS_delpercent F;
  FLAGS_ops_per_thread := x;
  FLAGS_log2_keys_per_lock := FLAGS_log2_keys_per_lock F;
  FLAGS_use_merge_put := FLAGS_use_merge_put F
|}.

Definition set_log2_keys_per_lock (F : Flags) (x : Z) : Flags := {|
  FLAGS_seed := FLAGS_seed F;
  FLAGS_max_key := FLAGS_max_key F;
  FLAGS_test_batches_snapshots := FLAGS_test_batches_snapshots F;
  FLAGS_threads := FLAGS_threads F;
  FLAGS_value_size_mult := FLAGS_value_size_mult F;
  FLAGS_verify_before_write := FLAGS_verify_before_write F;
  FLAGS_histogram := FLAGS_histogram F;
  FLAGS_verbose := FLAGS_verbose F;
  FLAGS_reopen := FLAGS_reopen F;
  FLAGS_disable_wal := FLAGS_disable_wal F;
  FLAGS_readpercent := FLAGS_readpercent F;
  FLAGS_prefixpercent := FLAGS_prefixpercent F;
  FLAGS_writepercent := FLAGS_writepercent F;
  FLAGS_delpercent := FLAGS_delpercent F;
  FLAGS_ops_per_thread := FLAGS_ops_per_thread F;
  FLAGS_log2_keys_per_lock := x;
  FLAGS_use_merge_put := FLAGS_use_merge_put F
|}.

Definition set_use_merge_put (F : Flags) (x : bool) : Flags := {|
  FLAGS_seed := FLAGS_seed F;
  FLAGS_max_key := FLAGS_max_key F;
  FLAGS_test_batches_snapshots := FLAGS_test_batches_snapshots F;
  FLAGS_threads := FLAGS_threads F;
  FLAGS_value_size_mult := FLAGS_value_size_mult F;
  FLAGS_verify_before_write := FLAGS_verify_before_write F;
  FLAGS_histogram := FLAGS_histogram F;
  FLAGS_verbose := FLAGS_verbose F;
  FLAGS_reopen := FLAGS_reopen F;
  FLAGS_disable_wal := FLAGS_disable_wal F;
  FLAGS_readpercent := FLAGS_readpercent F;
  FLAGS_prefixpercent := FLAGS_prefixpercent F;
  FLAGS_writepercent := FLAGS_writepercent F;
  FLAGS_delpercent := FLAGS_delpercent F;
  FLAGS_ops_per_thread := FLAGS_ops_per_thread F;
  FLAGS_log2_keys_per_lock := FLAGS_log2_keys_per_lock F;
  FLAGS_use_merge_put := x
|}.

(** One round of the argument loop of [main]: the first pattern that
    scans the argument and whose guard holds assigns its flag; an argument
    that gets through every test is an invalid flag. *)
Definition parse_arg (F : Flags) (a : flag_arg) : prog Flags :=
  match a with
  | Arg_seed u => mret (set_seed F u)
  | Arg_max_key l => mret (set_max_key F l)
  | Arg_log2_keys_per_lock u => mret (set_log2_keys_per_lock F u)
  | Arg_ops_per_thread u => mret (set_ops_per_thread F u)
  | Arg_verbose n => with_flag F (is_01 n) (set_verbose F (to_bool n))
  | Arg_histogram n => with_flag F (is_01 n) (set_histogram F (to_bool n))
  | Arg_verify_before_write n =>
      with_flag F (is_01 n) (set_verify_before_write F (to_bool n))
  | Arg_test_batches_snapshots n =>
      with_flag F (is_01 n) (set_test_batches_snapshots F (to_bool n))
  | Arg_threads n => mret (set_threads F n)
  | Arg_value_size_mult n => mret (set_value_size_mult F n)
  | Arg_reopen n => with_flag F (0 <=? n) (set_reopen F n)
  | Arg_readpercent n => with_flag F (is_percent n) (set_readpercent F n)
  | Arg_prefixpercent n => with_flag F (is_percent n) (set_prefixpercent F n)
  | Arg_writepercent n => with_flag F (is_percent n) (set_writepercent F n)
  | Arg_delpercent n => with_flag F (is_percent n) (set_delpercent F n)
  | Arg_disable_wal n => with_flag F (is_01 n) (set_disable_wal F (to_bool n))
  | Arg_use_merge n => with_flag F (is_01 n) (set_use_merge_put F (to_bool n))
  | Arg_compression_type ctype =>
      if known_compression_type ctype then mret F
      else
        emit (EvFprintf Stdout "Cannot parse %s\n"
                [ArgStr (lit ("--compression_type=" ++ ctype))]);;
        mret F
  | Arg_other => mret F
  | Arg_unknown => invalid_flag
  end.

Fixpoint parse_args (F : Flags) (argv : list flag_arg) : prog Flags :=
  match argv with
  | [] => mret F
  | a :: argv' => F' ← parse_arg F a; parse_args F' argv'
  end.

(** The three checks [main] makes between the argument loop and the
    construction of the [StressTest]. *)
Definition startup_validation (F : Flags) : prog unit :=
  (if negb (uint32 (FLAGS_readpercent F + FLAGS_prefixpercent F +
                    FLAGS_writepercent F + FLAGS_delpercent F) =? 100)
   then emit (EvFprintf Stderr
                "Error: Read+Prefix+Write+Delete percents != 100!\n" []);;
        exit 1
   else mret tt);;
  (if FLAGS_disable_wal F && (0 <? FLAGS_reopen F)
   then emit (EvFprintf Stderr
                "Error: Db cannot reopen safely with disable_wal set!\n" []);;
        exit 1
   else mret tt);;
  (if FLAGS_ops_per_thread F <=? uint32 (FLAGS_reopen F)
   then emit (EvFprintf Stderr
                "Error: #DB-reopens should be < ops_per_thread\nProvided reopens = %d and ops_per_thread = %u\n"
                [ArgInt (FLAGS_reopen F); ArgInt (FLAGS_ops_per_thread F)]);;
        exit 1
   else mret tt).

(** [main]: [Run F] is the outcome of constructing the [StressTest] and
    of [stress.Run()], the part of the program that works on the
    database. *)
Definition main (Run : Flags -> outcome unit) (argv : list flag_arg) : prog Z :=
  F ← parse_args default_flags argv;
  startup_validation F;;
  emit EvStressRun;;
  lift (Run F);;
  mret 0.

(** The three ways to break the validity constraints of section 6 of the
    spec: the percentages do not add up to 100, the WAL is disabled while
    reopens are asked for, or there are at least as many reopens as
    operations per thread. *)
Definition constraint_violated (F : Flags) : Prop :=
  FLAGS_readpercent F + FLAGS_prefixpercent F +
  FLAGS_writepercent F + FLAGS_delpercent F <> 100 \/
  (FLAGS_disable_wal F = true /\ 0 < FLAGS_reopen F) \/
  FLAGS_ops_per_thread F <= FLAGS_reopen F.

(** What the argument loop guarantees of the flags it leaves behind. *)
Definition flags_in_range (F : Flags) : Prop :=
  0 <= FLAGS_readpercent F <= 100 /\
  0 <= FLAGS_prefixpercent F <= 100 /\
  0 <= FLAGS_writepercent F <= 100 /\
  0 <= FLAGS_delpercent F <= 100 /\
  0 <= FLAGS_reopen F < 2 ^ 31 /\
  is_uint32 (FLAGS_ops_per_thread F).

Definition no_db_event (t : list event) : Prop :=
  forallb (fun e => negb (is_db_event e)) t = true.

(** ** The shared states of a run

    [Put] and [Delete] are called in one place each, the write and the
    delete branch of [OperateDb] outside the batch mode; the write branch
    calls [Put] after [GenerateValue] has returned for the same base, with
    the 100-byte buffer of [OperateDb].  [harness_reachable] is [reachable]
    with this order of the two calls kept. *)
Inductive harness_step (F : Flags) (host : byte_order) (s : SharedState)
  : bool -> SharedState -> Prop :=
| hstep_IncInitialized : harness_step F host s false (IncInitialized s)
| hstep_IncOperated : harness_step F host s false (IncOperated s)
| hstep_IncDone : harness_step F host s false (IncDone s)
| hstep_SetStart : harness_step F host s false (SetStart s)
| hstep_SetStartVerify : harness_step F host s false (SetStartVerify s)
| hstep_IncVotedReopen s' :
    IncVotedReopen s = Returned s' -> harness_step F host s true s'
| hstep_write rand_key value_base (value : bytes) sz (value' : bytes) s' :
    Z.of_nat (length value) = value_buffer_size ->
    GenerateValue F host value_base value value_buffer_size
    = Returned (sz, value') ->
    Put s rand_key value_base = Returned s' ->
    harness_step F host s false s'
| hstep_delete rand_key s' :
    Delete s rand_key = Returned s' -> harness_step F host s false s'.

Inductive harness_reachable (F : Flags) (host : byte_order)
  : nat -> SharedState -> Prop :=
| harness_new : harness_reachable F host 0 (new_SharedState F)
| harness_next n s b s' :
    harness_reachable F host n s -> harness_step F host s b s' ->
    harness_reachable F host (if b then S n else n) s'.

(** ** Predicates used in the statements *)

(** Outside the batch mode the shadow array has [FLAGS_max_key] entries. *)
Definition values_sized (F : Flags) (s : SharedState) : Prop :=
  FLAGS_test_batches_snapshots F = false ->
  exists vs, values_ s = Some vs /\ length vs = Z.to_nat (FLAGS_max_key F).

(** The multipliers for which every value, with its terminating NUL, fits
    the 100-byte buffers. *)
Definition valid_value_size_mult (F : Flags) : Prop :=
  4 <= FLAGS_value_size_mult F /\ 3 * FLAGS_value_size_mult F < 100.

(** The flags for which the vote test of the loop is defined: the third
    check of [main] and the types of the two flags. *)
Definition valid_reopen (F : Flags) : Prop :=
  0 <= FLAGS_reopen F < FLAGS_ops_per_thread F /\
  is_uint32 (FLAGS_ops_per_thread F).

(** * The rest of the harness *)

(** ** SharedState: the lock table *)

(** The number of mutexes the constructor allocates:
    [max_key_ >> log2_keys_per_lock_], and one more when
    [max_key_ & ((1 << log2_keys_per_lock_) - 1)] is not zero.  The shift
    [1 << log2_keys_per_lock_] is an [int]. *)
Definition num_locks (s : SharedState) : Z :=
  let n := Z.shiftr (max_key_ s) (log2_keys_per_lock_ s) in
  if Z.land (max_key_ s) (int32 (Z.shiftl 1 (log2_keys_per_lock_ s)) - 1) =? 0
  then n else n + 1.

(** The index of the mutex [GetMutexForKey] hands out. *)
Definition GetMutexForKey (s : SharedState) (key : Z) : Z :=
  Z.shiftr key (log2_keys_per_lock_ s).

(** The seed [ThreadState] gives the generator of thread [index]:
    [1000 + index + shared->GetSeed()], in [uint32_t]. *)
Definition thread_seed (s : SharedState) (index : Z) : Z :=
  uint32 (1000 + index + seed_ s).

(** ** Stats: the other counters *)

Definition AddGets (ngets nfounds : Z) (st : Stats) : Stats := {|
  start_stats := start_stats st;
  finish_ := finish_ st;
  done_ := done_ st;
  gets_ := gets_ st + ngets;
  prefixes_ := prefixes_ st;
  writes_ := writes_ st;
  deletes_ := deletes_ st;
  iterator_size_sums_ := iterator_size_sums_ st;
  founds_ := founds_ st + nfounds;
  errors_ := errors_ st;
  next_report_ := next_report_ st;
  bytes_ := bytes_ st;
  last_op_finish_ := last_op_finish_ st;
  hist_ := hist_ st
|}.

Definition AddPrefixes (nprefixes count : Z) (st : Stats) : Stats := {|
  start_stats := start_stats st;
  finish_ := finish_ st;
  done_ := done_ st;
  gets_ := gets_ st;
  prefixes_ := prefixes_ st + nprefixes;
  writes_ := writes_ st;
  deletes_ := deletes_ st;
  iterator_size_sums_ := iterator_size_sums_ st + count;
  founds_ := founds_ st;
  errors_ := errors_ st;
  next_report_ := next_report_ st;
  bytes_ := bytes_ st;
  last_op_finish_ := last_op_finish_ st;
  hist_ := hist_ st
|}.

Definition AddDeletes (n : Z) (st : Stats) : Stats := {|
  start_stats := start_stats st;
  finish_ := finish_ st;
  done_ := done_ st;
  gets_ := gets_ st;
  prefixes_ := prefixes_ st;
  writes_ := writes_ st;
  deletes_ := deletes_ st + n;
  iterator_size_sums_ := iterator_size_sums_ st;
  founds_ := founds_ st;
  errors_ := errors_ st;
  next_report_ := next_report_ st;
  bytes_ := bytes_ st;
  last_op_finish_ := last_op_finish_ st;
  hist_ := hist_ st
|}.

(** [Stats::Merge(other)], on the fields of the record (the sum of the
    floating-point [seconds_] is left out with the field).  The histogram
    of the result holds the samples of both. *)
Definition Stats_Merge (st other : Stats) : Stats := {|
  start_stats :=
    if start_stats other <? start_stats st then start_stats other
    else start_stats st;
  finish_ :=
    if finish_ st <? finish_ other then finish_ other else finish_ st;
  done_ := done_ st + done_ other;
  gets_ := gets_ st + gets_ other;
  prefixes_ := prefixes_ st + prefixes_ other;
  writes_ := writes_ st + writes_ other;
  deletes_ := deletes_ st + deletes_ other;
  iterator_size_sums_ := iterator_size_sums_ st + iterator_size_sums_ other;
  founds_ := founds_ st + founds_ other;
  errors_ := errors_ st + errors_ other;
  next_report_ := next_report_ st;
  bytes_ := uint64 (bytes_ st + bytes_ other);
  last_op_finish_ := last_op_finish_ st;
  hist_ := hist_ st ++ hist_ other
|}.

(** The loop of [Run] that merges the statistics of the threads
    [1 .. n-1] into those of thread 0. *)
Definition merge_threads (first : Stats) (others : list Stats) : Stats :=
  fold_left Stats_Merge others first.

(** ** A reference database *)

(** Modelled from the spec: the storage engine is not among the sources.
    By sections 4.4 and 6 it is a map from keys to values: [put] and
    [merge] (which must behave as [put]) bind the key, [delete] unbinds
    it, [write] applies the steps of a batch in order as one update, and
    [get] answers OK with the value bound to the key or NotFound. *)
Definition db_apply (db : gmap (list Z) (list Z)) (o : batch_op)
  : gmap (list Z) (list Z) :=
  match o with
  | BatchPut k v | BatchMerge k v => <[ k := v ]> db
  | BatchDelete k => delete k db
  end.

Definition db_write (db : gmap (list Z) (list Z)) (batch : list batch_op)
  : gmap (list Z) (list Z) :=
  fold_left db_apply batch db.

Definition db_get (db : gmap (list Z) (list Z)) (k value : bytes)
  : Status * bytes :=
  match db !! k with
  | Some v => (OK, v)
  | None => (NotFound, value)
  end.

Definition IsNotFound (s : Status) : bool :=
  match s with NotFound => true | _ => false end.

(** The gets and the lines on standard error of a trace. *)
Definition db_gets (t : list event) : list (list Z) :=
  omap (fun e => match e with EvDbGet k => Some k | _ => None end) t.

Definition is_stderr (e : event) : bool :=
  match e with EvFprintf Stderr _ _ => true | _ => false end.

(** [fold] in [prog]: the body of a [for] loop run over its indices. *)
Fixpoint prog_foldl {S A} (f : S -> A -> prog S) (l : list A) (s : S)
  : prog S :=
  match l with
  | [] => mret s
  | a :: l' => s' ← f s a; prog_foldl f l' s'
  end.

(** ** Batch mode: MultiDelete, MultiGet, MultiPrefixScan *)

Definition delete_lane_digits : list string :=
  ["9"; "7"; "5"; "3"; "1"; "8"; "6"; "4"; "2"; "0"]%string.

Definition get_lane_digits : list string :=
  ["0"; "1"; "2"; "3"; "4"; "5"; "6"; "7"; "8"; "9"]%string.

(** The loop of [MultiDelete] that fills the batch. *)
Definition MultiDelete_loop (key : bytes) : list (list Z) * list batch_op :=
  fold_left
    (fun '(keys, batch) (i : nat) =>
       let keys := <[ i := keys !!! i ++ key ]> keys in
       (keys, batch ++ [BatchDelete (keys !!! i)]))
    (seq 0 10)
    (map lit delete_lane_digits, []).

(** [MultiDelete(thread, writeoptions, key)] *)
Definition MultiDelete (db_Write : list batch_op -> Status)
    (stats : Stats) (key : bytes) : prog (Status * Stats) :=
  let '(_, batch) := MultiDelete_loop key in
  emit (EvDbWrite batch);;
  let s := db_Write batch in
  if negb (ok s) then
    emit (EvFprintf Stderr "multidelete error: %s\n" [ArgStatus s]);;
    mret (s, AddErrors 1 stats)
  else
    mret (s, AddDeletes 10 stats).

(** [s[0]] of a [std::string]: the NUL behind the text when it is empty. *)
Definition first_char (s : bytes) : Z := default 0 (s !! 0%nat).

(** The state of the first loop of [MultiGet]: the arrays [keys] and
    [values], the string [*value], the status [s] and [thread->stats]. *)
Definition MultiGet_state : Type :=
  (list (list Z) * list (list Z) * list Z * Status * Stats)%type.

(** One round of the first loop of [MultiGet].  [db_Get] answers for the
    snapshot the function takes; storing the blank in an empty value writes
    behind the text of the string. *)
Definition MultiGet_round (db_Get : bytes -> bytes -> Status * bytes)
    (key : bytes) (st : MultiGet_state) (i : nat) : prog MultiGet_state :=
  let '(keys, values, value, _, stats) := st in
  let keys := <[ i := keys !!! i ++ key ]> keys in
  emit (EvDbGet (keys !!! i));;
  let '(s, value) := db_Get (keys !!! i) value in
  if negb (ok s) && negb (IsNotFound s) then
    emit (EvFprintf Stderr "get error: %s\n" [ArgStatus s]);;
    mret (keys, <[ i := [] ]> values, value, s, AddErrors 1 stats)
  else if IsNotFound s then
    mret (keys, <[ i := [] ]> values, value, s, AddGets 1 0 stats)
  else
    let values := <[ i := value ]> values in
    let expected_prefix := first_char (keys !!! i) in
    let actual_prefix := first_char (values !!! i) in
    (if negb (actual_prefix =? expected_prefix)
     then emit (EvFprintf Stderr "error expected prefix = %c actual = %c\n"
                  [ArgInt expected_prefix; ArgInt actual_prefix])
     else mret tt);;
    blanked ← lift (store (values !!! i) 0 32);
    mret (keys, <[ i := blanked ]> values, value, s, AddGets 1 1 stats).

(** The second loop of [MultiGet]: one line for every lane whose value
    differs from that of lane 0. *)
Definition MultiGet_compare (key : bytes) (values : list (list Z))
  : list event :=
  flat_map
    (fun i : nat =>
       if bool_decide (values !!! i = values !!! 0%nat) then []
       else [EvFprintf Stderr
               "error : inconsistent values for key %s: %s, %s\n"
               [ArgStr key; ArgStr (values !!! 0%nat); ArgStr (values !!! i)]])
    (seq 1 9).

(** [MultiGet(thread, readoptions, key, value)]: the status returned, the
    statistics and [*value] afterwards. *)
Definition MultiGet (db_Get : bytes -> bytes -> Status * bytes)
    (stats : Stats) (key value : bytes) : prog (Status * Stats * list Z) :=
  '(_, values, value, s, stats) ←
    prog_foldl (MultiGet_round db_Get key)
      (seq 0 10)
      (map lit get_lane_digits, replicate 10 [], value, OK, stats);
  (MultiGet_compare key values, Returned tt);;
  mret (s, stats, value).

(** The state of the loops of [MultiPrefixScan]: what each of the ten
    iterators still has to yield, as (key, value) pairs. *)
Abbreviation iterators := (list (list (list Z * list Z))) (only parsing).

(** The first inner loop of [MultiPrefixScan], for lane [i]. *)
Definition MultiPrefixScan_value (prefixes : list (list Z)) (iters : iterators)
    (values : list (list Z)) (i : nat) : prog (list (list Z)) :=
  match iters !!! i with
  | [] => lift AssertFailed      (* no iterator should finish before the first one *)
  | (_, v) :: _ =>
      let values := <[ i := v ]> values in
      let expected_first := first_char (prefixes !!! i) in
      let actual_first := first_char (values !!! i) in
      (if negb (actual_first =? expected_first)
       then emit (EvFprintf Stderr "error expected first = %c actual = %c\n"
                    [ArgInt expected_first; ArgInt actual_first])
       else mret tt);;
      blanked ← lift (store (values !!! i) 0 32);
      mret (<[ i := blanked ]> values)
  end.

(** The second inner loop, for lane [i]: the comparison with lane 0 and
    [iters[i]->Next()]. *)
Definition MultiPrefixScan_next (prefix : bytes) (values : list (list Z))
    (iters : iterators) (i : nat) : prog iterators :=
  (if bool_decide (values !!! i = values !!! 0%nat) then mret tt
   else emit (EvFprintf Stderr
                "error : inconsistent values for prefix %s: %s, %s\n"
                [ArgStr prefix; ArgStr (values !!! 0%nat);
                 ArgStr (values !!! i)]));;
  mret (<[ i := tail (iters !!! i) ]> iters).

(** The [while (iters[0]->Valid())] loop; every round takes one entry from
    iterator 0, so its length bounds the rounds. *)
Fixpoint MultiPrefixScan_while (fuel : nat) (prefix : bytes)
    (prefixes : list (list Z)) (iters : iterators) (count : Z)
  : prog (iterators * Z) :=
  match fuel with
  | O => mret (iters, count)
  | S fuel' =>
      match iters !!! 0%nat with
      | [] => mret (iters, count)
      | _ :: _ =>
          let count := int32 (count + 1) in
          values ← prog_foldl (MultiPrefixScan_value prefixes iters)
                     (seq 0 10) (replicate 10 []);
          iters ← prog_foldl (MultiPrefixScan_next prefix values)
                    (seq 0 10) iters;
          MultiPrefixScan_while fuel' prefix prefixes iters count
      end
  end.

(** [MultiPrefixScan(thread, readoptions, prefix)].  [db_Scan p] is what
    the iterator made for prefix [p] on the snapshot yields, with the
    status it ends in. *)
Definition MultiPrefixScan
    (db_Scan : bytes -> list (list Z * list Z) * Status)
    (stats : Stats) (prefix : bytes) : prog (Status * Stats) :=
  let prefixes := map (fun d => lit d ++ prefix) get_lane_digits in
  let iters := map (fun p => fst (db_Scan p)) prefixes in
  '(iters, count) ←
    MultiPrefixScan_while (length (iters !!! 0%nat)) prefix prefixes iters 0;
  prog_foldl
    (fun (_ : unit) (i : nat) =>
       lift (cassert (match iters !!! i with [] => true | _ => false end));;
       lift (cassert (ok (snd (db_Scan (prefixes !!! i))))))
    (seq 0 10) tt;;
  mret (OK, AddPrefixes 1 count stats).

(** ** Verification of the whole key space *)

(** A [char] passed to [printf]: promoted to [int] (the type is signed
    here) and printed as [unsigned]. *)
Definition char_to_unsigned (b : Z) : Z :=
  uint32 (if b <? 128 then b else b - 256).

(** [PrintKeyValue(key, value, sz)]; the key parameter is a [uint32_t]. *)
Definition PrintKeyValue (F : Flags) (key : Z) (value : bytes) (sz : Z)
  : prog unit :=
  if negb (FLAGS_verbose F) then mret tt
  else
    emit (EvFprintf Stdout "%u ==> (%u) " [ArgInt (uint32 key); ArgInt (uint32 sz)]);;
    prog_foldl
      (fun (_ : unit) (i : nat) =>
         match value !! i with
         | Some b => emit (EvFprintf Stdout "%X" [ArgInt (char_to_unsigned b)])
         | None => lift Undefined
         end)
      (seq 0 (Z.to_nat sz)) tt;;
    emit (EvFprintf Stdout "\n" []).

(** The loop [for (long i = start; i < max_key; i += step)] of [VerifyDb].
    With a step of at least 1 it makes at most [max_key - start] rounds; a
    loop that has not ended by then runs with a step that is not positive. *)
Fixpoint VerifyDb_loop (F : Flags) (host : byte_order)
    (db_Get : bytes -> bytes -> Status * bytes) (value : bytes)
    (shared : SharedState) (fuel : nat) (i max_key step : Z) : prog unit :=
  if max_key <=? i then mret tt
  else
    match fuel with
    | O => lift Undefined
    | S fuel' =>
        from_db ← VerifyValue F host db_Get value i shared [] true;
        (if negb (Z.of_nat (length from_db) =? 0)
         then PrintKeyValue F i from_db (Z.of_nat (length from_db))
         else mret tt);;
        VerifyDb_loop F host db_Get value shared fuel' (i + step) max_key step
    end.

(** [VerifyDb(shared, start)] *)
Definition VerifyDb (F : Flags) (host : byte_order)
    (db_Get : bytes -> bytes -> Status * bytes) (value : bytes)
    (shared : SharedState) (start : Z) : prog unit :=
  let max_key := max_key_ shared in
  let step := uint32 (num_threads_ shared) in
  VerifyDb_loop F host db_Get value shared
    (Z.to_nat (max_key - start)) start max_key step.

(** ** The write and delete branches of OperateDb *)

(** What the two branches work on outside the batch mode: the shared
    state, the database, [thread->stats] and the string [from_db]. *)
Record harness : Type := {
  h_shared : SharedState;
  h_db : gmap (list Z) (list Z);
  h_stats : Stats;
  h_from_db : list Z
}.

(** The branch [OPERATION write?] for key [rand_key], with [value_base]
    the number drawn for the value; [value] and [verify_value] are the
    buffers of [OperateDb] and of [VerifyValue].  The result carries the
    buffer of [OperateDb] afterwards. *)
Definition OperateDb_write (F : Flags) (host : byte_order)
    (value verify_value : bytes) (h : harness) (rand_key value_base : Z)
  : prog (harness * list Z) :=
  let key := Key rand_key in
  '(sz, value) ← lift (GenerateValue F host value_base value value_buffer_size);
  let v := take (Z.to_nat sz) value in
  from_db ←
    (if FLAGS_verify_before_write F
     then VerifyValue F host (db_get (h_db h)) verify_value rand_key
            (h_shared h) (h_from_db h) true
     else mret (h_from_db h));
  shared ← lift (Put (h_shared h) rand_key value_base);
  let db :=
    if FLAGS_use_merge_put F
    then db_apply (h_db h) (BatchMerge key v)
    else db_apply (h_db h) (BatchPut key v) in
  let stats := AddBytesForWrites 1 sz (h_stats h) in
  PrintKeyValue F rand_key value sz;;
  mret ({| h_shared := shared; h_db := db; h_stats := stats;
           h_from_db := from_db |}, value).

(** The branch [OPERATION delete?] for key [rand_key]. *)
Definition OperateDb_delete (h : harness) (rand_key : Z) : outcome harness :=
  let key := Key rand_key in
  shared ← Delete (h_shared h) rand_key;
  mret {| h_shared := shared;
          h_db := db_apply (h_db h) (BatchDelete key);
          h_stats := AddDeletes 1 (h_stats h);
          h_from_db := h_from_db h |}.

(** A write or a delete of the loop, with the numbers it drew. *)
Inductive update : Type :=
| Write (rand_key value_base : Z)
| Remove (rand_key : Z).

(** A sequence of writes and deletes, as one thread issues them. *)
Definition OperateDb_updates (F : Flags) (host : byte_order)
    (value verify_value : bytes) (h : harness) (us : list update)
  : prog (harness * list Z) :=
  prog_foldl
    (fun '(h, value) u =>
       match u with
       | Write rand_key value_base =>
           OperateDb_write F host value verify_value h rand_key value_base
       | Remove rand_key =>
           h' ← lift (OperateDb_delete h rand_key); mret (h', value)
       end)
    us (h, value).

(** The shadow array and the database say the same of every key: a
    SENTINEL entry has no value in the database, any other entry has the
    canonical value of its base. *)
Definition agree (F : Flags) (host : byte_order) (shared : SharedState)
    (db : gmap (list Z) (list Z)) : Prop :=
  forall key base,
    Get shared key = Returned base ->
    db !! Key key =
      if base =? SENTINEL then None
      else Some (canonical_value host base (value_size F base)).

(** The keys thread [start] of [step] threads verifies, below [max_key]. *)
Definition stride (start step max_key : Z) : list Z :=
  map (fun j : nat => start + Z.of_nat j * step)
      (seq 0 (Z.to_nat ((max_key - start + step - 1) / step))).

(** The database answers for [key] what the shadow array expects: a value
    exactly when the entry is not SENTINEL, and then the canonical value of
    the entry. *)
Definition shadow_consistent (F : Flags) (host : byte_order)
    (db_Get : bytes -> bytes -> Status * bytes) (shared : SharedState)
    (key : Z) : Prop :=
  exists base,
    Get shared key = Returned base /\
    if ok (fst (db_Get (Key key) []))
    then base <> SENTINEL /\
         snd (db_Get (Key key) []) = canonical_value host base (value_size F base)
    else base = SENTINEL.

(** The numbers a write or a delete of the loop can draw: [rand_key] is
    [rand.Next() % max_key], [value_base] a [uint32_t] other than the mark
    SENTINEL of a deleted key. *)
Definition valid_update (F : Flags) (u : update) : Prop :=
  match u with
  | Write rand_key value_base =>
      0 <= rand_key < FLAGS_max_key F /\
      0 <= value_base < 2 ^ 32 /\ value_base <> SENTINEL
  | Remove rand_key => 0 <= rand_key < FLAGS_max_key F
  end.

(** The sum of one counter over the statistics of a list of threads. *)
Definition total (f : Stats -> Z) (l : list Stats) : Z :=
  fold_right Z.add 0 (map f l).

(** The arguments the program takes, as its usage has them: an option the
    loop knows, with 0 or 1 for a switch, a number of 0 to 100 for a
    percentage and a number that is not negative for [--reopen]; the other
    numeric options take any number, and [--compression_type=] any name. *)
Definition accepted (a : flag_arg) : bool :=
  match a with
  | Arg_verbose n | Arg_histogram n | Arg_verify_before_write n
  | Arg_test_batches_snapshots n | Arg_disable_wal n | Arg_use_merge n =>
      bool_decide (n = 0 \/ n = 1)
  | Arg_readpercent n | Arg_prefixpercent n | Arg_writepercent n
  | Arg_delpercent n => bool_decide (0 <= n <= 100)
  | Arg_reopen n => bool_decide (0 <= n)
  | Arg_seed _ | Arg_max_key _ | Arg_log2_keys_per_lock _
  | Arg_ops_per_thread _ | Arg_threads _ | Arg_value_size_mult _
  | Arg_compression_type _ | Arg_other => true
  | Arg_unknown => false
  end.

(** The lines the argument loop leaves on standard output. *)
Definition cannot_parse_lines (argv : list flag_arg) : list event :=
  flat_map cannot_parse_line argv.

(** ** The prefix-scan branch of OperateDb *)




(** ** The read branch of OperateDb *)

(** The branch [OPERATION read?] outside the batch mode, for key
    [rand_key]: the counters and the string [from_db] afterwards. *)
Definition OperateDb_read (db_Get : bytes -> bytes -> Status * bytes)
    (stats : Stats) (from_db : bytes) (rand_key : Z) : prog (Stats * list Z) :=
  let key := Key rand_key in
  emit (EvDbGet key);;
  let '(s, from_db) := db_Get key from_db in
  if ok s then mret (AddGets 1 1 stats, from_db)
  else if IsNotFound s then mret (AddGets 1 0 stats, from_db)
  else mret (AddErrors 1 stats, from_db).

(** The value an iterator of [MultiPrefixScan] stands on, and a value
    with its first character blanked out. *)
Definition head_value (lane : list (list Z * list Z)) : list Z :=
  match lane with
  | (_, v) :: _ => v
  | [] => []
  end.

Definition blank (v : list Z) : list Z := 32 :: tail v.

(** The value of entry [j] of the iterator of lane [i]. *)
Definition lane_value (lanes : iterators) (i j : nat) : list Z :=
  snd ((lanes !!! i) !!! j).

(** * Properties *)

(** ** Machine integers *)

Lemma uint32_small x : 0 <= x < 2 ^ 32 -> uint32 x = x.
Proof. intros H. unfold uint32. apply Z.mod_small. exact H. Qed.

Lemma uint64_small x : 0 <= x < 2 ^ 64 -> uint64 x = x.
Proof. intros H. unfold uint64. apply Z.mod_small. exact H. Qed.

Lemma int32_small x : - 2 ^ 31 <= x < 2 ^ 31 -> int32 x = x.
Proof. intros H. unfold int32. rewrite Z.mod_small; lia. Qed.

Lemma byte_of_shift v k :
  0 <= k -> Z.land (Z.shiftr v k) 255 = (v / 2 ^ k) mod 256.
Proof.
  intros Hk. rewrite Z.shiftr_div_pow2 by exact Hk.
  change 255 with (Z.ones 8). rewrite Z.land_ones by lia. reflexivity.
Qed.

(** ** Key codec *)

Lemma PutFixed64_length dst v :
  length (PutFixed64 dst v) = (length dst + sizeof_long)%nat.
Proof. unfold PutFixed64. rewrite length_app, length_map, length_seq. reflexivity. Qed.

Lemma Key_bytes v :
  Key v = map (fun k : Z => (uint64 v / 2 ^ k) mod 256)
              [56; 48; 40; 32; 24; 16; 8; 0].
Proof.
  unfold Key, PutFixed64, sizeof_long.
  cbn -[Z.land Z.shiftr uint64 Z.div Z.modulo Z.pow].
  rewrite !byte_of_shift by lia. reflexivity.
Qed.

Lemma Key_length v : length (Key v) = sizeof_long.
Proof. rewrite Key_bytes. reflexivity. Qed.

Lemma Key_is_bytes v : Forall is_byte (Key v).
Proof.
  rewrite Key_bytes. unfold is_byte.
  repeat constructor; apply Z.mod_pos_bound; lia.
Qed.

Lemma decode_key_Key v : decode_key (Key v) = uint64 v.
Proof.
  rewrite Key_bytes. unfold decode_key. cbn [map fold_left].
  assert (H : 0 <= uint64 v < 2 ^ 64) by (apply Z.mod_pos_bound; lia).
  revert H. generalize (uint64 v) as w. intros w H.
  change (2 ^ 0) with 1. rewrite Z.div_1_r.
  Z.div_mod_to_equations. lia.
Qed.

Lemma decode_key_acc (l : bytes) (acc : Z) :
  fold_left (fun acc b => acc * 256 + b) l acc
  = acc * 256 ^ Z.of_nat (length l) + decode_key l.
Proof.
  unfold decode_key. revert acc.
  induction l as [|x l IH]; intros acc.
  - cbn. lia.
  - cbn [fold_left length]. rewrite IH, (IH (0 * 256 + x)).
    rewrite Nat2Z.inj_succ, Z.pow_succ_r by lia. ring.
Qed.

Lemma decode_key_cons x (l : bytes) :
  decode_key (x :: l) = x * 256 ^ Z.of_nat (length l) + decode_key l.
Proof.
  unfold decode_key at 1. cbn [fold_left].
  rewrite decode_key_acc. ring.
Qed.

Lemma decode_key_bound (l : bytes) :
  Forall is_byte l -> 0 <= decode_key l < 256 ^ Z.of_nat (length l).
Proof.
  induction 1 as [|x l Hx Hl IH].
  - cbn. lia.
  - rewrite decode_key_cons. cbn [length].
    rewrite Nat2Z.inj_succ, Z.pow_succ_r by lia.
    unfold is_byte in Hx. nia.
Qed.

(** Among byte strings of one length the byte order is the order of the
    numbers they denote. *)
Lemma bytes_compare_decode (l1 l2 : bytes) :
  length l1 = length l2 -> Forall is_byte l1 -> Forall is_byte l2 ->
  decode_key l1 < decode_key l2 -> bytes_compare l1 l2 = Lt.
Proof.
  revert l2. induction l1 as [|x l1 IH]; intros [|y l2] Hlen H1 H2 Hlt;
    try discriminate.
  inversion H1 as [|? ? Hx H1']; inversion H2 as [|? ? Hy H2']; subst.
  injection Hlen as Hlen.
  rewrite !decode_key_cons, Hlen in Hlt.
  pose proof (decode_key_bound l1 H1') as B1.
  pose proof (decode_key_bound l2 H2') as B2.
  rewrite Hlen in B1.
  cbn [bytes_compare].
  destruct (Z.compare_spec x y) as [Heq|Hxy|Hxy].
  - subst y. apply IH; auto. lia.
  - reflexivity.
  - exfalso. nia.
Qed.

Lemma Key_injective x y : is_long x -> is_long y -> Key x = Key y -> x = y.
Proof.
  unfold is_long. intros Hx Hy E.
  apply (f_equal decode_key) in E. rewrite !decode_key_Key in E.
  unfold uint64 in E.
  destruct (Z.eq_dec x y) as [|Hne]; [assumption|exfalso].
  assert (D : (x - y) mod 2 ^ 64 = 0).
  { rewrite Zminus_mod, E, Z.sub_diag. reflexivity. }
  apply Z.mod_divide in D; [|lia]. destruct D as [q D].
  change (2 ^ 64) with 18446744073709551616 in D.
  change (2 ^ 63) with 9223372036854775808 in Hx, Hy. lia.
Qed.

(** C4.  The key of a [long] is 8 bytes, each in [0, 256), the most
    significant byte of the number first: byte [i] is the number (in two's
    complement on 64 bits) shifted right by [8 * (7 - i)] bits, cut to 8
    bits.  For logical keys [0 <= a < b] the key of [a] precedes the key of
    [b] in lexicographic byte order; the encoding is reversible
    ([decode_key], which reads the bytes as a base-256 numeral, gives the
    key back) and injective on [long]. *)
Theorem Key_monotone_reversible (a b : Z) :
  0 <= a < b -> is_long b ->
  bytes_lt (Key a) (Key b) = true /\
  decode_key (Key a) = a /\ decode_key (Key b) = b /\
  (forall x y, is_long x -> is_long y -> Key x = Key y -> x = y) /\
  (forall x, is_long x ->
     length (Key x) = 8%nat /\
     Forall is_byte (Key x) /\
     Key x = map (fun i : nat => (uint64 x / 2 ^ (8 * (7 - Z.of_nat i))) mod 256)
                 (seq 0 8) /\
     (0 <= x -> decode_key (Key x) = x)).
Proof.
  unfold is_long. intros Hab Hb.
  assert (Da : decode_key (Key a) = a).
  { rewrite decode_key_Key. apply uint64_small. lia. }
  assert (Db : decode_key (Key b) = b).
  { rewrite decode_key_Key. apply uint64_small. lia. }
  split; [|split; [exact Da|split; [exact Db|split]]].
  - unfold bytes_lt.
    rewrite (bytes_compare_decode (Key a) (Key b)); [reflexivity | | | |].
    + rewrite !Key_length. reflexivity.
    + apply Key_is_bytes.
    + apply Key_is_bytes.
    + lia.
  - intros x y Hx Hy. apply Key_injective; assumption.
  - intros x Hx.
    split; [apply Key_length|]. split; [apply Key_is_bytes|].
    split; [rewrite Key_bytes; reflexivity|].
    intros H0. rewrite decode_key_Key. apply uint64_small. lia.
Qed.

Lemma Key_monotone_reversible_witness :
  bytes_lt (Key 255) (Key 256) = true /\
  decode_key (Key 255) = 255 /\ decode_key (Key 256) = 256 /\
  (forall x y, is_long x -> is_long y -> Key x = Key y -> x = y) /\
  (forall x, is_long x ->
     length (Key x) = 8%nat /\
     Forall is_byte (Key x) /\
     Key x = map (fun i : nat => (uint64 x / 2 ^ (8 * (7 - Z.of_nat i))) mod 256)
                 (seq 0 8) /\
     (0 <= x -> decode_key (Key x) = x)).
Proof. apply (Key_monotone_reversible 255 256); unfold is_long; lia. Defined.

(** ** Value generator *)

Lemma store_ok {A} (vs : list A) (i : nat) (x : A) :
  (i < length vs)%nat ->
  store vs (Z.of_nat i) x = Returned (take i vs ++ x :: drop (S i) vs).
Proof.
  intros Hi. unfold store.
  replace ((0 <=? Z.of_nat i) && (Z.of_nat i <? Z.of_nat (length vs))) with true
    by (symmetry; apply andb_true_iff; split; [apply Z.leb_le | apply Z.ltb_lt]; lia).
  rewrite Nat2Z.id, insert_take_drop by exact Hi. reflexivity.
Qed.

Lemma store_ok_Z {A} (vs : list A) (i : Z) (x : A) :
  0 <= i < Z.of_nat (length vs) ->
  store vs i x
  = Returned (take (Z.to_nat i) vs ++ x :: drop (S (Z.to_nat i)) vs).
Proof.
  intros Hi. rewrite <- (Z2Nat.id i) at 1 by lia. apply store_ok. lia.
Qed.

Lemma store_fail {A} (vs : list A) (i : Z) (x : A) :
  Z.of_nat (length vs) <= i -> store vs i x = Undefined.
Proof.
  intros Hi. unfold store.
  replace (i <? Z.of_nat (length vs)) with false by (symmetry; apply Z.ltb_ge; lia).
  rewrite andb_false_r. reflexivity.
Qed.

Lemma take_S_app_cons {A} (l1 l2 : list A) (x : A) (i : nat) :
  length l1 = i -> take (S i) (l1 ++ x :: l2) = l1 ++ [x].
Proof.
  intros <-. induction l1 as [|y l1 IH]; cbn.
  - rewrite take_0. reflexivity.
  - f_equal. exact IH.
Qed.

Lemma drop_S_app_cons {A} (l1 l2 : list A) (x : A) (i n : nat) :
  length l1 = i -> drop (S i + n) (l1 ++ x :: l2) = drop n l2.
Proof.
  intros <-. induction l1 as [|y l1 IH]; cbn.
  - reflexivity.
  - exact IH.
Qed.

Lemma fill_value_ok (n : nat) (rand : Z) :
  forall (i : nat) (v : bytes),
    (i + n <= length v)%nat ->
    fill_value n rand (Z.of_nat i) v
    = Returned (take i v ++ map (value_byte rand) (seq i n) ++ drop (i + n) v).
Proof.
  induction n as [|n IH]; intros i v Hlen.
  - cbn. rewrite Nat.add_0_r, take_drop. reflexivity.
  - cbn [fill_value]. rewrite store_ok by lia. cbn.
    replace (Z.of_nat i + 1) with (Z.of_nat (S i)) by lia.
    rewrite IH by (rewrite length_app, length_take; cbn [length]; rewrite length_drop; lia).
    f_equal.
    assert (Ht : length (take i v) = i) by (rewrite length_take; lia).
    rewrite take_S_app_cons, drop_S_app_cons by exact Ht.
    rewrite drop_drop, <- app_assoc. cbn [seq map app].
    replace (S i + n)%nat with (i + S n)%nat by lia. reflexivity.
Qed.

Lemma fill_value_fail (n : nat) (rand : Z) :
  forall (i : nat) (v : bytes),
    (i <= length v < i + n)%nat -> fill_value n rand (Z.of_nat i) v = Undefined.
Proof.
  induction n as [|n IH]; intros i v Hlen.
  - lia.
  - cbn [fill_value].
    destruct (Nat.lt_ge_cases i (length v)) as [Hi|Hi].
    + rewrite store_ok by exact Hi. cbn.
      replace (Z.of_nat i + 1) with (Z.of_nat (S i)) by lia.
      apply IH. rewrite length_app, length_take. cbn [length].
      rewrite length_drop. lia.
    + rewrite store_fail by lia. reflexivity.
Qed.

Lemma store_bytes_ok (bs : bytes) :
  forall (i : nat) (v : bytes),
    (i + length bs <= length v)%nat ->
    store_bytes v (Z.of_nat i) bs
    = Returned (take i v ++ bs ++ drop (i + length bs) v).
Proof.
  induction bs as [|b bs IH]; intros i v Hlen.
  - cbn. rewrite Nat.add_0_r, take_drop. reflexivity.
  - cbn [store_bytes]. cbn [length] in Hlen. rewrite store_ok by lia. cbn.
    replace (Z.of_nat i + 1) with (Z.of_nat (S i)) by lia.
    rewrite IH by (rewrite length_app, length_take; cbn [length]; rewrite length_drop; lia).
    f_equal.
    assert (Ht : length (take i v) = i) by (rewrite length_take; lia).
    rewrite take_S_app_cons, drop_S_app_cons by exact Ht.
    rewrite drop_drop, <- app_assoc. cbn [app length].
    replace (S i + length bs)%nat with (i + S (length bs))%nat by lia. reflexivity.
Qed.

Lemma store_bytes_fail (bs : bytes) :
  forall (i : nat) (v : bytes),
    (i <= length v < i + length bs)%nat -> store_bytes v (Z.of_nat i) bs = Undefined.
Proof.
  induction bs as [|b bs IH]; intros i v Hlen; cbn [length] in Hlen.
  - lia.
  - cbn [store_bytes].
    destruct (Nat.lt_ge_cases i (length v)) as [Hi|Hi].
    + rewrite store_ok by exact Hi. cbn.
      replace (Z.of_nat i + 1) with (Z.of_nat (S i)) by lia.
      apply IH. rewrite length_app, length_take. cbn [length].
      rewrite length_drop. lia.
    + rewrite store_fail by lia. reflexivity.
Qed.

Lemma uint32_bytes_length host x : length (uint32_bytes host x) = 4%nat.
Proof. destruct host; reflexivity. Qed.

Lemma canonical_value_length host base len :
  4 <= len -> Z.of_nat (length (canonical_value host base len)) = len.
Proof.
  intros H. unfold canonical_value.
  rewrite length_app, uint32_bytes_length, length_map, length_seq. lia.
Qed.

(** The three ways [GenerateValue] can end. *)
Lemma GenerateValue_returns F host rand (v : bytes) max_sz :
  4 <= value_size F rand <= max_sz ->
  value_size F rand < Z.of_nat (length v) ->
  GenerateValue F host rand v max_sz
  = Returned (value_size F rand,
              canonical_value host rand (value_size F rand)
              ++ 0 :: drop (S (Z.to_nat (value_size F rand))) v).
Proof.
  intros Hsz Hlen. unfold GenerateValue.
  set (sz := value_size F rand) in *.
  replace ((sz <=? max_sz) && (4 <=? sz)) with true
    by (symmetry; apply andb_true_iff; split; apply Z.leb_le; lia).
  cbn [cassert mbind outcome_mbind outcome_bind].
  pose proof (store_bytes_ok (uint32_bytes host rand) 0 v) as E0.
  change (Z.of_nat 0) with 0 in E0.
  rewrite E0 by (rewrite uint32_bytes_length; lia). clear E0.
  cbn [mbind outcome_mbind outcome_bind take app].
  rewrite uint32_bytes_length.
  change (0 + 4)%nat with 4%nat. rewrite take_0. cbn [app].
  pose proof (fill_value_ok (Z.to_nat (sz - 4)) rand 4
                (uint32_bytes host rand ++ drop 4 v)) as E4.
  change (Z.of_nat 4) with 4 in E4.
  rewrite E4 by (rewrite length_app, uint32_bytes_length, length_drop; lia).
  clear E4.
  cbn [mbind outcome_mbind outcome_bind].
  rewrite take_app_length' by (rewrite uint32_bytes_length; reflexivity).
  rewrite drop_app_add' by (rewrite uint32_bytes_length; reflexivity).
  rewrite drop_drop.
  replace (4 + Z.to_nat (sz - 4))%nat with (Z.to_nat sz) by lia.
  rewrite app_assoc.
  replace (Z.to_nat (sz - 4)) with (Z.to_nat sz - 4)%nat by lia.
  fold (canonical_value host rand sz).
  assert (Hc : length (canonical_value host rand sz) = Z.to_nat sz).
  { pose proof (canonical_value_length host rand sz). lia. }
  rewrite store_ok_Z by (rewrite length_app, length_drop; lia).
  cbn [mbind outcome_mbind outcome_bind mret outcome_mret].
  rewrite take_app_length' by (symmetry; exact Hc).
  replace (S (Z.to_nat sz)) with (Z.to_nat sz + 1)%nat at 1 by lia.
  rewrite drop_app_add' by (symmetry; exact Hc).
  rewrite drop_drop.
  replace (Z.to_nat sz + 1)%nat with (S (Z.to_nat sz)) by lia.
  reflexivity.
Qed.

Lemma GenerateValue_assert_fails F host rand (v : bytes) max_sz :
  ~ (4 <= value_size F rand <= max_sz) ->
  GenerateValue F host rand v max_sz = AssertFailed.
Proof.
  intros Hsz. unfold GenerateValue.
  replace ((value_size F rand <=? max_sz) && (4 <=? value_size F rand))
    with false; [reflexivity|].
  symmetry. apply andb_false_iff.
  destruct (Z.leb_spec (value_size F rand) max_sz); [right|left; reflexivity].
  apply Z.leb_gt. lia.
Qed.

Lemma GenerateValue_overruns F host rand (v : bytes) max_sz :
  4 <= value_size F rand <= max_sz ->
  Z.of_nat (length v) <= value_size F rand ->
  GenerateValue F host rand v max_sz = Undefined.
Proof.
  intros Hsz Hlen. unfold GenerateValue.
  set (sz := value_size F rand) in *.
  replace ((sz <=? max_sz) && (4 <=? sz)) with true
    by (symmetry; apply andb_true_iff; split; apply Z.leb_le; lia).
  cbn [cassert mbind outcome_mbind outcome_bind].
  destruct (Nat.lt_ge_cases (length v) 4) as [Hv|Hv].
  { pose proof (store_bytes_fail (uint32_bytes host rand) 0 v) as E0.
    change (Z.of_nat 0) with 0 in E0.
    rewrite E0 by (rewrite uint32_bytes_length; lia). reflexivity. }
  pose proof (store_bytes_ok (uint32_bytes host rand) 0 v) as E0.
  change (Z.of_nat 0) with 0 in E0.
  rewrite E0 by (rewrite uint32_bytes_length; lia). clear E0.
  cbn [mbind outcome_mbind outcome_bind].
  rewrite uint32_bytes_length.
  change (0 + 4)%nat with 4%nat. rewrite take_0. cbn [app].
  set (v1 := uint32_bytes host rand ++ drop 4 v).
  assert (Hv1 : length v1 = length v).
  { unfold v1. rewrite length_app, uint32_bytes_length, length_drop. lia. }
  destruct (Z.eq_dec (Z.of_nat (length v)) sz) as [Heq|Hne].
  - pose proof (fill_value_ok (Z.to_nat (sz - 4)) rand 4 v1) as E4.
    change (Z.of_nat 4) with 4 in E4.
    rewrite E4 by lia. clear E4.
    cbn [mbind outcome_mbind outcome_bind].
    rewrite store_fail; [reflexivity|].
    rewrite !length_app, length_map, length_seq, length_take, length_drop. lia.
  - pose proof (fill_value_fail (Z.to_nat (sz - 4)) rand 4 v1) as E4.
    change (Z.of_nat 4) with 4 in E4.
    rewrite E4 by lia. reflexivity.
Qed.

Lemma value_size_mod F rand :
  value_size F rand = ((rand mod 3 + 1) * FLAGS_value_size_mult F) mod 2 ^ 32.
Proof. unfold value_size, uint32. apply Z.mul_mod_idemp_r. lia. Qed.

Lemma value_size_exact F rand :
  0 <= FLAGS_value_size_mult F -> 3 * FLAGS_value_size_mult F < 2 ^ 32 ->
  value_size F rand = (rand mod 3 + 1) * FLAGS_value_size_mult F.
Proof.
  intros H0 H3. rewrite value_size_mod.
  pose proof (Z.mod_pos_bound rand 3 ltac:(lia)) as Hr.
  apply Z.mod_small. nia.
Qed.






Lemma GenerateValue_nul F host rand (v : bytes) max_sz sz v' :
  GenerateValue F host rand v max_sz = Returned (sz, v') ->
  sz = value_size F rand /\ v' !! Z.to_nat sz = Some 0.
Proof.
  intros E.
  destruct (Z_le_dec 4 (value_size F rand)) as [H4|H4];
    [destruct (Z_le_dec (value_size F rand) max_sz) as [Hm|Hm]|].
  - destruct (Z_lt_le_dec (value_size F rand) (Z.of_nat (length v))) as [Hl|Hl].
    + rewrite GenerateValue_returns in E by (try split; assumption).
      injection E as <- <-. split; [reflexivity|].
      apply list_lookup_middle.
      pose proof (canonical_value_length host rand (value_size F rand)). lia.
    + rewrite GenerateValue_overruns in E by (try split; assumption).
      discriminate.
  - rewrite GenerateValue_assert_fails in E by lia. discriminate.
  - rewrite GenerateValue_assert_fails in E by lia. discriminate.
Qed.

(** C7.  [GenerateValue] writes a NUL at index [value_sz], one past the
    length it returns, and the assertion does not cover that write: with
    [value_size_mult = 50] and base 1 the assertion passes and the NUL falls
    outside a 100-byte buffer.  For an [int] multiplier, every base gets
    through the assertion with all writes inside the 100-byte buffer exactly
    when [4 <= value_size_mult] and [3 * value_size_mult < 100]. *)
Theorem GenerateValue_buffer_safety F host :
  is_int (FLAGS_value_size_mult F) ->
  (forall rand (v : bytes) sz v',
     GenerateValue F host rand v value_buffer_size = Returned (sz, v') ->
     v' !! Z.to_nat sz = Some 0) /\
  (let F50 := set_value_size_mult F 50 in
   4 <= value_size F50 1 <= value_buffer_size /\
   forall v : bytes, Z.of_nat (length v) = value_buffer_size ->
     GenerateValue F50 host 1 v value_buffer_size = Undefined) /\
  ((forall rand (v : bytes),
      is_uint32 rand -> Z.of_nat (length v) = value_buffer_size ->
      exists sz v', GenerateValue F host rand v value_buffer_size
                    = Returned (sz, v'))
   <-> 4 <= FLAGS_value_size_mult F /\ 3 * FLAGS_value_size_mult F < 100).
Proof.
  unfold is_int, is_uint32, value_buffer_size. intros Hint.
  split; [|split].
  - intros rand v sz v' E. eapply GenerateValue_nul. exact E.
  - cbv zeta.
    assert (E : value_size (set_value_size_mult F 50) 1 = 100) by reflexivity.
    rewrite E. split; [lia|].
    intros v Hv. apply GenerateValue_overruns; rewrite E; lia.
  - split.
    + intros H.
      destruct (H 0 (replicate 100 0)) as (sz0 & v0 & E0); [lia|reflexivity|].
      destruct (H 2 (replicate 100 0)) as (sz2 & v2 & E2); [lia|reflexivity|].
      assert (B0 : 4 <= value_size F 0 <= 100).
      { destruct (Z_le_dec 4 (value_size F 0));
          [destruct (Z_le_dec (value_size F 0) 100)|]; try lia;
          rewrite GenerateValue_assert_fails in E0 by lia; discriminate. }
      assert (B2 : 4 <= value_size F 2 <= 100).
      { destruct (Z_le_dec 4 (value_size F 2));
          [destruct (Z_le_dec (value_size F 2) 100)|]; try lia;
          rewrite GenerateValue_assert_fails in E2 by lia; discriminate. }
      rewrite value_size_mod in B0, B2.
      change (0 mod 3 + 1) with 1 in B0. change (2 mod 3 + 1) with 3 in B2.
      change (2 ^ 32) with 4294967296 in B0, B2.
      change (2 ^ 31) with 2147483648 in Hint.
      revert B0 B2. Z.div_mod_to_equations. lia.
    + intros [H4 H3] rand v _ Hv.
      pose proof (Z.mod_pos_bound rand 3 ltac:(lia)) as Hr.
      assert (E : value_size F rand = (rand mod 3 + 1) * FLAGS_value_size_mult F).
      { apply value_size_exact; lia. }
      do 2 eexists. apply GenerateValue_returns; rewrite E; nia.
Qed.

Lemma GenerateValue_buffer_safety_witness :
  (forall rand (v : bytes) sz v',
     GenerateValue default_flags LittleEndian rand v value_buffer_size
     = Returned (sz, v') ->
     v' !! Z.to_nat sz = Some 0) /\
  (let F50 := set_value_size_mult default_flags 50 in
   4 <= value_size F50 1 <= value_buffer_size /\
   forall v : bytes, Z.of_nat (length v) = value_buffer_size ->
     GenerateValue F50 LittleEndian 1 v value_buffer_size = Undefined) /\
  ((forall rand (v : bytes),
      is_uint32 rand -> Z.of_nat (length v) = value_buffer_size ->
      exists sz v', GenerateValue default_flags LittleEndian rand v
                      value_buffer_size = Returned (sz, v'))
   <-> 4 <= FLAGS_value_size_mult default_flags /\
       3 * FLAGS_value_size_mult default_flags < 100).
Proof.
  apply (GenerateValue_buffer_safety default_flags LittleEndian).
  unfold is_int. simpl. lia.
Defined.

(** ** Shared state *)

Lemma store_length {A} (vs vs' : list A) i x :
  store vs i x = Returned vs' -> length vs' = length vs.
Proof.
  unfold store. destruct ((0 <=? i) && (i <? Z.of_nat (length vs))); [|discriminate].
  intros [= <-]. apply length_insert.
Qed.

Lemma Put_values s key value_base s' vs :
  Put s key value_base = Returned s' -> values_ s = Some vs ->
  exists vs', values_ s' = Some vs' /\ length vs' = length vs.
Proof.
  unfold Put. intros E Hv. rewrite Hv in E.
  destruct (store vs key value_base) as [vs'| | |] eqn:Es; try discriminate.
  cbn in E. injection E as <-. exists vs'. split; [reflexivity|].
  eapply store_length. exact Es.
Qed.

Lemma reachable_values_sized F n s : reachable F n s -> values_sized F s.
Proof.
  induction 1 as [|n s b s' Hr IH Hstep]; intros Hb.
  - unfold new_SharedState. cbn. rewrite Hb. eexists. split; [reflexivity|].
    apply length_replicate.
  - destruct (IH Hb) as (vs & Hv & Hl).
    destruct Hstep as [| | | | |s' E|key vb s' E|key s' E];
      try (exists vs; split; [exact Hv|exact Hl]).
    + unfold IncVotedReopen in E.
      destruct (num_threads_ s =? 0); [discriminate|]. injection E as <-.
      exists vs. split; [exact Hv|exact Hl].
    + destruct (Put_values _ _ _ _ _ E Hv) as (vs' & Hv' & Hl').
      exists vs'. split; [exact Hv'|]. congruence.
    + destruct (Put_values _ _ _ _ _ E Hv) as (vs' & Hv' & Hl').
      exists vs'. split; [exact Hv'|]. congruence.
Qed.

Lemma Get_in_range F n s key :
  reachable F n s -> FLAGS_test_batches_snapshots F = false ->
  0 <= key < FLAGS_max_key F ->
  exists base, Get s key = Returned base.
Proof.
  intros Hr Hb Hk. destruct (reachable_values_sized F n s Hr Hb) as (vs & Hv & Hl).
  unfold Get. rewrite Hv.
  replace ((0 <=? key) && (key <? Z.of_nat (length vs))) with true
    by (symmetry; apply andb_true_iff; split; [apply Z.leb_le|apply Z.ltb_lt]; lia).
  destruct (vs !! Z.to_nat key) as [b|] eqn:E; [eexists; reflexivity|].
  apply lookup_ge_None in E. lia.
Qed.

(** ** Verifier *)

Lemma bytes_compare_eq (a b : bytes) : bytes_compare a b = Eq <-> a = b.
Proof.
  revert b. induction a as [|x a IH]; intros [|y b]; cbn; try (split; congruence).
  destruct (Z.compare_spec x y) as [->|Hlt|Hgt].
  - rewrite IH. split; congruence.
  - split; [discriminate|]. intros [= -> _]. lia.
  - split; [discriminate|]. intros [= -> _]. lia.
Qed.

Lemma memcmp_zero (a b : bytes) n :
  memcmp a b n = 0 <-> take (Z.to_nat n) a = take (Z.to_nat n) b.
Proof.
  unfold memcmp. rewrite <- bytes_compare_eq.
  destruct (bytes_compare _ _); split; congruence.
Qed.


Lemma valid_value_size F rand :
  valid_value_size_mult F -> 4 <= value_size F rand < value_buffer_size.
Proof.
  unfold valid_value_size_mult, value_buffer_size. intros [H4 H3].
  pose proof (Z.mod_pos_bound rand 3 ltac:(lia)) as Hr.
  rewrite value_size_exact by lia. nia.
Qed.

Ltac run_prog :=
  cbn -[Key lit GenerateValue memcmp canonical_value value_size Z.of_nat].

Lemma Returned_inj {A} (a b : A) : Returned a = Returned b -> a = b.
Proof. intros E. injection E as E. exact E. Qed.

Lemma Get_Some (s : SharedState) vs key :
  values_ s = Some vs -> 0 <= key < Z.of_nat (length vs) ->
  exists base, vs !! Z.to_nat key = Some base /\ Get s key = Returned base.
Proof.
  intros Hv Hk. unfold Get. rewrite Hv.
  replace ((0 <=? key) && (key <? Z.of_nat (length vs))) with true
    by (symmetry; apply andb_true_iff; split;
        [apply Z.leb_le|apply Z.ltb_lt]; lia).
  destruct (vs !! Z.to_nat key) as [b|] eqn:E.
  - exists b. split; reflexivity.
  - apply lookup_ge_None in E. lia.
Qed.

Lemma Get_Returned (s : SharedState) key base :
  Get s key = Returned base ->
  exists vs, values_ s = Some vs /\ 0 <= key < Z.of_nat (length vs) /\
             vs !! Z.to_nat key = Some base.
Proof.
  unfold Get. destruct (values_ s) as [vs|]; [|discriminate].
  destruct (Z.leb_spec 0 key), (Z.ltb_spec key (Z.of_nat (length vs)));
    cbn [andb]; try discriminate.
  destruct (vs !! Z.to_nat key) as [b|] eqn:E; [|discriminate].
  intros H1. apply Returned_inj in H1. subst b.
  exists vs. repeat split; auto.
Qed.

Lemma Put_Returned (s : SharedState) vs key value_base :
  values_ s = Some vs -> 0 <= key < Z.of_nat (length vs) ->
  Put s key value_base
  = Returned (set_values s (Some (<[ Z.to_nat key := value_base ]> vs))).
Proof.
  intros Hv Hk. unfold Put, store. rewrite Hv.
  replace ((0 <=? key) && (key <? Z.of_nat (length vs))) with true
    by (symmetry; apply andb_true_iff; split;
        [apply Z.leb_le|apply Z.ltb_lt]; lia).
  reflexivity.
Qed.

Lemma harness_step_shared F host s b s' :
  harness_step F host s b s' -> shared_step s b s'.
Proof.
  intros H. destruct H; try constructor; try assumption.
  - eapply step_Put; eassumption.
  - eapply step_Delete; eassumption.
Qed.

Lemma harness_reachable_reachable F host n s :
  harness_reachable F host n s -> reachable F n s.
Proof.
  induction 1 as [|n s b s' _ IH Hstep]; [constructor|].
  eapply reachable_step; [exact IH|].
  eapply harness_step_shared; eassumption.
Qed.

Lemma GenerateValue_Returned_bounds F host rand (v : bytes) max_sz sz v' :
  GenerateValue F host rand v max_sz = Returned (sz, v') ->
  4 <= value_size F rand <= max_sz /\ value_size F rand < Z.of_nat (length v).
Proof.
  intros E.
  destruct (Z_le_dec 4 (value_size F rand)) as [H4|H4];
    [destruct (Z_le_dec (value_size F rand) max_sz) as [Hm|Hm]|];
    try (rewrite GenerateValue_assert_fails in E by lia; discriminate).
  destruct (Z_lt_le_dec (value_size F rand) (Z.of_nat (length v))) as [Hl|Hl].
  - split; [split|]; assumption.
  - rewrite GenerateValue_overruns in E by (try split; assumption).
    discriminate.
Qed.

Lemma Put_Get_cases (s s' : SharedState) k b key base :
  Put s k b = Returned s' -> Get s' key = Returned base ->
  (key = k /\ base = b) \/ Get s key = Returned base.
Proof.
  unfold Put, store. destruct (values_ s) as [vs|] eqn:Hv; [|discriminate].
  destruct (Z.leb_spec 0 k), (Z.ltb_spec k (Z.of_nat (length vs)));
    cbn [andb mbind outcome_mbind outcome_bind]; try discriminate.
  intros E. apply Returned_inj in E. subst s'.
  unfold Get. cbn [values_ set_values]. rewrite Hv, length_insert.
  destruct ((0 <=? key) && (key <? Z.of_nat (length vs))) eqn:Hin;
    [|discriminate].
  apply andb_true_iff in Hin. destruct Hin as [H0' H1'].
  apply Z.leb_le in H0'. apply Z.ltb_lt in H1'.
  destruct (Z.eq_dec key k) as [->|Hne].
  - rewrite list_lookup_insert_eq by lia.
    intros E. apply Returned_inj in E. left. split; [reflexivity|congruence].
  - rewrite list_lookup_insert_ne by lia. intros E. right. exact E.
Qed.

(** Every entry of the shadow array of a run, other than SENTINEL, is a
    base [GenerateValue] has returned for, into a buffer of 100 bytes. *)
Lemma harness_entries_generated F host n s :
  harness_reachable F host n s ->
  forall key base,
    Get s key = Returned base -> base <> SENTINEL ->
    4 <= value_size F base < value_buffer_size.
Proof.
  induction 1 as [|n s b s' _ IH Hstep]; intros key base Eg Hne.
  - exfalso. apply Hne.
    destruct (Get_Returned _ _ _ Eg) as (vs & Hv & _ & Hl).
    cbn [new_SharedState values_] in Hv.
    destruct (FLAGS_test_batches_snapshots F); [discriminate|].
    injection Hv as <-. apply lookup_replicate in Hl. tauto.
  - destruct Hstep
      as [| | | | |s' E|rand_key value_base value sz value' s' Hlen Eg' Ep
          |rand_key s' Ed];
      try (apply (IH key base Eg Hne)).
    + unfold IncVotedReopen in E.
      destruct (num_threads_ s =? 0); [discriminate|].
      apply Returned_inj in E. subst s'. apply (IH key base Eg Hne).
    + destruct (Put_Get_cases s s' rand_key value_base key base Ep Eg)
        as [[-> ->]|Eg0]; [|apply (IH key base Eg0 Hne)].
      destruct (GenerateValue_Returned_bounds _ _ _ _ _ _ _ Eg') as [H1 H2].
      rewrite Hlen in H2. lia.
    + destruct (Put_Get_cases s s' rand_key SENTINEL key base Ed Eg)
        as [[-> ->]|Eg0]; [congruence|apply (IH key base Eg0 Hne)].
Qed.

(** C1.  For a key of the shadow array of a run, with [base] its shadow
    entry and [(s, from_db)] the answer of the database for the encoded
    key, whatever [value_size_mult] is: when [base] is SENTINEL and
    [strict] is off the check returns with no event at all; otherwise the
    database is asked once, the check returns when either the status is
    OK, [base] is not SENTINEL and the value read has the length and the
    bytes of the canonical value of [base], or the status is not OK and
    [base] is SENTINEL; in every other case [VerificationAbort] prints the
    key with a message on standard error and the process exits with
    status 1. *)
Theorem VerifyValue_correct F host db_Get (value : bytes) key votes shared
    (value_from_db : bytes) strict :
  harness_reachable F host votes shared ->
  FLAGS_test_batches_snapshots F = false ->
  0 <= key < FLAGS_max_key F ->
  Z.of_nat (length value) = value_buffer_size ->
  exists base,
    Get shared key = Returned base /\
    let s := fst (db_Get (Key key) value_from_db) in
    let from_db := snd (db_Get (Key key) value_from_db) in
    let expected := canonical_value host base (value_size F base) in
    let consistent :=
      if ok s then base <> SENTINEL /\ from_db = expected
      else base = SENTINEL in
    let result :=
      VerifyValue F host db_Get value key shared value_from_db strict in
    (base = SENTINEL -> strict = false ->
     result = ([], Returned value_from_db)) /\
    (~ (base = SENTINEL /\ strict = false) -> consistent ->
     result = ([EvDbGet (Key key)], Returned from_db)) /\
    (~ (base = SENTINEL /\ strict = false) -> ~ consistent ->
     exists msg,
       result = ([EvDbGet (Key key);
                  EvFprintf Stderr "Verification failed for key %ld: %s\n"
                    [ArgInt key; ArgStr (lit msg)]],
                 Exited 1)).
Proof.
  intros Hh Hb Hk Hbuf.
  pose proof (harness_reachable_reachable F host votes shared Hh) as Hr.
  destruct (Get_in_range F votes shared key Hr Hb Hk) as [base Eg].
  exists base. split; [exact Eg|]. cbv zeta.
  assert (Hgen : base <> SENTINEL ->
            GenerateValue F host base value value_buffer_size
            = Returned (value_size F base,
                canonical_value host base (value_size F base)
                ++ 0 :: drop (S (Z.to_nat (value_size F base))) value) /\
            length (canonical_value host base (value_size F base))
            = Z.to_nat (value_size F base) /\
            4 <= value_size F base).
  { intros Hne.
    pose proof (harness_entries_generated F host votes shared Hh key base
                  Eg Hne) as Hsz.
    split; [apply GenerateValue_returns; lia|].
    pose proof (canonical_value_length host base (value_size F base)). lia. }
  unfold VerifyValue. rewrite Eg. run_prog.
  destruct (db_Get (Key key) value_from_db) as [s from_db].
  cbn [fst snd].
  split; [|split].
  - intros -> ->. run_prog. reflexivity.
  - intros Hns Hcons.
    replace ((base =? SENTINEL) && negb strict) with false.
    2:{ symmetry. apply andb_false_iff.
        destruct (Z.eqb_spec base SENTINEL) as [->|]; [right|left; reflexivity].
        destruct strict; [reflexivity|]. exfalso. apply Hns. split; reflexivity. }
    destruct (ok s).
    + destruct Hcons as [Hne ->].
      destruct (Hgen Hne) as (Egen & Hc & Hsz).
      apply Z.eqb_neq in Hne. rewrite Hne, Egen.
      run_prog.
      replace (Z.of_nat (length (canonical_value host base (value_size F base)))
               =? value_size F base) with true
        by (symmetry; apply Z.eqb_eq; lia).
      run_prog.
      replace (memcmp _ _ _ =? 0) with true; [reflexivity|].
      symmetry. apply Z.eqb_eq. apply memcmp_zero.
      rewrite take_app_length' by (symmetry; exact Hc).
      apply firstn_all2. lia.
    + subst base. run_prog. reflexivity.
  - intros Hns Hcons.
    replace ((base =? SENTINEL) && negb strict) with false.
    2:{ symmetry. apply andb_false_iff.
        destruct (Z.eqb_spec base SENTINEL) as [->|]; [right|left; reflexivity].
        destruct strict; [reflexivity|]. exfalso. apply Hns. split; reflexivity. }
    destruct (ok s).
    + destruct (Z.eqb_spec base SENTINEL) as [Heq|Hne].
      { eexists. run_prog. reflexivity. }
      destruct (Hgen Hne) as (Egen & Hc & Hsz).
      rewrite Egen. run_prog.
      destruct (Z.eqb_spec (Z.of_nat (length from_db)) (value_size F base))
        as [Hlen|Hlen].
      2:{ eexists. run_prog. reflexivity. }
      run_prog.
      destruct (Z.eqb_spec (memcmp from_db
                   (canonical_value host base (value_size F base)
                    ++ 0 :: drop (S (Z.to_nat (value_size F base))) value)
                   (value_size F base)) 0) as [Hm|Hm].
      2:{ eexists. run_prog. reflexivity. }
      exfalso. apply Hcons. split; [exact Hne|].
      apply memcmp_zero in Hm.
      rewrite take_app_length' in Hm by (symmetry; exact Hc).
      rewrite <- Hm. symmetry. apply firstn_all2. lia.
    + destruct (Z.eqb_spec base SENTINEL) as [Heq|Hne]; [contradiction|].
      eexists. run_prog. reflexivity.
Qed.

Lemma VerifyValue_correct_witness :
  let F := set_max_key default_flags 4 in
  let db_Get := fun (_ _ : bytes) => (OK, [5; 0; 0; 0]) in
  let shared :=
    set_values (new_SharedState F)
      (Some [SENTINEL; 5; SENTINEL; SENTINEL]) in
  exists base,
    Get shared 1 = Returned base /\
    let s := fst (db_Get (Key 1) []) in
    let from_db := snd (db_Get (Key 1) []) in
    let expected := canonical_value LittleEndian base (value_size F base) in
    let consistent :=
      if ok s then base <> SENTINEL /\ from_db = expected
      else base = SENTINEL in
    let result :=
      VerifyValue F LittleEndian db_Get (replicate 100 0) 1 shared [] true in
    (base = SENTINEL -> true = false ->
     result = ([], Returned [])) /\
    (~ (base = SENTINEL /\ true = false) -> consistent ->
     result = ([EvDbGet (Key 1)], Returned from_db)) /\
    (~ (base = SENTINEL /\ true = false) -> ~ consistent ->
     exists msg,
       result = ([EvDbGet (Key 1);
                  EvFprintf Stderr "Verification failed for key %ld: %s\n"
                    [ArgInt 1; ArgStr (lit msg)]],
                 Exited 1)).
Proof.
  cbv zeta.
  apply (VerifyValue_correct (set_max_key default_flags 4) LittleEndian
           (fun _ _ => (OK, [5; 0; 0; 0])) (replicate 100 0) 1 0%nat
           (set_values (new_SharedState (set_max_key default_flags 4))
              (Some [SENTINEL; 5; SENTINEL; SENTINEL])) [] true).
  - apply (harness_next (set_max_key default_flags 4) LittleEndian 0
             (new_SharedState (set_max_key default_flags 4)) false).
    + apply harness_new.
    + eapply (hstep_write _ _ _ 1 5 (replicate 100 0)).
      * reflexivity.
      * vm_compute. reflexivity.
      * reflexivity.
  - reflexivity.
  - simpl. lia.
  - reflexivity.
Defined.

(** ** Reopen vote counter *)

Lemma shared_step_vote s b s' :
  shared_step s b s' ->
  num_threads_ s' = num_threads_ s /\
  vote_reopen_ s' =
    if b then Z.rem (vote_reopen_ s + 1) (num_threads_ s) else vote_reopen_ s.
Proof.
  intros Hstep.
  destruct Hstep as [| | | | |s' E|key vb s' E|key s' E];
    try (split; reflexivity).
  - unfold IncVotedReopen in E.
    destruct (num_threads_ s =? 0); [discriminate|]. injection E as <-.
    split; reflexivity.
  - unfold Put in E. destruct (values_ s); [|discriminate].
    destruct (store _ _ _); cbn in E; try discriminate.
    cbv [mret outcome_mret] in E. injection E as <-.
    split; reflexivity.
  - unfold Delete, Put in E. destruct (values_ s); [|discriminate].
    destruct (store _ _ _); cbn in E; try discriminate.
    cbv [mret outcome_mret] in E. injection E as <-.
    split; reflexivity.
Qed.

Lemma succ_mod (n T : Z) :
  0 <= n -> 0 < T -> Z.rem (n mod T + 1) T = (n + 1) mod T.
Proof.
  intros Hn HT.
  pose proof (Z.mod_pos_bound n T HT).
  rewrite Z.rem_mod_nonneg by lia.
  rewrite Z.add_mod_idemp_l by lia. reflexivity.
Qed.

Lemma reachable_vote_reopen F n s :
  1 <= FLAGS_threads F -> reachable F n s ->
  num_threads_ s = FLAGS_threads F /\
  vote_reopen_ s = Z.of_nat n mod FLAGS_threads F.
Proof.
  intros HT. induction 1 as [|n s b s' Hr [IHn IHv] Hstep].
  - split; [reflexivity|]. cbn. rewrite Z.mod_0_l by lia. reflexivity.
  - destruct (shared_step_vote s b s' Hstep) as [Hn Hv].
    split; [congruence|]. rewrite Hv. destruct b; [|exact IHv].
    rewrite IHv, IHn, succ_mod by lia. f_equal. lia.
Qed.

(** C10.  The vote counter starts at 0; [IncVotedReopen] sets it to
    [(vote_reopen + 1) mod num_threads]; in every state a run reaches it
    lies in [0, num_threads); and after an increment [AllVotedReopen] holds
    exactly when the number of increments since the constructor is a
    positive multiple of [num_threads]. *)
Theorem vote_reopen_invariant F n s :
  1 <= FLAGS_threads F -> reachable F n s ->
  vote_reopen_ (new_SharedState F) = 0 /\
  0 <= vote_reopen_ s < num_threads_ s /\
  IncVotedReopen s
  = Returned (set_vote_reopen s ((vote_reopen_ s + 1) mod num_threads_ s)) /\
  forall s', IncVotedReopen s = Returned s' ->
    reachable F (S n) s' /\
    (AllVotedReopen s' = true <->
     exists k, 0 < k /\ Z.of_nat (S n) = k * num_threads_ s).
Proof.
  intros HT Hr.
  destruct (reachable_vote_reopen F n s HT Hr) as [Hn Hv].
  split; [reflexivity|].
  assert (Hb : 0 <= vote_reopen_ s < num_threads_ s).
  { rewrite Hv, Hn. apply Z.mod_pos_bound. lia. }
  split; [exact Hb|].
  assert (Hinc : IncVotedReopen s = Returned
            (set_vote_reopen s ((vote_reopen_ s + 1) mod num_threads_ s))).
  { unfold IncVotedReopen.
    destruct (Z.eqb_spec (num_threads_ s) 0) as [H0|_]; [lia|].
    rewrite Z.rem_mod_nonneg by lia. reflexivity. }
  split; [exact Hinc|].
  intros s' E.
  assert (Hr' : reachable F (S n) s').
  { apply (reachable_step F n s true s' Hr). constructor. exact E. }
  split; [exact Hr'|].
  destruct (reachable_vote_reopen F (S n) s' HT Hr') as [_ Hv'].
  unfold AllVotedReopen. rewrite Hv', Hn, Z.eqb_eq.
  split.
  - intros Hm. apply Z.mod_divide in Hm; [|lia].
    destruct Hm as [k Hk]. exists k. split; [nia|exact Hk].
  - intros (k & _ & Hk). rewrite Hk. apply Z.mod_mul. lia.
Qed.

Lemma vote_reopen_invariant_witness :
  let F := set_max_key default_flags 4 in
  let s := new_SharedState F in
  vote_reopen_ (new_SharedState F) = 0 /\
  0 <= vote_reopen_ s < num_threads_ s /\
  IncVotedReopen s
  = Returned (set_vote_reopen s ((vote_reopen_ s + 1) mod num_threads_ s)) /\
  forall s', IncVotedReopen s = Returned s' ->
    reachable F 1 s' /\
    (AllVotedReopen s' = true <->
     exists k, 0 < k /\ Z.of_nat 1 = k * num_threads_ s).
Proof.
  cbv zeta.
  apply (vote_reopen_invariant (set_max_key default_flags 4) 0
           (new_SharedState (set_max_key default_flags 4))).
  - simpl. lia.
  - apply reachable_new.
Defined.

(** ** The operation loop *)

Lemma int32_uint32_sub x y :
  - 2 ^ 31 <= x - y < 2 ^ 31 -> int32 (uint32 (uint32 x - y)) = x - y.
Proof.
  unfold int32, uint32. intros H.
  change (2 ^ 31) with 2147483648 in *. change (2 ^ 32) with 4294967296 in *.
  Z.div_mod_to_equations. lia.
Qed.

Ltac case_comparisons :=
  repeat match goal with
    | |- context [?a <=? ?b] => destruct (Z.leb_spec a b)
    | |- context [?a <? ?b] => destruct (Z.ltb_spec a b)
    end.

Lemma selected_ops_classify F p :
  0 <= FLAGS_readpercent F -> 0 <= FLAGS_prefixpercent F ->
  0 <= FLAGS_writepercent F -> 0 <= FLAGS_delpercent F ->
  FLAGS_readpercent F + FLAGS_prefixpercent F
  + FLAGS_writepercent F + FLAGS_delpercent F = 100 ->
  0 <= p < 100 ->
  exists op, classify F p = Some op /\ selected_ops F p = [op].
Proof.
  intros Hr Hp Hw Hd Hsum Hrange. unfold selected_ops, classify.
  set (r := FLAGS_readpercent F) in *. set (q := FLAGS_prefixpercent F) in *.
  set (w := FLAGS_writepercent F) in *. set (d := FLAGS_delpercent F) in *.
  rewrite (int32_uint32_sub p r) by (change (2 ^ 31) with 2147483648; lia).
  rewrite (int32_uint32_sub (p - r) q) by (change (2 ^ 31) with 2147483648; lia).
  rewrite (int32_uint32_sub (p - r - q) w) by (change (2 ^ 31) with 2147483648; lia).
  rewrite (int32_small r), (int32_small q), (int32_small w), (int32_small d)
    by (change (2 ^ 31) with 2147483648; lia).
  case_comparisons; cbn [andb app]; try lia; eexists; split; reflexivity.
Qed.

Lemma ops_of_app i (t1 t2 : list loop_event) :
  ops_of i (t1 ++ t2) = ops_of i t1 ++ ops_of i t2.
Proof. apply omap_app. Qed.

Lemma ops_of_round i j (l : list op_kind) :
  ops_of i (map (LoopOp j) l) = if j =? i then l else [].
Proof.
  unfold ops_of. induction l as [|k l IH]; cbn.
  - destruct (j =? i); reflexivity.
  - rewrite IH. destruct (j =? i); reflexivity.
Qed.

Lemma vote_indices_app (t1 t2 : list loop_event) :
  vote_indices (t1 ++ t2) = vote_indices t1 ++ vote_indices t2.
Proof. apply omap_app. Qed.

Lemma vote_indices_round j (l : list op_kind) :
  vote_indices (map (LoopOp j) l) = [].
Proof. unfold vote_indices. induction l as [|k l IH]; cbn; [reflexivity|exact IH]. Qed.


Lemma OperateDb_loop_inv F draw n j t :
  OperateDb_loop F draw n j = Returned t ->
  exists vote rest,
    match n with
    | O => t = []
    | S n' =>
        votes_at F j = Returned vote /\
        OperateDb_loop F draw n' (j + 1) = Returned rest /\
        t = (if vote then [LoopVote j] else [])
            ++ map (LoopOp j) (selected_ops F (draw j)) ++ rest
    end.
Proof.
  destruct n as [|n']; cbn [OperateDb_loop].
  - intros [= <-]. exists false, []. reflexivity.
  - destruct (votes_at F j) as [vote| | |];
      cbn [mbind outcome_mbind outcome_bind]; try discriminate.
    destruct (OperateDb_loop F draw n' (j + 1)) as [rest| | |];
      cbn [mbind outcome_mbind outcome_bind]; try discriminate.
    cbv [mret outcome_mret]. intros E. apply Returned_inj in E. subst t.
    exists vote, rest. repeat split.
Qed.

Lemma OperateDb_loop_ops F draw n :
  forall j t i,
    OperateDb_loop F draw n j = Returned t ->
    ops_of i t
    = if (j <=? i) && (i <? j + Z.of_nat n)
      then selected_ops F (draw i) else [].
Proof.
  induction n as [|n IH]; intros j t i E;
    destruct (OperateDb_loop_inv _ _ _ _ _ E) as (vote & rest & H).
  - subst t. replace (i <? j + Z.of_nat 0) with (i <? j) by (f_equal; lia).
    destruct (Z.leb_spec j i), (Z.ltb_spec i j); try reflexivity; lia.
  - destruct H as (_ & Er & ->).
    rewrite !ops_of_app, ops_of_round, (IH _ _ i Er).
    replace (ops_of i (if vote then [LoopVote j] else [])) with (@nil op_kind)
      by (destruct vote; reflexivity).
    cbn [app].
    destruct (Z.eqb_spec j i) as [->|Hne].
    + replace ((i <=? i) && (i <? i + Z.of_nat (S n))) with true
        by (symmetry; apply andb_true_iff; split;
            [apply Z.leb_le|apply Z.ltb_lt]; lia).
      replace (i + 1 <=? i) with false by (symmetry; apply Z.leb_gt; lia).
      cbn [andb]. apply app_nil_r.
    + cbn [app].
      replace (j + 1 <=? i) with (j <=? i)
        by (destruct (Z.leb_spec j i), (Z.leb_spec (j + 1) i); lia || reflexivity).
      replace (j + 1 + Z.of_nat n) with (j + Z.of_nat (S n)) by lia.
      reflexivity.
Qed.

(** C5.  When the four percentages add up to 100, a draw [p] in [0, 100)
    takes exactly one of the four branches of the loop body, the one the
    cumulative ranges select in the order read, prefix scan, write, delete;
    and in a run of the loop the operation with index [i] takes the branches
    of its draw and no others. *)
Theorem OperateDb_one_operation F p :
  0 <= FLAGS_readpercent F -> 0 <= FLAGS_prefixpercent F ->
  0 <= FLAGS_writepercent F -> 0 <= FLAGS_delpercent F ->
  FLAGS_readpercent F + FLAGS_prefixpercent F
  + FLAGS_writepercent F + FLAGS_delpercent F = 100 ->
  0 <= p < 100 ->
  (exists op, classify F p = Some op /\ selected_ops F p = [op]) /\
  (forall draw t i,
     OperateDb F draw = Returned t ->
     0 <= i < FLAGS_ops_per_thread F -> draw i = p ->
     exists op, classify F p = Some op /\ ops_of i t = [op]).
Proof.
  intros Hr Hp Hw Hd Hsum Hrange.
  pose proof (selected_ops_classify F p Hr Hp Hw Hd Hsum Hrange) as (op & Hc & Hs).
  split; [exists op; split; assumption|].
  intros draw t i E Hi Hdraw. exists op. split; [exact Hc|].
  unfold OperateDb in E. rewrite (OperateDb_loop_ops _ _ _ _ _ i E).
  replace ((0 <=? i) && (i <? 0 + Z.of_nat (Z.to_nat (FLAGS_ops_per_thread F))))
    with true
    by (symmetry; apply andb_true_iff; split;
        [apply Z.leb_le|apply Z.ltb_lt]; lia).
  rewrite Hdraw. exact Hs.
Qed.

Lemma OperateDb_one_operation_witness :
  (exists op, classify default_flags 40 = Some op /\
              selected_ops default_flags 40 = [op]) /\
  (forall draw t i,
     OperateDb default_flags draw = Returned t ->
     0 <= i < FLAGS_ops_per_thread default_flags -> draw i = 40 ->
     exists op, classify default_flags 40 = Some op /\ ops_of i t = [op]).
Proof.
  apply (OperateDb_one_operation default_flags 40); simpl; lia.
Defined.

(** ** Reopen votes of the loop *)

Lemma votes_at_valid F i :
  valid_reopen F -> 0 <= i ->
  let chunk := FLAGS_ops_per_thread F / (FLAGS_reopen F + 1) in
  1 <= chunk /\
  votes_at F i = Returned (negb (i =? 0) && (i mod chunk =? 0)).
Proof.
  intros [Hr Ho] Hi chunk. unfold is_uint32 in Ho.
  assert (Hc : 1 <= chunk).
  { unfold chunk. apply Z.div_le_lower_bound; lia. }
  split; [exact Hc|]. unfold votes_at.
  destruct (Z.eqb_spec i 0) as [->|Hne]; [reflexivity|].
  rewrite uint32_small by lia.
  destruct (Z.eqb_spec (FLAGS_reopen F + 1) 0) as [H0|_]; [lia|].
  rewrite Z.quot_div_nonneg by lia. fold chunk.
  destruct (Z.eqb_spec chunk 0) as [H0|_]; [lia|].
  rewrite Z.rem_mod_nonneg by lia. reflexivity.
Qed.

Lemma div_step c i :
  0 < c -> 1 <= i ->
  i / c = (i - 1) / c + (if i mod c =? 0 then 1 else 0).
Proof.
  intros Hc Hi.
  destruct (Z.eqb_spec (i mod c) 0) as [H0|Hn].
  - symmetry. apply (Z.div_unique_pos _ _ _ 0); [lia|].
    pose proof (Z.div_mod (i - 1) c ltac:(lia)) as D1.
    assert (E : (i - 1) mod c = c - 1).
    { apply Z.mod_divide in H0; [|lia]. destruct H0 as [k Hk]. subst i.
      replace (k * c - 1) with (c - 1 + (k - 1) * c) by ring.
      rewrite Z.mod_add by lia. apply Z.mod_small. lia. }
    lia.
  - rewrite Z.add_0_r.
    pose proof (Z.mod_pos_bound i c Hc) as B.
    apply (Z.div_unique_pos _ _ _ (i mod c - 1)); [lia|].
    pose proof (Z.div_mod i c ltac:(lia)) as D. lia.
Qed.

Lemma OperateDb_loop_votes F draw n :
  valid_reopen F ->
  forall j, 1 <= j ->
    let chunk := FLAGS_ops_per_thread F / (FLAGS_reopen F + 1) in
    exists t,
      OperateDb_loop F draw n j = Returned t /\
      vote_indices t
      = List.filter (fun i => i mod chunk =? 0) (index_range n j) /\
      Z.of_nat (length (vote_indices t))
      = (j + Z.of_nat n - 1) / chunk - (j - 1) / chunk.
Proof.
  intros Hv. induction n as [|n IH]; intros j Hj chunk.
  - exists []. split; [reflexivity|]. split; [reflexivity|].
    cbn [vote_indices omap length]. replace (j + Z.of_nat 0 - 1) with (j - 1) by lia.
    cbn. lia.
  - destruct (votes_at_valid F j Hv ltac:(lia)) as [Hc Ev]. fold chunk in Hc, Ev.
    destruct (IH (j + 1) ltac:(lia)) as (rest & Er & Hl & Hn). fold chunk in Hl, Hn.
    cbn [OperateDb_loop]. rewrite Ev, Er. cbn [mbind outcome_mbind outcome_bind].
    replace (negb (j =? 0)) with true
      by (symmetry; apply negb_true_iff, Z.eqb_neq; lia).
    cbn [andb].
    eexists. split; [reflexivity|].
    rewrite !vote_indices_app, vote_indices_round. cbn [app].
    cbn [index_range List.filter].
    rewrite <- Hl.
    pose proof (div_step chunk j ltac:(lia) Hj) as Hd.
    replace (j + Z.of_nat (S n) - 1) with (j + 1 + Z.of_nat n - 1) by lia.
    replace (j + 1 - 1) with j in Hn by lia.
    destruct (j mod chunk =? 0).
    + split; [reflexivity|].
      change (vote_indices [LoopVote j]) with [j]. cbn [app length].
      rewrite Nat2Z.inj_succ. lia.
    + split; [reflexivity|].
      change (vote_indices []) with (@nil Z). cbn [app]. lia.
Qed.

(** Every thread votes at the multiples of [ops_per_thread / (reopen + 1)]
    in [1, ops_per_thread), which makes [votes_per_thread] votes. *)
Lemma OperateDb_votes F draw :
  valid_reopen F ->
  let chunk := FLAGS_ops_per_thread F / (FLAGS_reopen F + 1) in
  exists t,
    OperateDb F draw = Returned t /\
    vote_indices t
    = List.filter (fun i => i mod chunk =? 0)
        (index_range (Z.to_nat (FLAGS_ops_per_thread F - 1)) 1) /\
    Z.of_nat (length (vote_indices t)) = votes_per_thread F.
Proof.
  intros Hv chunk. pose proof Hv as [Hr Ho]. unfold OperateDb.
  destruct (Z.to_nat (FLAGS_ops_per_thread F)) as [|n] eqn:En; [lia|].
  destruct (OperateDb_loop_votes F draw n Hv 1 ltac:(lia)) as (rest & Er & Hl & Hn).
  fold chunk in Hl, Hn.
  cbn [OperateDb_loop]. unfold votes_at at 1. cbn [Z.eqb].
  change (0 + 1) with 1. rewrite Er. cbn [mbind outcome_mbind outcome_bind].
  eexists. split; [reflexivity|].
  rewrite !vote_indices_app, vote_indices_round.
  change (vote_indices []) with (@nil Z). cbn [app].
  replace (Z.to_nat (FLAGS_ops_per_thread F - 1)) with n by lia.
  split; [exact Hl|]. rewrite Hn. unfold votes_per_thread. fold chunk.
  replace (1 + Z.of_nat n - 1) with (FLAGS_ops_per_thread F - 1) by lia.
  change (1 - 1) with 0. rewrite Z.div_0_l by (destruct (votes_at_valid F 0 Hv); lia).
  lia.
Qed.


(** ** Reopens of a whole run *)

Lemma vote_and_reopen_count (T : Z) (n : nat) :
  1 <= T ->
  forall s0, num_threads_ s0 = T -> vote_reopen_ s0 = 0 ->
    exists s,
      vote_and_reopen_times n (s0, 0) = Returned (s, Z.of_nat n / T) /\
      num_threads_ s = T /\ vote_reopen_ s = Z.of_nat n mod T.
Proof.
  intros HT s0 HsT Hs0. induction n as [|n (s & E & HnT & Hv)].
  - exists s0. cbn. rewrite Z.div_0_l, Z.mod_0_l by lia. auto.
  - cbn [vote_and_reopen_times]. rewrite E.
    cbn [mbind outcome_mbind outcome_bind vote_and_reopen].
    unfold IncVotedReopen. rewrite HnT.
    destruct (Z.eqb_spec T 0) as [H0|_]; [lia|].
    cbn [mbind outcome_mbind outcome_bind].
    unfold AllVotedReopen. cbn [vote_reopen_ set_vote_reopen].
    rewrite Hv, succ_mod by lia.
    replace (Z.of_nat n + 1) with (Z.of_nat (S n)) by lia.
    pose proof (div_step T (Z.of_nat (S n)) ltac:(lia) ltac:(lia)) as Hd.
    replace (Z.of_nat (S n) - 1) with (Z.of_nat n) in Hd by lia.
    destruct (Z.of_nat (S n) mod T =? 0) eqn:Em;
      eexists; (split; [cbv [mret outcome_mret]; f_equal; f_equal; lia|]);
      cbn [num_threads_ vote_reopen_ set_vote_reopen]; split; auto.
Qed.


Lemma In_index_range n : forall j i,
  In i (index_range n j) <-> j <= i < j + Z.of_nat n.
Proof.
  induction n as [|n IH]; intros j i; cbn [index_range In].
  - lia.
  - rewrite IH. lia.
Qed.

Lemma In_vote_indices F draw t i :
  valid_reopen F -> OperateDb F draw = Returned t ->
  In i (vote_indices t) <->
  1 <= i < FLAGS_ops_per_thread F /\
  i mod (FLAGS_ops_per_thread F / (FLAGS_reopen F + 1)) = 0.
Proof.
  intros Hv E. destruct (OperateDb_votes F draw Hv) as (t' & E' & Hl & _).
  rewrite E in E'. apply Returned_inj in E'. subst t'.
  rewrite Hl, filter_In, In_index_range, Z.eqb_eq.
  destruct Hv as [Hr Ho]. split; intros [H1 H2]; (split; [lia|exact H2]).
Qed.

(** C3, at the default flags.  With [ops_per_thread = 600000] and
    [reopen = 10] the chunk is [600000 / 11 = 54545]; every thread votes
    at the multiples of 54545 in [1, 600000), of which there are eleven,
    the last being 599995; and a run of the 32 threads, one vote each per
    round, reopens the database eleven times, not ten. *)
Theorem OperateDb_default_flags_reopens (draw : Z -> Z) :
  valid_reopen default_flags /\
  FLAGS_reopen default_flags = 10 /\
  exists t,
    OperateDb default_flags draw = Returned t /\
    (forall i, In i (vote_indices t) <-> 1 <= i < 600000 /\ i mod 54545 = 0) /\
    In 599995 (vote_indices t) /\
    Z.of_nat (length (vote_indices t)) = 11 /\
    exists shared,
      vote_and_reopen_times (32 * 11) (new_SharedState default_flags, 0)
      = Returned (shared, 11).
Proof.
  assert (Hv : valid_reopen default_flags).
  { unfold valid_reopen, is_uint32. cbn. lia. }
  split; [exact Hv|]. split; [reflexivity|].
  destruct (OperateDb_votes default_flags draw Hv) as (t & E & _ & Hn).
  assert (Hin : forall i, In i (vote_indices t)
                          <-> 1 <= i < 600000 /\ i mod 54545 = 0).
  { intros i. apply (In_vote_indices default_flags draw t i Hv E). }
  exists t. split; [exact E|]. split; [exact Hin|]. split; [|split].
  - apply Hin. split; [lia|reflexivity].
  - rewrite Hn. reflexivity.
  - destruct (vote_and_reopen_count 32 (32 * 11) ltac:(lia)
                (new_SharedState default_flags) eq_refl eq_refl)
      as (shared & Ec & _).
    exists shared. exact Ec.
Qed.

(** ** Start-up validation *)

Lemma default_flags_in_range : flags_in_range default_flags.
Proof. unfold flags_in_range, is_uint32. cbn. lia. Qed.

Lemma is_01_decide n : is_01 n = bool_decide (n = 0 \/ n = 1).
Proof.
  unfold is_01.
  destruct (Z.eqb_spec n 0), (Z.eqb_spec n 1); cbn;
    symmetry; (apply bool_decide_eq_true; lia) || (apply bool_decide_eq_false; lia).
Qed.

Lemma is_percent_decide n : is_percent n = bool_decide (0 <= n <= 100).
Proof.
  unfold is_percent.
  destruct (Z.leb_spec 0 n), (Z.leb_spec n 100); cbn;
    symmetry; (apply bool_decide_eq_true; lia) || (apply bool_decide_eq_false; lia).
Qed.

Lemma leb_decide n : (0 <=? n) = bool_decide (0 <= n).
Proof.
  destruct (Z.leb_spec 0 n);
    symmetry; (apply bool_decide_eq_true; lia) || (apply bool_decide_eq_false; lia).
Qed.

(** One round of the argument loop: an argument the program takes leaves
    flags in range and prints at most the line of an unknown compression
    type; any other argument ends the program. *)
Lemma parse_arg_cases F a :
  (accepted a = true /\
   exists G, parse_arg F a = (cannot_parse_line a, Returned G) /\
             (arg_typed a -> flags_in_range F -> flags_in_range G)) \/
  (accepted a = false /\ parse_arg F a = invalid_flag).
Proof.
  destruct a; cbn [parse_arg accepted cannot_parse_line arg_typed];
    rewrite <- ?is_01_decide, <- ?is_percent_decide, <- ?leb_decide;
    unfold with_flag;
    try match goal with
        | |- context [is_01 ?n] => destruct (is_01 n) eqn:Hg
        | |- context [is_percent ?n] => destruct (is_percent n) eqn:Hg
        | |- context [0 <=? ?n] => destruct (0 <=? n) eqn:Hg
        end;
    try (right; split; reflexivity);
    try (left; split; [reflexivity|]; eexists; split; [reflexivity|];
         unfold flags_in_range, is_uint32, is_int, is_long, is_percent in *;
         intros Ha HF;
         try (apply andb_true_iff in Hg; destruct Hg as [Hg1 Hg2];
              apply Z.leb_le in Hg1, Hg2);
         try apply Z.leb_le in Hg;
         cbn -[Z.pow];
         change (2 ^ 31) with 2147483648 in *;
         change (2 ^ 32) with 4294967296 in *; lia).
  - left. split; [reflexivity|].
    exists F. split; [|intros _ HF; exact HF].
    destruct (known_compression_type ctype); reflexivity.
Qed.

(** The argument loop: it takes every argument, or stops at the first it
    does not take. *)
Lemma parse_args_cases argv : forall F,
  (forallb accepted argv = true /\
   exists G, parse_args F argv = (cannot_parse_lines argv, Returned G) /\
             (Forall arg_typed argv -> flags_in_range F -> flags_in_range G)) \/
  (forallb accepted argv = false /\
   exists pre a post,
     argv = pre ++ a :: post /\ forallb accepted pre = true /\
     accepted a = false /\
     parse_args F argv
     = (cannot_parse_lines pre ++ [EvFprintf Stderr "Invalid flag '%s'\n" []],
        Exited 1)).
Proof.
  induction argv as [|a argv IH]; intros F; cbn [forallb parse_args].
  - left. split; [reflexivity|]. exists F. split; [reflexivity|auto].
  - destruct (parse_arg_cases F a) as [(Ha & G & E & HG)|(Ha & E)];
      rewrite Ha, E; cbn [andb].
    + cbn [mbind prog_mbind prog_bind].
      destruct (IH G) as [(Hf & G' & E' & HG')|(Hf & pre & b & post & -> & Hp & Hb & E')];
        rewrite E'.
      * left. split; [exact Hf|]. exists G'. split; [reflexivity|].
        intros Ht HF. inversion Ht; subst. auto.
      * right. split; [exact Hf|]. exists (a :: pre), b, post.
        split; [reflexivity|]. split; [cbn [forallb]; rewrite Ha; exact Hp|].
        split; [exact Hb|].
        unfold cannot_parse_lines. cbn [flat_map].
        rewrite <- app_assoc. reflexivity.
    + right. split; [reflexivity|]. exists [], a, argv.
      split; [reflexivity|]. split; [reflexivity|]. split; [exact Ha|].
      reflexivity.
Qed.

Lemma parse_args_Returned argv F t G :
  parse_args F argv = (t, Returned G) ->
  forallb accepted argv = true /\ t = cannot_parse_lines argv /\
  (Forall arg_typed argv -> flags_in_range F -> flags_in_range G).
Proof.
  intros E.
  destruct (parse_args_cases argv F)
    as [(Hf & G' & E' & HG')|(_ & pre & b & post & _ & _ & _ & E')];
    rewrite E' in E; [|discriminate].
  injection E as <- <-. auto.
Qed.

Lemma startup_validation_cases F :
  flags_in_range F ->
  (constraint_violated F /\
   exists format args,
     startup_validation F = ([EvFprintf Stderr format args], Exited 1)) \/
  (~ constraint_violated F /\ startup_validation F = ([], Returned tt)).
Proof.
  unfold flags_in_range, is_uint32, constraint_violated.
  intros (Hr & Hp & Hw & Hd & Hre & Hops).
  unfold startup_validation.
  change (2 ^ 31) with 2147483648 in *. change (2 ^ 32) with 4294967296 in *.
  rewrite !uint32_small by (change (2 ^ 32) with 4294967296; lia).
  destruct (Z.eqb_spec (FLAGS_readpercent F + FLAGS_prefixpercent F
                        + FLAGS_writepercent F + FLAGS_delpercent F) 100)
    as [Hsum|Hsum]; cbn [negb].
  2:{ left. split; [left; exact Hsum|]. do 2 eexists. reflexivity. }
  destruct (FLAGS_disable_wal F) eqn:Hwal, (Z.ltb_spec 0 (FLAGS_reopen F))
    as [Hpos|Hpos]; cbn [andb];
    try (left; split; [right; left; split; [reflexivity|exact Hpos]|];
         do 2 eexists; reflexivity);
    (destruct (Z.leb_spec (FLAGS_ops_per_thread F) (FLAGS_reopen F)) as [Hle|Hlt];
     [left; split; [right; right; exact Hle|]; do 2 eexists; reflexivity
     |right; split; [|reflexivity];
      intros [H|[[H1 H2]|H]]; try lia; discriminate]).
Qed.

Lemma no_db_event_cannot_parse argv :
  forallb (fun e => negb (is_db_event e)) (cannot_parse_lines argv) = true.
Proof.
  unfold cannot_parse_lines.
  induction argv as [|a argv IH]; cbn [flat_map]; [reflexivity|].
  rewrite forallb_app, IH, andb_true_r.
  destruct a; try reflexivity.
  cbn [cannot_parse_line]. destruct (known_compression_type ctype); reflexivity.
Qed.

(** C6 (amended).  [main] ends with exit code 1 before any work on the
    database exactly when the argument loop meets an argument the program
    does not take, or a validity constraint is violated by the flags the
    loop leaves: the percentages do not add up to 100, or the WAL is
    disabled while [reopen > 0], or [reopen >= ops_per_thread].  In the
    first case the last line printed is [Invalid flag], in the second the
    message of the constraint, on standard error.  When every argument is
    taken and the three constraints hold the validation passes silently and
    [main] goes on to run the stress test; all that is printed before is a
    line on standard output for every compression type the loop does not
    know. *)
Theorem main_startup_validation Run argv :
  Forall arg_typed argv ->
  (snd (main Run argv) = Exited 1 /\ no_db_event (fst (main Run argv))
   <-> forallb accepted argv = false \/
       exists t F, parse_args default_flags argv = (t, Returned F) /\
                   constraint_violated F) /\
  (forallb accepted argv = false ->
   exists pre a post,
     argv = pre ++ a :: post /\ forallb accepted pre = true /\
     accepted a = false /\
     main Run argv
     = (cannot_parse_lines pre ++ [EvFprintf Stderr "Invalid flag '%s'\n" []],
        Exited 1)) /\
  (forallb accepted argv = true ->
   exists F,
     parse_args default_flags argv = (cannot_parse_lines argv, Returned F) /\
     (constraint_violated F ->
      exists format args,
        startup_validation F = ([EvFprintf Stderr format args], Exited 1) /\
        main Run argv
        = (cannot_parse_lines argv ++ [EvFprintf Stderr format args],
           Exited 1)) /\
     (~ constraint_violated F ->
      startup_validation F = ([], Returned tt) /\
      fst (main Run argv) = cannot_parse_lines argv ++ [EvStressRun])).
Proof.
  intros Ht.
  destruct (parse_args_cases argv default_flags)
    as [(Hf & F & E & HF)|(Hf & pre & a & post & Ea & Hp & Ha & E)].
  - specialize (HF Ht default_flags_in_range).
    assert (Hmain :
      (constraint_violated F /\
       exists format args,
         startup_validation F = ([EvFprintf Stderr format args], Exited 1) /\
         main Run argv
         = (cannot_parse_lines argv ++ [EvFprintf Stderr format args],
            Exited 1)) \/
      (~ constraint_violated F /\
       startup_validation F = ([], Returned tt) /\
       fst (main Run argv) = cannot_parse_lines argv ++ [EvStressRun] /\
       ~ (snd (main Run argv) = Exited 1 /\ no_db_event (fst (main Run argv))))).
    { unfold main. rewrite E. cbn [mbind prog_mbind prog_bind].
      destruct (startup_validation_cases F HF)
        as [(Hv & format & args & Es)|(Hv & Es)]; rewrite Es.
      - left. split; [exact Hv|]. exists format, args. split; reflexivity.
      - right. split; [exact Hv|]. split; [reflexivity|].
        cbn [mbind prog_mbind prog_bind app fst snd emit].
        destruct (Run F) as [[]| | |];
          cbn [mbind prog_mbind prog_bind app fst snd lift mret prog_mret
               prog_ret];
          (split; [rewrite ?app_nil_r; reflexivity|]);
          intros [Hx Hdb]; try discriminate Hx;
          unfold no_db_event in Hdb; rewrite forallb_app in Hdb;
          apply andb_true_iff in Hdb; destruct Hdb as [_ Hdb];
          discriminate Hdb. }
    split; [|split].
    + split.
      * intros Hex. right.
        destruct Hmain as [(Hv & _)|(_ & _ & _ & Hno)]; [|contradiction].
        exists (cannot_parse_lines argv), F. split; assumption.
      * intros [Hrej|(t' & F' & E' & Hv)]; [congruence|].
        rewrite E in E'. injection E' as _ <-.
        destruct Hmain as [(_ & format & args & _ & Em)|(Hn & _)];
          [|contradiction].
        rewrite Em. cbn [fst snd]. split; [reflexivity|].
        unfold no_db_event. rewrite forallb_app, no_db_event_cannot_parse.
        reflexivity.
    + intros Hrej. congruence.
    + intros _. exists F. split; [exact E|]. split.
      * intros Hv. destruct Hmain as [(_ & H)|(Hn & _)]; [exact H|contradiction].
      * intros Hn. destruct Hmain as [(Hv & _)|(_ & H1 & H2 & _)];
          [contradiction|]. split; assumption.
  - assert (Em : main Run argv
                 = (cannot_parse_lines pre
                    ++ [EvFprintf Stderr "Invalid flag '%s'\n" []], Exited 1)).
    { unfold main. rewrite E. reflexivity. }
    split; [|split].
    + split; [intros _; left; exact Hf|].
      intros _. rewrite Em. cbn [fst snd]. split; [reflexivity|].
      unfold no_db_event. rewrite forallb_app, no_db_event_cannot_parse.
      reflexivity.
    + intros _. exists pre, a, post. repeat split; assumption.
    + intros Hacc. congruence.
Qed.

Lemma main_startup_validation_witness :
  let Run := fun _ : Flags => Returned tt in
  let argv := [Arg_readpercent 9; Arg_compression_type "lz4"; Arg_reopen 3] in
  (snd (main Run argv) = Exited 1 /\ no_db_event (fst (main Run argv))
   <-> forallb accepted argv = false \/
       exists t F, parse_args default_flags argv = (t, Returned F) /\
                   constraint_violated F) /\
  (forallb accepted argv = false ->
   exists pre a post,
     argv = pre ++ a :: post /\ forallb accepted pre = true /\
     accepted a = false /\
     main Run argv
     = (cannot_parse_lines pre ++ [EvFprintf Stderr "Invalid flag '%s'\n" []],
        Exited 1)) /\
  (forallb accepted argv = true ->
   exists F,
     parse_args default_flags argv = (cannot_parse_lines argv, Returned F) /\
     (constraint_violated F ->
      exists format args,
        startup_validation F = ([EvFprintf Stderr format args], Exited 1) /\
        main Run argv
        = (cannot_parse_lines argv ++ [EvFprintf Stderr format args],
           Exited 1)) /\
     (~ constraint_violated F ->
      startup_validation F = ([], Returned tt) /\
      fst (main Run argv) = cannot_parse_lines argv ++ [EvStressRun])).
Proof.
  cbv zeta.
  apply (main_startup_validation (fun _ => Returned tt)
           [Arg_readpercent 9; Arg_compression_type "lz4"; Arg_reopen 3]).
  repeat constructor; unfold is_int; simpl; lia.
Defined.

(** C6, as stated, fails in one direction: an argument the program does
    not take ends it with exit code 1 before any work on the database,
    while the flags, still at their defaults, violate none of the three
    constraints. *)
Lemma main_exits_on_invalid_flag :
  let Run := fun _ : Flags => Returned tt in
  let argv := [Arg_unknown] in
  Forall arg_typed argv /\
  main Run argv = ([EvFprintf Stderr "Invalid flag '%s'\n" []], Exited 1) /\
  no_db_event (fst (main Run argv)) /\
  ~ constraint_violated default_flags.
Proof.
  cbv zeta. split; [repeat constructor|]. split; [reflexivity|].
  split; [reflexivity|].
  unfold constraint_violated. cbn.
  intros [H|[[H _]|H]]; try lia; discriminate.
Qed.

(** ** Batch mode *)

Lemma MultiPut_loop_batch F (key value : bytes) :
  MultiPut_loop F key value
  = (map (fun d => lit d ++ key) lane_digits,
     map (fun d => lit d ++ value) lane_digits,
     map (fun d => lit d ++ value) lane_digits,
     map (fun d => (if FLAGS_use_merge_put F then BatchMerge else BatchPut)
                     (lit d ++ key) (lit d ++ value)) lane_digits).
Proof.
  unfold MultiPut_loop. destruct (FLAGS_use_merge_put F); reflexivity.
Qed.

Lemma lane_keys_distinct (key : bytes) :
  List.NoDup (map (fun d => lit d ++ key) lane_digits).
Proof.
  apply (NoDup_map_inv (hd 0)). cbn.
  repeat (constructor; [cbn; lia|]). constructor.
Qed.

(** C8.  The batch [MultiPut] builds has exactly ten entries, one for each
    lane digit from 0 to 9 (in the order 9 down to 0); the entry of digit
    [d] puts, or merges when [use_merge_put] is set, the key [d + K] with
    the value [d + V], so key and value carry the same digit; the ten keys
    are distinct; and the batch goes to the database in one [Write] call,
    the only database call [MultiPut] makes. *)
Theorem MultiPut_lanes F db_Write stats (key value : bytes) sz :
  let entry := fun d : string =>
    (if FLAGS_use_merge_put F then BatchMerge else BatchPut)
      (lit d ++ key) (lit d ++ value) in
  let batch := map entry lane_digits in
  rev lane_digits
  = ["0"; "1"; "2"; "3"; "4"; "5"; "6"; "7"; "8"; "9"]%string /\
  length batch = 10%nat /\
  List.NoDup (map batch_key batch) /\
  List.filter is_db_event (fst (MultiPut F db_Write stats key value sz))
  = [EvDbWrite batch] /\
  exists stats',
    snd (MultiPut F db_Write stats key value sz)
    = Returned (db_Write batch, stats').
Proof.
  cbv zeta. split; [reflexivity|]. split; [reflexivity|]. split.
  - rewrite map_map.
    replace (map _ lane_digits) with (map (fun d => lit d ++ key) lane_digits)
      by (destruct (FLAGS_use_merge_put F); reflexivity).
    apply lane_keys_distinct.
  - unfold MultiPut. rewrite MultiPut_loop_batch.
    destruct (ok (db_Write _)); split; try reflexivity; eexists; reflexivity.
Qed.

(** ** Progress reports *)

(** The chain of tests of [FinishedSingleOp] picks the bump of the
    schedule. *)
Lemma report_bump_scheduled r : report_bump r = scheduled_bump r.
Proof.
  unfold report_bump, scheduled_bump, bump_schedule. cbn [List.find].
  case_comparisons; reflexivity.
Qed.

Lemma report_schedule_step n :
  0 <= n <= 2000000000 ->
  (next_report_after n <=? n + 1) = report_due (n + 1) /\
  (report_due (n + 1) = true -> next_report_after n = n + 1) /\
  (report_due (n + 1) = true ->
   int32 (next_report_after n + report_bump (next_report_after n))
   = next_report_after (n + 1)) /\
  (report_due (n + 1) = false ->
   next_report_after n = next_report_after (n + 1)).
Proof.
  intros Hn. unfold report_due, next_report_after.
  rewrite <- !report_bump_scheduled.
  assert (Hs : exists s s',
             report_bump n = s /\ report_bump (n + 1) = s' /\
             0 < s /\ 0 < s' /\ s' mod s = 0 /\
             (s = s' \/ ((n + 1) mod s = 0 -> (n + 1) mod s' = 0)) /\
             (s = s' \/ (n + 1) mod s' = 0) /\ s' <= 100000).
  { unfold report_bump. case_comparisons; try lia;
      (do 2 eexists; split; [reflexivity|]; split; [reflexivity|];
       split; [lia|]; split; [lia|]; split; [reflexivity|];
       split; [|split; [|lia]]);
      first [left; reflexivity | right; Z.div_mod_to_equations; lia]. }
  destruct Hs as (s & s' & Es & Es' & Hs & Hs' & Hdiv & Hmul & Hnext & Hmax).
  rewrite Es, Es'.
  replace (0 <? n + 1) with true by (symmetry; apply Z.ltb_lt; lia).
  cbn [andb].
  pose proof (Z.div_mod n s ltac:(lia)) as D.
  pose proof (Z.mod_pos_bound n s Hs) as B.
  pose proof (Z.div_mod (n + 1) s' ltac:(lia)) as D'.
  pose proof (Z.mod_pos_bound (n + 1) s' Hs') as B'.
  assert (Hcases : (n + 1) mod s' = 0 /\ n mod s = s - 1 \/
                   (n + 1) mod s' <> 0 /\ n mod s < s - 1 /\ s = s').
  { destruct Hnext as [<-|H0].
    - destruct (Z.eq_dec (n mod s) (s - 1)) as [E|E].
      + left. split; [|exact E].
        replace (n + 1) with (0 + (n / s + 1) * s) by lia.
        rewrite Z.mod_add by lia. apply Z.mod_0_l. lia.
      + right. split; [|lia].
        replace (n + 1) with (n mod s + 1 + (n / s) * s) by lia.
        rewrite Z.mod_add by lia. rewrite Z.mod_small by lia. lia.
    - left. split; [exact H0|].
      apply Z.mod_divide in Hdiv; [|lia]. destruct Hdiv as [k Hk].
      apply Z.mod_divide in H0; [|lia]. destruct H0 as [j Hj].
      assert (E : (n + 1) mod s = 0).
      { rewrite Hj, Hk, Z.mul_assoc. apply Z.mod_mul. lia. }
      apply Z.mod_divide in E; [|lia]. destruct E as [i Hi].
      replace n with (s - 1 + (i - 1) * s) at 1
        by (rewrite Z.mul_sub_distr_r; lia).
      rewrite Z.mod_add by lia. apply Z.mod_small. lia. }
  destruct Hcases as [[H0 Hr]|(H0 & Hr & <-)].
  - rewrite H0. cbn [Z.eqb].
    assert (E1 : s * (n / s + 1) = n + 1) by lia.
    rewrite E1, Es'. split; [apply Z.leb_le; lia|]. split; [reflexivity|].
    split; [|discriminate]. intros _.
    rewrite int32_small by (change (2 ^ 31) with 2147483648; lia). lia.
  - replace ((n + 1) mod s =? 0) with false by (symmetry; apply Z.eqb_neq; exact H0).
    split; [apply Z.leb_gt; nia|]. split; [discriminate|].
    split; [discriminate|]. intros _.
    assert (E : (n + 1) / s = n / s).
    { symmetry. apply (Z.div_unique_pos _ _ _ (n mod s + 1)); lia. }
    rewrite E. reflexivity.
Qed.

Lemma FinishedSingleOp_step F now st n :
  0 <= n <= 2000000000 ->
  done_ st = n -> next_report_ st = next_report_after n ->
  done_ (snd (FinishedSingleOp F now st)) = n + 1 /\
  next_report_ (snd (FinishedSingleOp F now st)) = next_report_after (n + 1) /\
  existsb is_progress_line (fst (FinishedSingleOp F now st)) = report_due (n + 1).
Proof.
  intros Hn Hd Hr.
  destruct (report_schedule_step n Hn) as (Hle & _ & Hyes & Hno).
  unfold FinishedSingleOp.
  set (timed := if FLAGS_histogram F then _ else _).
  assert (Ht : done_ (snd timed) = n /\
               next_report_ (snd timed) = next_report_after n /\
               existsb is_progress_line (fst timed) = false).
  { unfold timed. destruct (FLAGS_histogram F); [|auto].
    destruct (20000 <? now - last_op_finish_ st); auto. }
  destruct timed as [t1 st1]. cbn [fst snd] in Ht.
  destruct Ht as (Hd1 & Hr1 & Ht1).
  rewrite Hd1, Hr1, Hle.
  destruct (report_due (n + 1)) eqn:Hdue; cbn [fst snd done_ next_report_ set_progress].
  - split; [reflexivity|]. split; [apply Hyes; reflexivity|].
    rewrite existsb_app, Ht1. reflexivity.
  - split; [reflexivity|]. split; [apply Hno; reflexivity|exact Ht1].
Qed.

Lemma finish_ops_state F clock now (n : nat) :
  Z.of_nat n <= 2000000000 ->
  done_ (snd (finish_ops F clock n (Start now))) = Z.of_nat n /\
  next_report_ (snd (finish_ops F clock n (Start now)))
  = next_report_after (Z.of_nat n).
Proof.
  induction n as [|n IH]; intros Hn.
  - split; reflexivity.
  - destruct IH as [Hd Hr]; [lia|].
    cbn [finish_ops].
    destruct (finish_ops F clock n (Start now)) as [t st1]. cbn [snd] in Hd, Hr.
    pose proof (FinishedSingleOp_step F (clock (done_ st1 + 1)) st1 (Z.of_nat n)
                  ltac:(lia) Hd Hr) as (Hd' & Hr' & _).
    destruct (FinishedSingleOp F (clock (done_ st1 + 1)) st1) as [t' st2].
    cbn [snd] in *. rewrite Hd', Hr'.
    replace (Z.of_nat (S n)) with (Z.of_nat n + 1) by lia. split; reflexivity.
Qed.

(** C9 (amended).  The first threshold is 100.  After [n] operations the
    counter stands at [n] and the threshold at the next op count that is due.
    The next call prints a progress line exactly when the count reaches the
    threshold, and then moves the threshold on by the bump of the schedule:
    100 while the threshold is below 1000, then 500 below 5000, 1000 below
    10000, 5000 below 50000, 10000 below 100000, 50000 below 500000, and
    100000 from there on. *)
Theorem FinishedSingleOp_schedule F clock now (n : nat) :
  Z.of_nat n <= 2000000000 ->
  let st := snd (finish_ops F clock n (Start now)) in
  let r := FinishedSingleOp F (clock (Z.of_nat n + 1)) st in
  let printed := existsb is_progress_line (fst r) in
  let threshold := next_report_ st in
  next_report_ (Start now) = 100 /\
  done_ st = Z.of_nat n /\
  threshold = next_report_after (Z.of_nat n) /\
  Z.of_nat n < threshold /\
  (printed = true <-> done_ (snd r) = threshold) /\
  printed = report_due (Z.of_nat n + 1) /\
  (printed = true ->
   next_report_ (snd r) = threshold + scheduled_bump threshold /\
   (threshold < 1000 -> next_report_ (snd r) = threshold + 100) /\
   (1000 <= threshold < 5000 -> next_report_ (snd r) = threshold + 500) /\
   (5000 <= threshold < 10000 -> next_report_ (snd r) = threshold + 1000) /\
   (10000 <= threshold < 50000 -> next_report_ (snd r) = threshold + 5000) /\
   (50000 <= threshold < 100000 -> next_report_ (snd r) = threshold + 10000) /\
   (100000 <= threshold < 500000 -> next_report_ (snd r) = threshold + 50000) /\
   (500000 <= threshold -> next_report_ (snd r) = threshold + 100000)) /\
  (printed = false -> next_report_ (snd r) = threshold).
Proof.
  intros Hn. cbv zeta.
  destruct (finish_ops_state F clock now n Hn) as [Hd Hr].
  set (st := snd (finish_ops F clock n (Start now))) in *.
  pose proof (FinishedSingleOp_step F (clock (Z.of_nat n + 1)) st (Z.of_nat n)
                ltac:(lia) Hd Hr) as (Hd' & Hr' & Hp).
  destruct (report_schedule_step (Z.of_nat n) ltac:(lia)) as (Hle & Hreach & Hyes & Hno).
  split; [reflexivity|]. split; [exact Hd|]. split; [exact Hr|].
  assert (Hlt : Z.of_nat n < next_report_ st).
  { rewrite Hr. destruct (report_due (Z.of_nat n + 1)) eqn:Hdue.
    - rewrite Hreach by reflexivity. lia.
    - apply Z.leb_gt in Hle. lia. }
  split; [exact Hlt|].
  rewrite Hp, Hd', Hr', Hr.
  split; [|split; [reflexivity|split]].
  - split.
    + intros Hdue. symmetry. apply Hreach. exact Hdue.
    + intros E. rewrite <- Hle. apply Z.leb_le. lia.
  - intros Hdue.
    assert (E : next_report_after (Z.of_nat n + 1)
                = next_report_after (Z.of_nat n)
                  + report_bump (next_report_after (Z.of_nat n))).
    { rewrite <- (Hyes Hdue).
      apply int32_small.
      rewrite (Hreach Hdue).
      assert (0 < report_bump (Z.of_nat n + 1) <= 100000)
        by (unfold report_bump; case_comparisons; lia).
      change (2 ^ 31) with 2147483648. lia. }
    rewrite E. clear E.
    split; [rewrite report_bump_scheduled; reflexivity|].
    unfold report_bump.
    repeat split; intros Ht; case_comparisons; try lia; reflexivity.
  - intros Hdue. symmetry. apply Hno. exact Hdue.
Qed.

Lemma FinishedSingleOp_schedule_witness :
  let st := snd (finish_ops default_flags (fun _ => 0) 1199 (Start 0)) in
  let r := FinishedSingleOp default_flags 0 st in
  let printed := existsb is_progress_line (fst r) in
  let threshold := next_report_ st in
  next_report_ (Start 0) = 100 /\
  done_ st = Z.of_nat 1199 /\
  threshold = next_report_after (Z.of_nat 1199) /\
  Z.of_nat 1199 < threshold /\
  (printed = true <-> done_ (snd r) = threshold) /\
  printed = report_due (Z.of_nat 1199 + 1) /\
  (printed = true ->
   next_report_ (snd r) = threshold + scheduled_bump threshold /\
   (threshold < 1000 -> next_report_ (snd r) = threshold + 100) /\
   (1000 <= threshold < 5000 -> next_report_ (snd r) = threshold + 500) /\
   (5000 <= threshold < 10000 -> next_report_ (snd r) = threshold + 1000) /\
   (10000 <= threshold < 50000 -> next_report_ (snd r) = threshold + 5000) /\
   (50000 <= threshold < 100000 -> next_report_ (snd r) = threshold + 10000) /\
   (100000 <= threshold < 500000 -> next_report_ (snd r) = threshold + 50000) /\
   (500000 <= threshold -> next_report_ (snd r) = threshold + 100000)) /\
  (printed = false -> next_report_ (snd r) = threshold).
Proof.
  apply (FinishedSingleOp_schedule default_flags (fun _ => 0) 0 1199).
  simpl. lia.
Defined.

(** C9, as stated, fails: were the bump to change at the op counts 100,
    500, 1000, ..., the report at 500 operations would move the threshold
    to 1000.  The code still adds 100 there and reports again at 600. *)
Lemma FinishedSingleOp_bump_at_500 :
  let st := snd (finish_ops default_flags (fun _ => 0) 499 (Start 0)) in
  let r := FinishedSingleOp default_flags 0 st in
  existsb is_progress_line (fst r) = true /\
  done_ (snd r) = 500 /\
  next_report_ (snd r) = 600 /\
  next_report_ (snd r) <> done_ (snd r) + claimed_report_bump (done_ (snd r)) /\
  existsb is_progress_line
    (fst (finish_ops default_flags (fun _ => 0) 100 (snd r))) = true.
Proof.
  vm_compute. repeat split; discriminate.
Qed.

(** * Properties of the rest of the harness *)

(** ** The lock table *)

Lemma int_shift_1 (l : Z) : 0 <= l < 31 -> int32 (Z.shiftl 1 l) = 2 ^ l.
Proof.
  intros Hl. rewrite Z.shiftl_1_l. apply int32_small.
  assert (0 < 2 ^ l) by (apply Z.pow_pos_nonneg; lia).
  assert (2 ^ l < 2 ^ 31) by (apply Z.pow_lt_mono_r; lia).
  lia.
Qed.

(** X1.  For [log2_keys_per_lock] below 31 the constructor makes
    [ceil(max_key / 2^log2_keys_per_lock)] mutexes, and every key in
    [0, max_key) gets a mutex inside that table; two keys share a mutex
    exactly when they agree above the low [log2_keys_per_lock] bits. *)
Theorem GetMutexForKey_in_table (s : SharedState) (key : Z) :
  0 <= log2_keys_per_lock_ s < 31 ->
  0 <= key < max_key_ s ->
  0 <= GetMutexForKey s key < num_locks s /\
  (num_locks s - 1) * 2 ^ log2_keys_per_lock_ s < max_key_ s
    <= num_locks s * 2 ^ log2_keys_per_lock_ s /\
  (forall key', 0 <= key' ->
     (GetMutexForKey s key' = GetMutexForKey s key
      <-> key' / 2 ^ log2_keys_per_lock_ s = key / 2 ^ log2_keys_per_lock_ s)).
Proof.
  intros Hl Hk. unfold GetMutexForKey, num_locks.
  set (l := log2_keys_per_lock_ s) in *. set (m := max_key_ s) in *.
  rewrite int_shift_1 by exact Hl.
  replace (2 ^ l - 1) with (Z.ones l)
    by (rewrite Z.ones_equiv; lia).
  rewrite Z.land_ones by lia.
  rewrite !Z.shiftr_div_pow2 by lia.
  assert (HP : 0 < 2 ^ l) by (apply Z.pow_pos_nonneg; lia).
  set (P := 2 ^ l) in *.
  pose proof (Z.div_mod m P ltac:(lia)) as Dm.
  pose proof (Z.mod_pos_bound m P HP) as Bm.
  pose proof (Z.div_mod key P ltac:(lia)) as Dk.
  pose proof (Z.mod_pos_bound key P HP) as Bk.
  assert (Hq : 0 <= key / P) by (apply Z.div_pos; lia).
  split; [|split].
  - destruct (Z.eqb_spec (m mod P) 0) as [E|E].
    + split; [exact Hq|]. apply Z.div_lt_upper_bound; lia.
    + split; [exact Hq|].
      assert (key / P <= m / P) by (apply Z.div_le_mono; lia). lia.
  - destruct (Z.eqb_spec (m mod P) 0) as [E|E]; nia.
  - intros key' Hk'. rewrite Z.shiftr_div_pow2 by lia. reflexivity.
Qed.

Lemma GetMutexForKey_in_table_witness :
  let s := new_SharedState (set_max_key default_flags 10) in
  0 <= GetMutexForKey s 9 < num_locks s /\
  (num_locks s - 1) * 2 ^ log2_keys_per_lock_ s < max_key_ s
    <= num_locks s * 2 ^ log2_keys_per_lock_ s /\
  (forall key', 0 <= key' ->
     (GetMutexForKey s key' = GetMutexForKey s 9
      <-> key' / 2 ^ log2_keys_per_lock_ s = 9 / 2 ^ log2_keys_per_lock_ s)).
Proof.
  cbv zeta.
  apply (GetMutexForKey_in_table (new_SharedState (set_max_key default_flags 10)) 9);
    simpl; lia.
Defined.

(** ** The shadow array *)




Lemma Put_Get_frame F votes (s : SharedState) key b :
  reachable F votes s ->
  FLAGS_test_batches_snapshots F = false ->
  0 <= key < FLAGS_max_key F ->
  exists s',
    Put s key b = Returned s' /\
    Get s' key = Returned b /\
    (forall key', key' <> key -> Get s' key' = Get s key').
Proof.
  intros Hr Hb Hk.
  destruct (reachable_values_sized F votes s Hr Hb) as (vs & Hv & Hl).
  eexists. split; [apply (Put_Returned s vs); [exact Hv|lia]|].
  split.
  - unfold Get. cbn [values_ set_values]. rewrite length_insert.
    replace ((0 <=? key) && (key <? Z.of_nat (length vs))) with true
      by (symmetry; apply andb_true_iff; split;
          [apply Z.leb_le|apply Z.ltb_lt]; lia).
    rewrite list_lookup_insert_eq by lia. reflexivity.
  - intros key' Hne. unfold Get. cbn [values_ set_values].
    rewrite Hv, length_insert.
    destruct ((0 <=? key') && (key' <? Z.of_nat (length vs))) eqn:Hin;
      [|reflexivity].
    apply andb_true_iff in Hin. destruct Hin as [H0 H1].
    apply Z.leb_le in H0. apply Z.ltb_lt in H1.
    rewrite list_lookup_insert_ne by lia. reflexivity.
Qed.

(** X2.  In a state a run reaches outside the batch mode, [Put] on a key
    of [0, max_key) succeeds; afterwards [Get] of that key gives the base
    stored, [Get] of every other key answers as before, and [Delete] makes
    [Get] answer SENTINEL.  Outside [0, max_key) both [Put] and [Get] are
    out of bounds. *)
Theorem shadow_Put_Get F votes (s : SharedState) key value_base :
  reachable F votes s ->
  FLAGS_test_batches_snapshots F = false ->
  0 <= key < FLAGS_max_key F ->
  (exists s',
     Put s key value_base = Returned s' /\
     Get s' key = Returned value_base /\
     (forall key', key' <> key -> Get s' key' = Get s key')) /\
  (exists s',
     Delete s key = Returned s' /\
     Get s' key = Returned SENTINEL /\
     (forall key', key' <> key -> Get s' key' = Get s key')) /\
  (forall key', ~ 0 <= key' < FLAGS_max_key F ->
     Get s key' = Undefined /\ Put s key' value_base = Undefined).
Proof.
  intros Hr Hb Hk.
  destruct (reachable_values_sized F votes s Hr Hb) as (vs & Hv & Hl).
  pose proof (fun b => Put_Get_frame F votes s key b Hr Hb Hk) as Hput.
  split; [apply Hput|]. split; [apply Hput|].
  intros key' Hout. unfold Get, Put, store. rewrite Hv.
  replace ((0 <=? key') && (key' <? Z.of_nat (length vs))) with false.
  - split; reflexivity.
  - symmetry. apply andb_false_iff.
    destruct (Z.leb_spec 0 key'); [right|left; reflexivity].
    apply Z.ltb_ge. lia.
Qed.

Lemma shadow_Put_Get_witness :
  let F := set_max_key default_flags 4 in
  let s := new_SharedState F in
  (exists s',
     Put s 2 77 = Returned s' /\
     Get s' 2 = Returned 77 /\
     (forall key', key' <> 2 -> Get s' key' = Get s key')) /\
  (exists s',
     Delete s 2 = Returned s' /\
     Get s' 2 = Returned SENTINEL /\
     (forall key', key' <> 2 -> Get s' key' = Get s key')) /\
  (forall key', ~ 0 <= key' < FLAGS_max_key F ->
     Get s key' = Undefined /\ Put s key' 77 = Undefined).
Proof.
  cbv zeta.
  apply (shadow_Put_Get (set_max_key default_flags 4) 0
           (new_SharedState (set_max_key default_flags 4)) 2 77).
  - apply reachable_new.
  - reflexivity.
  - simpl. lia.
Defined.

(** ** The reference database *)

Lemma db_write_cons db o batch :
  db_write db (o :: batch) = db_write (db_apply db o) batch.
Proof. reflexivity. Qed.

Lemma db_write_other (f : string -> list Z) (entry : string -> batch_op) :
  (forall d, batch_key (entry d) = f d) ->
  forall (l : list string) db k,
    (forall d, In d l -> k <> f d) ->
    db_write db (map entry l) !! k = db !! k.
Proof.
  intros Hkey l. induction l as [|d l IH]; intros db k Hk; [reflexivity|].
  cbn [map]. rewrite db_write_cons, IH by (intros d' Hd'; apply Hk; right; exact Hd').
  assert (Hne : k <> f d) by (apply Hk; left; reflexivity).
  specialize (Hkey d). destruct (entry d); cbn in Hkey |- *; subst.
  - apply lookup_insert_ne. congruence.
  - apply lookup_insert_ne. congruence.
  - apply lookup_delete_ne. congruence.
Qed.

Lemma db_write_puts (f g : string -> list Z) (entry : string -> batch_op) :
  (forall d, entry d = BatchPut (f d) (g d) \/ entry d = BatchMerge (f d) (g d)) ->
  forall (l : list string) db d,
    List.NoDup (map f l) -> In d l ->
    db_write db (map entry l) !! f d = Some (g d).
Proof.
  intros He.
  assert (Hkey : forall d, batch_key (entry d) = f d).
  { intros d. destruct (He d) as [-> | ->]; reflexivity. }
  intros l. induction l as [|d0 l IH]; intros db d Hnd Hin; [destruct Hin|].
  cbn [map] in *. rewrite db_write_cons.
  inversion Hnd as [|? ? Hnotin Hnd']; subst.
  destruct (in_dec string_dec d l) as [Hl|Hl].
  - apply IH; assumption.
  - destruct Hin as [->|Hin]; [|contradiction].
    rewrite (db_write_other f entry Hkey).
    + destruct (He d) as [-> | ->]; apply lookup_insert_eq.
    + intros d' Hd' Heq. apply Hnotin. rewrite Heq. apply in_map. exact Hd'.
Qed.

Lemma db_write_deletes (f : string -> list Z) :
  forall (l : list string) db d,
    In d l ->
    db_write db (map (fun d => BatchDelete (f d)) l) !! f d = None.
Proof.
  intros l. induction l as [|d0 l IH]; intros db d Hin; [destruct Hin|].
  cbn [map]. rewrite db_write_cons.
  destruct (in_dec string_dec d l) as [Hl|Hl].
  - apply IH. exact Hl.
  - destruct Hin as [->|Hin]; [|contradiction].
    destruct (decide (f d ∈ map f l)) as [Hf|Hf];
      rewrite list_elem_of_In in Hf.
    + apply in_map_iff in Hf. destruct Hf as (d' & Heq & Hd').
      rewrite <- Heq. apply IH. exact Hd'.
    + rewrite (db_write_other f (fun d => BatchDelete (f d))).
      * apply lookup_delete_eq.
      * reflexivity.
      * intros d' Hd' Heq. apply Hf. rewrite Heq. apply in_map. exact Hd'.
Qed.

(** ** Batch mode: the lanes *)

Lemma MultiDelete_loop_batch (key : bytes) :
  MultiDelete_loop key
  = (map (fun d => lit d ++ key) delete_lane_digits,
     map (fun d => BatchDelete (lit d ++ key)) delete_lane_digits).
Proof. reflexivity. Qed.

Lemma lane_digits_same d :
  (In d delete_lane_digits <-> In d lane_digits) /\
  (In d get_lane_digits <-> In d lane_digits).
Proof. cbn. intuition. Qed.

Lemma lane_key_inj (key : bytes) d d' :
  In d lane_digits -> In d' lane_digits ->
  lit d ++ key = lit d' ++ key -> d = d'.
Proof.
  intros Hd Hd' E. apply (f_equal (hd 0)) in E.
  cbn in Hd, Hd'.
  repeat (destruct Hd as [<-|Hd]; [
    repeat (destruct Hd' as [<-|Hd']; [first [reflexivity|discriminate E]|]);
    destruct Hd'|]).
  destruct Hd.
Qed.

Lemma all_lane_keys_distinct (key : bytes) (l : list string) :
  List.NoDup l -> (forall d, In d l -> In d lane_digits) ->
  List.NoDup (map (fun d => lit d ++ key) l).
Proof.
  intros Hnd Hsub. induction Hnd as [|d l Hnotin Hnd IH]; cbn [map].
  - constructor.
  - constructor.
    + intros Hin. apply in_map_iff in Hin. destruct Hin as (d' & E & Hd').
      apply lane_key_inj in E; [subst; contradiction| |];
        apply Hsub; [right; exact Hd'|left; reflexivity].
    + apply IH. intros d' Hd'. apply Hsub. right. exact Hd'.
Qed.

(** X3.  [MultiDelete] sends one batch in one [Write] call, its only
    database call: ten deletes, of exactly the ten keys [MultiPut] writes
    for the same [K].  On the reference database a [MultiDelete] after a
    [MultiPut] therefore leaves none of the ten lane keys bound, and
    leaves every other key as it was before the two. *)
Theorem MultiDelete_undoes_MultiPut (F : Flags)
    (db_Write : list batch_op -> Status) (stats : Stats) (key value : bytes)
    (db : gmap (list Z) (list Z)) :
  let put_batch :=
    map (fun d => (if FLAGS_use_merge_put F then BatchMerge else BatchPut)
                    (lit d ++ key) (lit d ++ value)) lane_digits in
  let delete_batch :=
    map (fun d => BatchDelete (lit d ++ key)) delete_lane_digits in
  List.filter is_db_event (fst (MultiDelete db_Write stats key))
  = [EvDbWrite delete_batch] /\
  length delete_batch = 10%nat /\
  (forall k, In k (map batch_key delete_batch)
             <-> In k (map batch_key put_batch)) /\
  (forall d, In d lane_digits ->
     db_write db put_batch !! (lit d ++ key) = Some (lit d ++ value) /\
     db_write (db_write db put_batch) delete_batch !! (lit d ++ key) = None) /\
  (forall k, (forall d, In d lane_digits -> k <> lit d ++ key) ->
     db_write (db_write db put_batch) delete_batch !! k = db !! k).
Proof.
  cbv zeta. split; [|split; [reflexivity|split; [|split]]].
  - unfold MultiDelete. rewrite MultiDelete_loop_batch.
    destruct (ok (db_Write _)); reflexivity.
  - intros k. rewrite !map_map, !in_map_iff.
    destruct (FLAGS_use_merge_put F); cbn [batch_key];
      split; intros (d & E & Hd); exists d; (split; [exact E|]);
      destruct (lane_digits_same d) as [[A B] _]; auto.
  - intros d Hd. split.
    + apply (db_write_puts (fun d => lit d ++ key) (fun d => lit d ++ value)).
      * intros d'. destruct (FLAGS_use_merge_put F); auto.
      * apply lane_keys_distinct.
      * exact Hd.
    + apply (db_write_deletes (fun d => lit d ++ key)).
      destruct (lane_digits_same d) as [[A B] _]; auto.
  - intros k Hk.
    rewrite (db_write_other (fun d => lit d ++ key)
               (fun d => BatchDelete (lit d ++ key)));
      [|reflexivity
       |intros d Hd; apply Hk; destruct (lane_digits_same d) as [[A B] _]; auto].
    apply (db_write_other (fun d => lit d ++ key)).
    + intros d. destruct (FLAGS_use_merge_put F); reflexivity.
    + exact Hk.
Qed.

Lemma insert_middle {A} (l1 l2 : list A) (x y : A) (i : nat) :
  i = length l1 -> <[ i := y ]> (l1 ++ x :: l2) = l1 ++ y :: l2.
Proof.
  intros ->. induction l1 as [|a l1 IH]; cbn; [reflexivity|].
  f_equal. exact IH.
Qed.

Lemma first_char_app (k rest rest' : list Z) :
  k <> [] -> first_char (k ++ rest) = first_char (k ++ rest').
Proof. destruct k; [congruence|reflexivity]. Qed.

Lemma MultiGet_round_lane db_Get (key value : bytes) (present : list Z -> bool)
    (pre ks vpre vs : list (list Z)) (k x v0 : list Z) (s0 : Status)
    (stats : Stats) :
  (forall v, db_Get (k ++ key) v
             = if present k then (OK, k ++ value) else (NotFound, v)) ->
  k <> [] -> length vpre = length pre ->
  MultiGet_round db_Get key
    (pre ++ k :: ks, vpre ++ x :: vs, v0, s0, stats) (length pre)
  = ([EvDbGet (k ++ key)],
     Returned
       (pre ++ (k ++ key) :: ks,
        vpre ++ (if present k then 32 :: tail (k ++ value) else []) :: vs,
        (if present k then k ++ value else v0),
        (if present k then OK else NotFound),
        (if present k then AddGets 1 1 stats else AddGets 1 0 stats))).
Proof.
  intros Hdb Hk Hlen. unfold MultiGet_round.
  rewrite (list_lookup_total_middle pre ks k) by reflexivity.
  rewrite (insert_middle pre ks k (k ++ key)) by reflexivity.
  rewrite (list_lookup_total_middle pre ks (k ++ key)) by reflexivity.
  rewrite Hdb. destruct (present k).
  - cbn [ok IsNotFound negb andb].
    rewrite (insert_middle vpre vs x (k ++ value)) by (symmetry; exact Hlen).
    rewrite (list_lookup_total_middle vpre vs (k ++ value))
      by (symmetry; exact Hlen).
    rewrite (first_char_app k value key Hk), Z.eqb_refl. cbn [negb].
    destruct k as [|b k]; [congruence|].
    cbn [app tail].
    pose proof (store_ok (b :: k ++ value) 0 32 ltac:(cbn; lia)) as Es.
    change (Z.of_nat 0) with 0 in Es. rewrite Es. clear Es.
    cbn [take drop app lift mbind prog_mbind prog_bind].
    rewrite (insert_middle vpre vs (b :: k ++ value) (32 :: k ++ value))
      by (symmetry; exact Hlen).
    reflexivity.
  - cbn [ok IsNotFound negb andb].
    rewrite (insert_middle vpre vs x []) by (symmetry; exact Hlen).
    reflexivity.
Qed.

(** The first loop of [MultiGet] against a database that, for every lane
    prefix [k], either holds [k + V] under [k + K] or holds nothing. *)
Lemma MultiGet_rounds db_Get (key value : bytes) (present : list Z -> bool) :
  forall (ks pre vpre : list (list Z)) (v0 : list Z) (s0 : Status)
         (stats : Stats),
    (forall k v, In k ks ->
       db_Get (k ++ key) v
       = if present k then (OK, k ++ value) else (NotFound, v)) ->
    Forall (fun k => k <> []) ks -> length vpre = length pre ->
    prog_foldl (MultiGet_round db_Get key)
      (seq (length pre) (length ks))
      (pre ++ ks, vpre ++ replicate (length ks) [], v0, s0, stats)
    = (map (fun k => EvDbGet (k ++ key)) ks,
       Returned
         (pre ++ map (fun k => k ++ key) ks,
          vpre ++ map (fun k => if present k then 32 :: tail (k ++ value)
                                else []) ks,
          fold_left (fun v k => if present k then k ++ value else v) ks v0,
          fold_left (fun s k => if present k then OK else NotFound) ks s0,
          fold_left (fun st k => if present k then AddGets 1 1 st
                                 else AddGets 1 0 st) ks stats)).
Proof.
  intros ks.
  induction ks as [|k ks IH]; intros pre vpre v0 s0 stats Hdb Hne Hlen.
  - cbn. rewrite !app_nil_r. reflexivity.
  - inversion Hne as [|? ? Hk Hne']; subst.
    cbn [length seq prog_foldl replicate].
    rewrite (MultiGet_round_lane db_Get key value present)
      by (try assumption; intros v; apply Hdb; left; reflexivity).
    specialize (IH (pre ++ [k ++ key])
                  (vpre ++ [if present k then 32 :: tail (k ++ value) else []])
                  (if present k then k ++ value else v0)
                  (if present k then OK else NotFound)
                  (if present k then AddGets 1 1 stats else AddGets 1 0 stats)
                  (fun k' v Hin => Hdb k' v (or_intror Hin)) Hne').
    rewrite !length_app in IH. cbn [length] in IH.
    rewrite <- !app_assoc in IH. cbn [app] in IH.
    replace (length pre + 1)%nat with (S (length pre)) in IH by lia.
    cbn [mbind prog_mbind prog_bind].
    rewrite IH by lia. cbn [map fold_left app]. reflexivity.
Qed.

Lemma lane_prefixes_nonempty (l : list string) :
  (forall d, In d l -> In d lane_digits) ->
  Forall (fun k : list Z => k <> []) (map lit l).
Proof.
  intros Hsub. apply Forall_forall. intros k Hk.
  rewrite list_elem_of_In in Hk. apply in_map_iff in Hk. destruct Hk as (d & <- & Hd).
  specialize (Hsub d Hd). cbn in Hsub.
  repeat (destruct Hsub as [<-|Hsub]; [discriminate|]). destruct Hsub.
Qed.

(** What [MultiGet] does against a database that, for every lane digit,
    either holds the lane's value of [V] under the lane's key or holds
    nothing under it. *)
Lemma MultiGet_lanes db_Get (stats : Stats) (key value value0 : bytes)
    (present : list Z -> bool) :
  (forall d v, In d get_lane_digits ->
     db_Get (lit d ++ key) v
     = if present (lit d) then (OK, lit d ++ value) else (NotFound, v)) ->
  let ks := map lit get_lane_digits in
  let values :=
    map (fun k => if present k then 32 :: tail (k ++ value) else []) ks in
  MultiGet db_Get stats key value0
  = (map (fun k => EvDbGet (k ++ key)) ks ++ MultiGet_compare key values,
     Returned
       (fold_left (fun s k => if present k then OK else NotFound) ks OK,
        fold_left (fun st k => if present k then AddGets 1 1 st
                               else AddGets 1 0 st) ks stats,
        fold_left (fun v k => if present k then k ++ value else v) ks value0)).
Proof.
  intros Hdb ks values. subst ks values. unfold MultiGet.
  pose proof (MultiGet_rounds db_Get key value present
                (map lit get_lane_digits) [] [] value0 OK stats) as E.
  cbn [app] in E.
  change (length (map lit get_lane_digits)) with 10%nat in E.
  change (@length (list Z) []) with 0%nat in E.
  rewrite E.
  - cbn [mbind prog_mbind prog_bind mret prog_mret prog_ret].
    rewrite app_nil_r. reflexivity.
  - intros k v Hk. apply in_map_iff in Hk. destruct Hk as (d & <- & Hd).
    apply Hdb. exact Hd.
  - apply lane_prefixes_nonempty. intros d Hd.
    destruct (lane_digits_same d) as [_ [A B]]. auto.
  - reflexivity.
Qed.

Lemma MultiGet_compare_same (key : bytes) (values : list (list Z)) :
  (forall i, (1 <= i < 10)%nat -> values !!! i = values !!! 0%nat) ->
  MultiGet_compare key values = [].
Proof.
  intros H. unfold MultiGet_compare. cbn [seq flat_map].
  rewrite !bool_decide_eq_true_2 by (apply H; lia). reflexivity.
Qed.

Lemma MultiGet_compare_differs (key : bytes) (values : list (list Z)) (i : nat) :
  (1 <= i < 10)%nat -> values !!! i <> values !!! 0%nat ->
  existsb is_stderr (MultiGet_compare key values) = true.
Proof.
  intros Hi Hne. apply existsb_exists.
  exists (EvFprintf Stderr "error : inconsistent values for key %s: %s, %s\n"
            [ArgStr key; ArgStr (values !!! 0%nat); ArgStr (values !!! i)]).
  split; [|reflexivity].
  unfold MultiGet_compare. apply in_flat_map. exists i. split.
  - apply in_seq. lia.
  - rewrite bool_decide_eq_false_2 by exact Hne. left. reflexivity.
Qed.

(** X4.  On the reference database, a [MultiGet] of [K] after the batch of
    [MultiPut] for [K] and [V] was written asks for the ten lane keys in
    the order 0 to 9, prints nothing, counts ten gets that all found their
    key and no error, returns OK, and leaves the value of lane 9 in the
    caller's string. *)
Theorem MultiGet_after_MultiPut (F : Flags) (db : gmap (list Z) (list Z))
    (stats : Stats) (key value value0 : bytes) :
  let put_batch :=
    map (fun d => (if FLAGS_use_merge_put F then BatchMerge else BatchPut)
                    (lit d ++ key) (lit d ++ value)) lane_digits in
  exists stats',
    MultiGet (db_get (db_write db put_batch)) stats key value0
    = (map (fun d => EvDbGet (lit d ++ key)) get_lane_digits,
       Returned (OK, stats', lit "9" ++ value)) /\
    gets_ stats' = gets_ stats + 10 /\
    founds_ stats' = founds_ stats + 10 /\
    errors_ stats' = errors_ stats.
Proof.
  cbv zeta. eexists. split.
  - rewrite (MultiGet_lanes _ stats key value value0 (fun _ => true)).
    + cbv zeta. rewrite MultiGet_compare_same.
      * rewrite app_nil_r, map_map. reflexivity.
      * intros i Hi.
        do 10 (destruct i as [|i]; [first [lia|reflexivity]|]). lia.
    + intros d v Hd. unfold db_get.
      rewrite (db_write_puts (fun d => lit d ++ key) (fun d => lit d ++ value)).
      * reflexivity.
      * intros d'. destruct (FLAGS_use_merge_put F); auto.
      * apply lane_keys_distinct.
      * destruct (lane_digits_same d) as [_ [A B]]. auto.
  - cbn. repeat split; lia.
Qed.

(** X5.  On the reference database, a [MultiGet] of [K] after the batch of
    [MultiDelete] for [K] was written finds none of the ten lanes: it
    prints nothing, counts ten gets and no key found, returns NotFound and
    leaves the caller's string as it was. *)
Theorem MultiGet_after_MultiDelete (db : gmap (list Z) (list Z))
    (stats : Stats) (key value0 : bytes) :
  let delete_batch :=
    map (fun d => BatchDelete (lit d ++ key)) delete_lane_digits in
  exists stats',
    MultiGet (db_get (db_write db delete_batch)) stats key value0
    = (map (fun d => EvDbGet (lit d ++ key)) get_lane_digits,
       Returned (NotFound, stats', value0)) /\
    gets_ stats' = gets_ stats + 10 /\
    founds_ stats' = founds_ stats /\
    errors_ stats' = errors_ stats.
Proof.
  cbv zeta. eexists. split.
  - rewrite (MultiGet_lanes _ stats key [] value0 (fun _ => false)).
    + cbv zeta. rewrite MultiGet_compare_same.
      * rewrite app_nil_r, map_map. reflexivity.
      * intros i Hi.
        do 10 (destruct i as [|i]; [first [lia|reflexivity]|]). lia.
    + intros d v Hd. unfold db_get.
      rewrite (db_write_deletes (fun d => lit d ++ key)); [reflexivity|].
      destruct (lane_digits_same d) as [[A B] [A' B']]. auto.
  - cbn. repeat split; lia.
Qed.

(** X6.  When the batch of [MultiPut] reaches the reference database
    without the entry of one lane, and that lane's key was not bound
    before, the next [MultiGet] of [K] prints a line on standard error:
    the values of the lanes no longer agree. *)
Theorem MultiGet_detects_partial_batch (F : Flags)
    (db : gmap (list Z) (list Z)) (stats : Stats) (key value value0 : bytes)
    (missing : string) :
  In missing lane_digits ->
  db !! (lit missing ++ key) = None ->
  let partial_batch :=
    map (fun d => (if FLAGS_use_merge_put F then BatchMerge else BatchPut)
                    (lit d ++ key) (lit d ++ value))
        (List.filter (fun d => negb (String.eqb d missing)) lane_digits) in
  existsb is_stderr
    (fst (MultiGet (db_get (db_write db partial_batch)) stats key value0))
  = true.
Proof.
  intros Hm Hdb. cbv zeta.
  set (l := List.filter (fun d => negb (String.eqb d missing)) lane_digits).
  assert (Hl : forall d, In d l <-> In d lane_digits /\ d <> missing).
  { intros d. unfold l. rewrite filter_In, negb_true_iff, String.eqb_neq.
    reflexivity. }
  rewrite (MultiGet_lanes _ stats key value value0
             (fun k => negb (bool_decide (k = lit missing)))).
  - cbv zeta. cbn [fst]. rewrite existsb_app. apply orb_true_iff. right.
    cbn in Hm.
    repeat (destruct Hm as [<-|Hm];
            [first [ apply (MultiGet_compare_differs key _ 1); [lia|discriminate]
                   | apply (MultiGet_compare_differs key _ 2); [lia|discriminate]
                   | apply (MultiGet_compare_differs key _ 3); [lia|discriminate]
                   | apply (MultiGet_compare_differs key _ 4); [lia|discriminate]
                   | apply (MultiGet_compare_differs key _ 5); [lia|discriminate]
                   | apply (MultiGet_compare_differs key _ 6); [lia|discriminate]
                   | apply (MultiGet_compare_differs key _ 7); [lia|discriminate]
                   | apply (MultiGet_compare_differs key _ 8); [lia|discriminate]
                   | apply (MultiGet_compare_differs key _ 9); [lia|discriminate] ]|]).
    destruct Hm.
  - intros d v Hd. unfold db_get.
    assert (Hd' : In d lane_digits)
      by (destruct (lane_digits_same d) as [_ [A B]]; auto).
    destruct (string_dec d missing) as [->|Hne].
    + rewrite bool_decide_eq_true_2 by reflexivity. cbn [negb].
      rewrite (db_write_other (fun d => lit d ++ key)).
      * rewrite Hdb. reflexivity.
      * intros d'. destruct (FLAGS_use_merge_put F); reflexivity.
      * intros d' Hin E. apply Hl in Hin. destruct Hin as [Hin Hne].
        apply Hne. symmetry. apply (lane_key_inj key); assumption.
    + rewrite bool_decide_eq_false_2.
      2:{ intros E. apply Hne. apply (lane_key_inj []); [assumption..|].
          rewrite !app_nil_r. exact E. }
      cbn [negb].
      rewrite (db_write_puts (fun d => lit d ++ key) (fun d => lit d ++ value)).
      * reflexivity.
      * intros d'. destruct (FLAGS_use_merge_put F); auto.
      * apply all_lane_keys_distinct.
        -- unfold l. apply List.NoDup_filter.
           repeat (constructor; [cbn; intuition discriminate|]). constructor.
        -- intros d' Hin. apply Hl in Hin. tauto.
      * apply Hl. split; assumption.
Qed.

Lemma MultiGet_detects_partial_batch_witness :
  let partial_batch :=
    map (fun d => (if FLAGS_use_merge_put default_flags
                   then BatchMerge else BatchPut)
                    (lit d ++ Key 7) (lit d ++ [1; 2; 3]))
        (List.filter (fun d => negb (String.eqb d "4")) lane_digits) in
  existsb is_stderr
    (fst (MultiGet (db_get (db_write ∅ partial_batch)) (Start 0) (Key 7) []))
  = true.
Proof.
  apply (MultiGet_detects_partial_batch default_flags ∅ (Start 0) (Key 7)
           [1; 2; 3] [] "4").
  - cbn. tauto.
  - reflexivity.
Defined.

(** ** Verification of the whole key space *)

Lemma reachable_max_key F n s :
  reachable F n s ->
  max_key_ s = FLAGS_max_key F /\ num_threads_ s = FLAGS_threads F.
Proof.
  induction 1 as [|n s b s' Hr [IHm IHt] Hstep]; [split; reflexivity|].
  destruct Hstep as [| | | | |s' E|key vb s' E|key s' E];
    try (split; assumption).
  - unfold IncVotedReopen in E.
    destruct (num_threads_ s =? 0); [discriminate|].
    apply Returned_inj in E. subst s'. split; assumption.
  - unfold Put in E. destruct (values_ s); [|discriminate].
    destruct (store _ _ _); cbn in E; try discriminate.
    apply Returned_inj in E. subst s'. split; assumption.
  - unfold Delete, Put in E. destruct (values_ s); [|discriminate].
    destruct (store _ _ _); cbn in E; try discriminate.
    apply Returned_inj in E. subst s'. split; assumption.
Qed.

(** The strict check of one key: it asks the database once; it returns
    when the answer is what the shadow expects and exits through
    [VerificationAbort] when it is not. *)
Lemma VerifyValue_strict F host db_Get (value : bytes) key shared base :
  Get shared key = Returned base ->
  valid_value_size_mult F ->
  Z.of_nat (length value) = value_buffer_size ->
  (shadow_consistent F host db_Get shared key ->
   VerifyValue F host db_Get value key shared [] true
   = ([EvDbGet (Key key)], Returned (snd (db_Get (Key key) [])))) /\
  (~ shadow_consistent F host db_Get shared key ->
   exists msg,
     VerifyValue F host db_Get value key shared [] true
     = ([EvDbGet (Key key);
         EvFprintf Stderr "Verification failed for key %ld: %s\n"
           [ArgInt key; ArgStr (lit msg)]],
        Exited 1)).
Proof.
  intros Eg Hmult Hbuf. unfold shadow_consistent.
  pose proof (valid_value_size F base Hmult) as Hsz.
  assert (Egen : GenerateValue F host base value value_buffer_size
                 = Returned (value_size F base,
                     canonical_value host base (value_size F base)
                     ++ 0 :: drop (S (Z.to_nat (value_size F base))) value)).
  { apply GenerateValue_returns; lia. }
  assert (Hc : length (canonical_value host base (value_size F base))
               = Z.to_nat (value_size F base)).
  { pose proof (canonical_value_length host base (value_size F base)). lia. }
  unfold VerifyValue. rewrite Eg. run_prog.
  destruct (db_Get (Key key) []) as [s from_db]. cbn [fst snd].
  rewrite andb_false_r.
  split.
  - intros (b & Eb & Hcons). apply Returned_inj in Eb. subst b.
    destruct (ok s).
    + destruct Hcons as [Hne ->]. apply Z.eqb_neq in Hne. rewrite Hne, Egen.
      run_prog.
      replace (Z.of_nat (length (canonical_value host base (value_size F base)))
               =? value_size F base) with true
        by (symmetry; apply Z.eqb_eq; lia).
      run_prog.
      replace (memcmp _ _ _ =? 0) with true; [reflexivity|].
      symmetry. apply Z.eqb_eq. apply memcmp_zero.
      rewrite take_app_length' by (symmetry; exact Hc).
      apply firstn_all2. lia.
    + subst base. run_prog. reflexivity.
  - intros Hcons.
    assert (Hcons' : ~ (if ok s
                        then base <> SENTINEL /\
                             from_db = canonical_value host base (value_size F base)
                        else base = SENTINEL)).
    { intros H. apply Hcons. exists base. split; [reflexivity|exact H]. }
    destruct (ok s).
    + destruct (Z.eqb_spec base SENTINEL) as [Heq|Hne].
      { eexists. run_prog. reflexivity. }
      rewrite Egen. run_prog.
      destruct (Z.eqb_spec (Z.of_nat (length from_db)) (value_size F base))
        as [Hlen|Hlen].
      2:{ eexists. run_prog. reflexivity. }
      run_prog.
      destruct (Z.eqb_spec (memcmp from_db
                   (canonical_value host base (value_size F base)
                    ++ 0 :: drop (S (Z.to_nat (value_size F base))) value)
                   (value_size F base)) 0) as [Hm|Hm].
      2:{ eexists. run_prog. reflexivity. }
      exfalso. apply Hcons'. split; [exact Hne|].
      apply memcmp_zero in Hm.
      rewrite take_app_length' in Hm by (symmetry; exact Hc).
      rewrite <- Hm. symmetry. apply firstn_all2. lia.
    + destruct (Z.eqb_spec base SENTINEL) as [Heq|Hne]; [contradiction|].
      eexists. run_prog. reflexivity.
Qed.

Lemma stride_nil start step max_key :
  0 < step -> max_key <= start -> stride start step max_key = [].
Proof.
  intros Hs Hm. unfold stride.
  replace (Z.to_nat ((max_key - start + step - 1) / step)) with 0%nat;
    [reflexivity|].
  assert ((max_key - start + step - 1) / step < 1)
    by (apply Z.div_lt_upper_bound; lia).
  lia.
Qed.

Lemma stride_cons start step max_key :
  0 < step -> start < max_key ->
  stride start step max_key = start :: stride (start + step) step max_key.
Proof.
  intros Hs Hm. unfold stride.
  replace (max_key - start + step - 1)
    with (max_key - (start + step) + step - 1 + 1 * step) by ring.
  rewrite Z.div_add by lia.
  set (m := (max_key - (start + step) + step - 1) / step).
  assert (Hm0 : 0 <= m) by (apply Z.div_pos; lia).
  replace (Z.to_nat (m + 1)) with (S (Z.to_nat m)) by lia.
  cbn [seq map]. f_equal; [lia|].
  rewrite <- seq_shift, map_map. apply map_ext. intros j. lia.
Qed.

Lemma In_stride start step max_key key :
  0 < step ->
  In key (stride start step max_key)
  <-> start <= key < max_key /\ (key - start) mod step = 0.
Proof.
  intros Hs. unfold stride. rewrite in_map_iff.
  set (n := (max_key - start + step - 1) / step).
  split.
  - intros (j & <- & Hj). apply in_seq in Hj.
    assert (Hjn : Z.of_nat j < n) by lia.
    assert (Hb : Z.of_nat j * step < max_key - start).
    { unfold n in Hjn.
      assert (Z.of_nat j + 1 <= (max_key - start + step - 1) / step) by lia.
      pose proof (Z.mul_div_le (max_key - start + step - 1) step Hs). nia. }
    split; [nia|].
    replace (start + Z.of_nat j * step - start) with (Z.of_nat j * step) by ring.
    apply Z.mod_mul. lia.
  - intros [Hr Hm]. apply Z.mod_divide in Hm; [|lia]. destruct Hm as [q Hq].
    assert (Hq0 : 0 <= q) by nia.
    exists (Z.to_nat q). split; [rewrite Z2Nat.id by lia; lia|].
    apply in_seq. split; [lia|]. cbn.
    assert (q + 1 <= n); [|lia].
    unfold n. apply Z.div_le_lower_bound; [lia|nia].
Qed.

Lemma PrintKeyValue_chars (value : bytes) (n : nat) : forall j : nat,
  (j + n <= length value)%nat ->
  exists t,
    prog_foldl
      (fun (_ : unit) (i : nat) =>
         match value !! i with
         | Some b => emit (EvFprintf Stdout "%X" [ArgInt (char_to_unsigned b)])
         | None => lift Undefined
         end)
      (seq j n) tt = (t, Returned tt) /\
    db_gets t = [] /\ List.filter is_stderr t = [].
Proof.
  induction n as [|n IH]; intros j Hj.
  - exists []. repeat split.
  - cbn [seq prog_foldl].
    destruct (value !! j) as [b|] eqn:E;
      [|apply lookup_ge_None in E; lia].
    destruct (IH (S j) ltac:(lia)) as (t & Et & Hg & Hs).
    cbn [emit mbind prog_mbind prog_bind]. rewrite Et.
    eexists. split; [reflexivity|]. cbn. split; assumption.
Qed.

Lemma PrintKeyValue_quiet F key (value : bytes) :
  exists t,
    PrintKeyValue F key value (Z.of_nat (length value)) = (t, Returned tt) /\
    db_gets t = [] /\ List.filter is_stderr t = [].
Proof.
  unfold PrintKeyValue. destruct (FLAGS_verbose F); cbn [negb].
  - rewrite Nat2Z.id.
    destruct (PrintKeyValue_chars value (length value) 0 ltac:(lia))
      as (t & Et & Hg & Hs).
    cbn [emit mbind prog_mbind prog_bind]. rewrite Et.
    cbn [mbind prog_mbind prog_bind].
    eexists. split; [reflexivity|]. cbn.
    unfold db_gets in *. rewrite omap_app, Hg.
    rewrite List.filter_app, Hs. split; reflexivity.
  - exists []. repeat split.
Qed.

Lemma db_gets_app (t1 t2 : list event) :
  db_gets (t1 ++ t2) = db_gets t1 ++ db_gets t2.
Proof. apply omap_app. Qed.

Lemma VerifyDb_loop_done F host db_Get (value : bytes) shared fuel i max_key step :
  max_key <= i ->
  VerifyDb_loop F host db_Get value shared fuel i max_key step
  = ([], Returned tt).
Proof.
  intros H. destruct fuel; cbn [VerifyDb_loop];
    (replace (max_key <=? i) with true by (symmetry; apply Z.leb_le; lia));
    reflexivity.
Qed.

(** One round of the loop on a key the database agrees on. *)
Lemma VerifyDb_loop_round F host db_Get (value : bytes) shared fuel i max_key step :
  i < max_key ->
  valid_value_size_mult F ->
  Z.of_nat (length value) = value_buffer_size ->
  shadow_consistent F host db_Get shared i ->
  exists t,
    db_gets t = [Key i] /\ List.filter is_stderr t = [] /\
    VerifyDb_loop F host db_Get value shared (S fuel) i max_key step
    = (t ++ fst (VerifyDb_loop F host db_Get value shared fuel
                   (i + step) max_key step),
       snd (VerifyDb_loop F host db_Get value shared fuel
              (i + step) max_key step)).
Proof.
  intros Hi Hmult Hbuf Hcons.
  pose proof Hcons as (base & Eg & _).
  destruct (VerifyValue_strict F host db_Get value i shared base Eg Hmult Hbuf)
    as [Hok _].
  cbn [VerifyDb_loop].
  replace (max_key <=? i) with false by (symmetry; apply Z.leb_gt; lia).
  rewrite (Hok Hcons). cbn [mbind prog_mbind prog_bind].
  set (from_db := snd (db_Get (Key i) [])).
  destruct (VerifyDb_loop F host db_Get value shared fuel (i + step) max_key step)
    as [t' r'].
  destruct (Z.of_nat (length from_db) =? 0); cbn [negb].
  - exists [EvDbGet (Key i)]. repeat split.
  - destruct (PrintKeyValue_quiet F i from_db) as (tp & Ep & Hg & Hs).
    rewrite Ep. cbn [mbind prog_mbind prog_bind fst snd].
    exists (EvDbGet (Key i) :: tp). split; [|split].
    + cbn. fold (db_gets tp). rewrite Hg. reflexivity.
    + cbn. exact Hs.
    + reflexivity.
Qed.

Lemma VerifyDb_loop_passes F host db_Get (value : bytes) shared max_key step :
  0 < step ->
  valid_value_size_mult F ->
  Z.of_nat (length value) = value_buffer_size ->
  forall (fuel : nat) i,
    max_key - i <= Z.of_nat fuel ->
    (forall key, In key (stride i step max_key) ->
                 shadow_consistent F host db_Get shared key) ->
    exists t,
      VerifyDb_loop F host db_Get value shared fuel i max_key step
      = (t, Returned tt) /\
      db_gets t = map Key (stride i step max_key) /\
      List.filter is_stderr t = [].
Proof.
  intros Hs Hmult Hbuf fuel.
  induction fuel as [|fuel IH]; intros i Hfuel Hcons.
  - rewrite VerifyDb_loop_done by lia. rewrite stride_nil by lia.
    exists []. repeat split.
  - destruct (Z_le_gt_dec max_key i) as [Hdone|Hlt].
    + rewrite VerifyDb_loop_done by lia. rewrite stride_nil by lia.
      exists []. repeat split.
    + rewrite stride_cons in Hcons |- * by lia.
      destruct (VerifyDb_loop_round F host db_Get value shared fuel i max_key
                  step ltac:(lia) Hmult Hbuf (Hcons i (or_introl eq_refl)))
        as (t & Hg & Hst & E).
      destruct (IH (i + step) ltac:(lia)
                  (fun key H => Hcons key (or_intror H)))
        as (t' & E' & Hg' & Hst').
      rewrite E, E'. cbn [fst snd].
      exists (t ++ t'). split; [reflexivity|]. split.
      * rewrite db_gets_app, Hg, Hg'. reflexivity.
      * rewrite List.filter_app, Hst, Hst'. reflexivity.
Qed.

Lemma VerifyDb_loop_aborts F host db_Get (value : bytes) votes shared
    max_key step k :
  0 < step ->
  reachable F votes shared ->
  FLAGS_test_batches_snapshots F = false ->
  max_key = FLAGS_max_key F ->
  valid_value_size_mult F ->
  Z.of_nat (length value) = value_buffer_size ->
  0 <= k < max_key ->
  ~ shadow_consistent F host db_Get shared k ->
  forall (fuel : nat) i,
    max_key - i <= Z.of_nat fuel ->
    0 <= i <= k -> (k - i) mod step = 0 ->
    (forall key, In key (stride i step k) ->
                 shadow_consistent F host db_Get shared key) ->
    exists t msg,
      VerifyDb_loop F host db_Get value shared fuel i max_key step
      = (t, Exited 1) /\
      db_gets t = map Key (stride i step (k + 1)) /\
      List.filter is_stderr t
      = [EvFprintf Stderr "Verification failed for key %ld: %s\n"
           [ArgInt k; ArgStr (lit msg)]].
Proof.
  intros Hs Hr Hb Hmax Hmult Hbuf Hk Hbad fuel.
  induction fuel as [|fuel IH]; intros i Hfuel Hi Hmod Hcons; [lia|].
  destruct (Z.eq_dec i k) as [->|Hne].
  - destruct (Get_in_range F votes shared k Hr Hb ltac:(lia)) as [base Eg].
    destruct (VerifyValue_strict F host db_Get value k shared base Eg Hmult Hbuf)
      as [_ Hfail].
    destruct (Hfail Hbad) as [msg Em].
    cbn [VerifyDb_loop].
    replace (max_key <=? k) with false by (symmetry; apply Z.leb_gt; lia).
    rewrite Em. cbn [mbind prog_mbind prog_bind].
    eexists. exists msg. split; [reflexivity|].
    rewrite stride_cons, stride_nil by lia. split; reflexivity.
  - assert (Hstep : i + step <= k).
    { apply Z.mod_divide in Hmod; [|lia]. destruct Hmod as [q Hq].
      assert (1 <= q) by nia. nia. }
    rewrite (stride_cons i step k) in Hcons by lia.
    destruct (VerifyDb_loop_round F host db_Get value shared fuel i max_key
                step ltac:(lia) Hmult Hbuf (Hcons i (or_introl eq_refl)))
      as (t & Hg & Hst & E).
    destruct (IH (i + step)) as (t' & msg & E' & Hg' & Hst').
    + lia.
    + lia.
    + replace (k - (i + step)) with (k - i + (-1) * step) by ring.
      rewrite Z.mod_add by lia. exact Hmod.
    + intros key H. apply Hcons. right. exact H.
    + rewrite E, E'. cbn [fst snd].
      exists (t ++ t'), msg. split; [reflexivity|]. split.
      * rewrite db_gets_app, Hg, Hg', (stride_cons i step (k + 1)) by lia.
        reflexivity.
      * rewrite List.filter_app, Hst, Hst'. reflexivity.
Qed.

Lemma VerifyDb_unfold F host db_Get (value : bytes) votes shared start :
  reachable F votes shared ->
  1 <= FLAGS_threads F < 2 ^ 32 ->
  VerifyDb F host db_Get value shared start
  = VerifyDb_loop F host db_Get value shared
      (Z.to_nat (FLAGS_max_key F - start)) start (FLAGS_max_key F)
      (FLAGS_threads F).
Proof.
  intros Hr Ht. destruct (reachable_max_key F votes shared Hr) as [Em En].
  unfold VerifyDb. rewrite Em, En, uint32_small by lia. reflexivity.
Qed.

(** X7.  When the database agrees with the shadow array on every key of a
    thread's stride (the keys [start], [start + threads],
    [start + 2 * threads], ... below [max_key]), [VerifyDb] returns, reads
    exactly these keys from the database, in this order, and writes nothing
    to stderr. *)
Theorem VerifyDb_passes (F : Flags) (host : byte_order)
    (db_Get : list Z -> list Z -> Status * list Z) (value : list Z)
    (votes : nat) (shared : SharedState) (start : Z) :
  reachable F votes shared ->
  FLAGS_test_batches_snapshots F = false ->
  valid_value_size_mult F ->
  Z.of_nat (length value) = value_buffer_size ->
  1 <= FLAGS_threads F < 2 ^ 32 ->
  0 <= start ->
  (forall key, start <= key < FLAGS_max_key F ->
               (key - start) mod FLAGS_threads F = 0 ->
               shadow_consistent F host db_Get shared key) ->
  exists t,
    VerifyDb F host db_Get value shared start = (t, Returned tt) /\
    db_gets t = map Key (stride start (FLAGS_threads F) (FLAGS_max_key F)) /\
    List.filter is_stderr t = [].
Proof.
  intros Hr Hb Hmult Hbuf Ht Hstart Hcons.
  rewrite (VerifyDb_unfold F host db_Get value votes shared start Hr Ht).
  apply VerifyDb_loop_passes; try assumption; try lia.
  intros key Hin. apply In_stride in Hin; [|lia].
  apply Hcons; tauto.
Qed.

Lemma VerifyDb_passes_witness :
  let F := set_max_key default_flags 4 in
  let db_Get := fun (_ _ : list Z) => (NotFound, @nil Z) in
  exists t,
    VerifyDb F LittleEndian db_Get (replicate 100 0) (new_SharedState F) 1
    = (t, Returned tt) /\
    db_gets t = map Key (stride 1 (FLAGS_threads F) (FLAGS_max_key F)) /\
    List.filter is_stderr t = [].
Proof.
  cbv zeta.
  apply (VerifyDb_passes (set_max_key default_flags 4) LittleEndian
           (fun _ _ => (NotFound, [])) (replicate 100 0) 0
           (new_SharedState (set_max_key default_flags 4)) 1).
  - apply reachable_new.
  - reflexivity.
  - unfold valid_value_size_mult. simpl. lia.
  - reflexivity.
  - simpl. lia.
  - lia.
  - intros key Hk _. simpl in Hk. exists SENTINEL.
    assert (key = 1 \/ key = 2 \/ key = 3) as [-> | [-> | ->]] by lia;
      split; reflexivity.
Defined.

(** X8.  Outside the batch mode, for a multiplier with
    [4 <= value_size_mult] and [3 * value_size_mult < 100] and for
    [1 <= threads < 2^32]: [VerifyDb] stops at the first key of the stride
    on which the database and the shadow array differ: it has read the keys
    of the stride up to and including this key, writes the one line naming
    the key to stderr and exits with code 1; the keys after it are not
    read. *)
Theorem VerifyDb_aborts_at_first_divergence (F : Flags) (host : byte_order)
    (db_Get : list Z -> list Z -> Status * list Z) (value : list Z)
    (votes : nat) (shared : SharedState) (start k : Z) :
  reachable F votes shared ->
  FLAGS_test_batches_snapshots F = false ->
  valid_value_size_mult F ->
  Z.of_nat (length value) = value_buffer_size ->
  1 <= FLAGS_threads F < 2 ^ 32 ->
  0 <= start <= k -> k < FLAGS_max_key F ->
  (k - start) mod FLAGS_threads F = 0 ->
  ~ shadow_consistent F host db_Get shared k ->
  (forall key, start <= key < k ->
               (key - start) mod FLAGS_threads F = 0 ->
               shadow_consistent F host db_Get shared key) ->
  exists t msg,
    VerifyDb F host db_Get value shared start = (t, Exited 1) /\
    db_gets t = map Key (stride start (FLAGS_threads F) (k + 1)) /\
    List.filter is_stderr t
    = [EvFprintf Stderr "Verification failed for key %ld: %s\n"
         [ArgInt k; ArgStr (lit msg)]].
Proof.
  intros Hr Hb Hmult Hbuf Ht Hstart Hk Hmod Hbad Hcons.
  rewrite (VerifyDb_unfold F host db_Get value votes shared start Hr Ht).
  apply (VerifyDb_loop_aborts F host db_Get value votes shared
           (FLAGS_max_key F) (FLAGS_threads F) k); try assumption; try lia.
  intros key Hin. apply In_stride in Hin; [|lia].
  apply Hcons; tauto.
Qed.

Lemma VerifyDb_aborts_at_first_divergence_witness :
  let F := set_max_key default_flags 4 in
  let db_Get := fun (_ _ : list Z) => (OK, @nil Z) in
  exists t msg,
    VerifyDb F LittleEndian db_Get (replicate 100 0) (new_SharedState F) 1
    = (t, Exited 1) /\
    db_gets t = map Key (stride 1 (FLAGS_threads F) (1 + 1)) /\
    List.filter is_stderr t
    = [EvFprintf Stderr "Verification failed for key %ld: %s\n"
         [ArgInt 1; ArgStr (lit msg)]].
Proof.
  cbv zeta.
  apply (VerifyDb_aborts_at_first_divergence
           (set_max_key default_flags 4) LittleEndian
           (fun _ _ => (OK, [])) (replicate 100 0) 0
           (new_SharedState (set_max_key default_flags 4)) 1 1).
  - apply reachable_new.
  - reflexivity.
  - unfold valid_value_size_mult. simpl. lia.
  - reflexivity.
  - simpl. lia.
  - lia.
  - simpl. lia.
  - reflexivity.
  - intros (base & Eg & Hne & _). apply Hne.
    vm_compute in Eg. injection Eg as <-. reflexivity.
  - intros key Hk. lia.
Defined.

Lemma In_map_Key key l :
  is_long key -> Forall is_long l ->
  In (Key key) (map Key l) <-> In key l.
Proof.
  intros Hk Hl. rewrite in_map_iff. split.
  - intros (x & E & Hin).
    rewrite List.Forall_forall in Hl.
    apply Key_injective in E; [subst; assumption| auto | assumption].
  - intros Hin. exists key. auto.
Qed.

Lemma stride_residue start step key :
  0 < step -> 0 <= start < step -> 0 <= key ->
  (start <= key /\ (key - start) mod step = 0) <-> key mod step = start.
Proof.
  intros Hs Hstart Hk. split.
  - intros [Hle Hm]. apply Z.mod_divide in Hm; [|lia]. destruct Hm as [q Hq].
    replace key with (start + q * step) by lia.
    rewrite Z.mod_add, Z.mod_small by lia. reflexivity.
  - intros <-. split.
    + apply Z.mod_le; lia.
    + rewrite Zminus_mod_idemp_r, Z.sub_diag. apply Z.mod_0_l. lia.
Qed.

(** X9.  The threads split the key space between them by residue.  Outside
    the batch mode, for a multiplier with [4 <= value_size_mult] and
    [3 * value_size_mult < 100], for [1 <= threads < 2^32] and
    [max_key <= 2^63]: when the database agrees with the shadow array
    everywhere, the thread [tid] of [0 .. threads - 1] reads the key [key]
    in its [VerifyDb(shared, tid)] exactly when [key mod threads = tid]:
    every key is verified by exactly one thread. *)
Theorem VerifyDb_threads_partition (F : Flags) (host : byte_order)
    (db_Get : list Z -> list Z -> Status * list Z) (value : list Z)
    (votes : nat) (shared : SharedState) (tid key : Z) :
  reachable F votes shared ->
  FLAGS_test_batches_snapshots F = false ->
  valid_value_size_mult F ->
  Z.of_nat (length value) = value_buffer_size ->
  1 <= FLAGS_threads F < 2 ^ 32 ->
  FLAGS_max_key F <= 2 ^ 63 ->
  (forall key', 0 <= key' < FLAGS_max_key F ->
                shadow_consistent F host db_Get shared key') ->
  0 <= tid < FLAGS_threads F ->
  0 <= key < FLAGS_max_key F ->
  In (Key key) (db_gets (fst (VerifyDb F host db_Get value shared tid)))
  <-> key mod FLAGS_threads F = tid.
Proof.
  intros Hr Hb Hmult Hbuf Ht Hmax Hcons Htid Hkey.
  rewrite (VerifyDb_unfold F host db_Get value votes shared tid Hr Ht).
  destruct (VerifyDb_loop_passes F host db_Get value shared
              (FLAGS_max_key F) (FLAGS_threads F) ltac:(lia) Hmult Hbuf
              (Z.to_nat (FLAGS_max_key F - tid)) tid ltac:(lia))
    as (t & E & Hg & _).
  { intros key' Hin. apply In_stride in Hin; [|lia]. apply Hcons. lia. }
  rewrite E. cbn [fst]. rewrite Hg.
  rewrite In_map_Key.
  - rewrite In_stride by lia.
    rewrite <- (stride_residue tid (FLAGS_threads F) key) by lia. tauto.
  - unfold is_long. lia.
  - apply List.Forall_forall. intros x Hx. apply In_stride in Hx; [|lia].
    unfold is_long. lia.
Qed.

Lemma VerifyDb_threads_partition_witness :
  let F := set_threads (set_max_key default_flags 4) 2 in
  let db_Get := fun (_ _ : list Z) => (NotFound, @nil Z) in
  In (Key 3)
    (db_gets (fst (VerifyDb F LittleEndian db_Get (replicate 100 0)
                     (new_SharedState F) 1)))
  <-> 3 mod FLAGS_threads F = 1.
Proof.
  cbv zeta.
  apply (VerifyDb_threads_partition
           (set_threads (set_max_key default_flags 4) 2) LittleEndian
           (fun _ _ => (NotFound, [])) (replicate 100 0) 0
           (new_SharedState (set_threads (set_max_key default_flags 4) 2))
           1 3).
  - apply reachable_new.
  - reflexivity.
  - unfold valid_value_size_mult. simpl. lia.
  - reflexivity.
  - simpl. lia.
  - simpl. lia.
  - intros key Hk. simpl in Hk. exists SENTINEL.
    assert (key = 0 \/ key = 1 \/ key = 2 \/ key = 3)
      as [-> | [-> | [-> | ->]]] by lia;
      split; reflexivity.
  - simpl. lia.
  - simpl. lia.
Defined.

(** ** The write and delete branches against a database that is a map *)

Lemma VerifyValue_passes_from F host db_Get (value : bytes) key shared base
    (v0 : bytes) :
  Get shared key = Returned base ->
  valid_value_size_mult F ->
  Z.of_nat (length value) = value_buffer_size ->
  (if ok (fst (db_Get (Key key) v0))
   then base <> SENTINEL /\
        snd (db_Get (Key key) v0)
        = canonical_value host base (value_size F base)
   else base = SENTINEL) ->
  VerifyValue F host db_Get value key shared v0 true
  = ([EvDbGet (Key key)], Returned (snd (db_Get (Key key) v0))).
Proof.
  intros Eg Hmult Hbuf Hcons.
  pose proof (valid_value_size F base Hmult) as Hsz.
  assert (Egen : GenerateValue F host base value value_buffer_size
                 = Returned (value_size F base,
                     canonical_value host base (value_size F base)
                     ++ 0 :: drop (S (Z.to_nat (value_size F base))) value)).
  { apply GenerateValue_returns; lia. }
  assert (Hc : length (canonical_value host base (value_size F base))
               = Z.to_nat (value_size F base)).
  { pose proof (canonical_value_length host base (value_size F base)). lia. }
  unfold VerifyValue. rewrite Eg. run_prog.
  destruct (db_Get (Key key) v0) as [s from_db]. cbn [fst snd] in *.
  rewrite andb_false_r.
  destruct (ok s).
  - destruct Hcons as [Hne ->]. apply Z.eqb_neq in Hne. rewrite Hne, Egen.
    run_prog.
    replace (Z.of_nat (length (canonical_value host base (value_size F base)))
             =? value_size F base) with true
      by (symmetry; apply Z.eqb_eq; lia).
    run_prog.
    replace (memcmp _ _ _ =? 0) with true; [reflexivity|].
    symmetry. apply Z.eqb_eq. apply memcmp_zero.
    rewrite take_app_length' by (symmetry; exact Hc).
    apply firstn_all2. lia.
  - subst base. run_prog. reflexivity.
Qed.

Lemma agree_db_get F host shared db key base (v0 : bytes) :
  agree F host shared db ->
  Get shared key = Returned base ->
  if ok (fst (db_get db (Key key) v0))
  then base <> SENTINEL /\
       snd (db_get db (Key key) v0)
       = canonical_value host base (value_size F base)
  else base = SENTINEL.
Proof.
  intros Ha Eg. unfold db_get. rewrite (Ha key base Eg).
  destruct (Z.eqb_spec base SENTINEL) as [E|E]; cbn; auto.
Qed.

Lemma agree_shadow_consistent F host shared db key base :
  agree F host shared db ->
  Get shared key = Returned base ->
  shadow_consistent F host (db_get db) shared key.
Proof.
  intros Ha Eg. exists base. split; [exact Eg|].
  apply (agree_db_get F host shared db key base []); assumption.
Qed.

Lemma PrintKeyValue_within F key (value : bytes) sz :
  0 <= sz <= Z.of_nat (length value) ->
  exists t,
    PrintKeyValue F key value sz = (t, Returned tt) /\
    db_gets t = [] /\ List.filter is_stderr t = [].
Proof.
  intros Hsz. unfold PrintKeyValue.
  destruct (FLAGS_verbose F); cbn [negb].
  2:{ exists []. repeat split. }
  destruct (PrintKeyValue_chars value (Z.to_nat sz) 0 ltac:(lia))
    as (t & E & Hg & Hs).
  rewrite E.
  eexists. split; [reflexivity|]. split.
  - cbn. rewrite db_gets_app, Hg. reflexivity.
  - cbn. rewrite List.filter_app, Hs. reflexivity.
Qed.

Lemma agree_update F host votes shared shared' db key b :
  reachable F votes shared ->
  FLAGS_test_batches_snapshots F = false ->
  FLAGS_max_key F <= 2 ^ 63 ->
  0 <= key < FLAGS_max_key F ->
  agree F host shared db ->
  Get shared' key = Returned b ->
  (forall key', key' <> key -> Get shared' key' = Get shared key') ->
  agree F host shared'
    (if b =? SENTINEL then delete (Key key) db
     else <[ Key key := canonical_value host b (value_size F b) ]> db).
Proof.
  intros Hr Hb Hmax Hk Ha Eg Hframe key' base' Eg'.
  destruct (Z.eq_dec key' key) as [->|Hne].
  - rewrite Eg in Eg'. apply Returned_inj in Eg'. subst base'.
    destruct (b =? SENTINEL).
    + apply lookup_delete_eq.
    + apply lookup_insert_eq.
  - rewrite (Hframe key' Hne) in Eg'.
    destruct (Get_Returned shared key' base' Eg') as (vs & Hv & Hk' & _).
    destruct (reachable_values_sized F votes shared Hr Hb) as (vs0 & Hv0 & Hl).
    rewrite Hv in Hv0. injection Hv0 as <-.
    assert (HK : Key key' <> Key key).
    { intros E. apply Hne. apply Key_injective in E; [exact E| |];
        unfold is_long; lia. }
    rewrite <- (Ha key' base' Eg').
    destruct (b =? SENTINEL).
    + apply lookup_delete_ne. congruence.
    + apply lookup_insert_ne. congruence.
Qed.

Lemma OperateDb_write_agree F host (value verify_value : bytes) votes h
    rand_key value_base :
  reachable F votes (h_shared h) ->
  FLAGS_test_batches_snapshots F = false ->
  valid_value_size_mult F ->
  Z.of_nat (length value) = value_buffer_size ->
  Z.of_nat (length verify_value) = value_buffer_size ->
  FLAGS_max_key F <= 2 ^ 63 ->
  0 <= rand_key < FLAGS_max_key F ->
  value_base <> SENTINEL ->
  agree F host (h_shared h) (h_db h) ->
  exists t h' value',
    OperateDb_write F host value verify_value h rand_key value_base
    = (t, Returned (h', value')) /\
    (reachable F votes (h_shared h') /\
     agree F host (h_shared h') (h_db h') /\
     Z.of_nat (length value') = value_buffer_size /\
     List.filter is_stderr t = []) /\
    Get (h_shared h') rand_key = Returned value_base /\
    h_db h'
    = <[ Key rand_key :=
           canonical_value host value_base (value_size F value_base) ]> (h_db h) /\
    h_stats h'
    = AddBytesForWrites 1 (value_size F value_base) (h_stats h).
Proof.
  intros Hr Hb Hmult Hbuf Hvbuf Hmax Hk Hne Ha.
  pose proof (valid_value_size F value_base Hmult) as Hsz.
  assert (Hc : length (canonical_value host value_base (value_size F value_base))
               = Z.to_nat (value_size F value_base)).
  { pose proof (canonical_value_length host value_base
                  (value_size F value_base)). lia. }
  destruct (Put_Get_frame F votes (h_shared h) rand_key value_base Hr Hb Hk)
    as (s' & Eput & Eget & Hframe).
  destruct (Get_in_range F votes (h_shared h) rand_key Hr Hb Hk) as [base Eg].
  set (value' := canonical_value host value_base (value_size F value_base)
                 ++ 0 :: drop (S (Z.to_nat (value_size F value_base))) value).
  assert (Hlen' : Z.of_nat (length value') = value_buffer_size).
  { unfold value'. rewrite length_app, Hc. cbn [length].
    rewrite length_drop. unfold value_buffer_size in *. lia. }
  destruct (PrintKeyValue_within F rand_key value' (value_size F value_base))
    as (tp & Ep & _ & Hsp).
  { unfold value_buffer_size in *. lia. }
  assert (Etake : take (Z.to_nat (value_size F value_base)) value'
                  = canonical_value host value_base (value_size F value_base)).
  { unfold value'. rewrite take_app_length' by (symmetry; exact Hc).
    reflexivity. }
  unfold OperateDb_write.
  rewrite GenerateValue_returns by (unfold value_buffer_size in *; lia).
  fold value'.
  assert (Hver : exists tv from_db,
             (if FLAGS_verify_before_write F
              then VerifyValue F host (db_get (h_db h)) verify_value rand_key
                     (h_shared h) (h_from_db h) true
              else mret (h_from_db h)) = (tv, Returned from_db) /\
             List.filter is_stderr tv = []).
  { destruct (FLAGS_verify_before_write F).
    - rewrite (VerifyValue_passes_from F host (db_get (h_db h)) verify_value
                 rand_key (h_shared h) base (h_from_db h) Eg Hmult Hvbuf
                 (agree_db_get F host (h_shared h) (h_db h) rand_key base
                    (h_from_db h) Ha Eg)).
      eexists. eexists. split; reflexivity.
    - exists [], (h_from_db h). split; reflexivity. }
  destruct Hver as (tv & from_db & Ever & Hsv).
  cbn [lift mbind prog_mbind prog_bind app].
  rewrite Ever. cbn [mbind prog_mbind prog_bind].
  rewrite Eput. cbn [lift mbind prog_mbind prog_bind app].
  rewrite Ep. cbn [mbind prog_mbind prog_bind mret prog_mret].
  rewrite Etake.
  eexists. eexists. eexists. split; [reflexivity|].
  cbn [h_shared h_db h_stats].
  assert (Hdb : (if FLAGS_use_merge_put F
                 then db_apply (h_db h)
                        (BatchMerge (Key rand_key)
                           (canonical_value host value_base
                              (value_size F value_base)))
                 else db_apply (h_db h)
                        (BatchPut (Key rand_key)
                           (canonical_value host value_base
                              (value_size F value_base))))
                = <[ Key rand_key :=
                       canonical_value host value_base
                         (value_size F value_base) ]> (h_db h)).
  { destruct (FLAGS_use_merge_put F); reflexivity. }
  rewrite Hdb.
  split; [|split; [exact Eget|split; reflexivity]].
  split; [|split; [|split]].
  - apply (reachable_step F votes (h_shared h) false s' Hr).
    apply (step_Put (h_shared h) rand_key value_base s' Eput).
  - pose proof (agree_update F host votes (h_shared h) s' (h_db h) rand_key
                  value_base Hr Hb Hmax Hk Ha Eget Hframe) as Ha'.
    replace (value_base =? SENTINEL) with false in Ha'
      by (symmetry; apply Z.eqb_neq; exact Hne).
    exact Ha'.
  - exact Hlen'.
  - rewrite !List.filter_app, Hsv, Hsp. reflexivity.
Qed.

Lemma OperateDb_delete_agree F host votes h rand_key :
  reachable F votes (h_shared h) ->
  FLAGS_test_batches_snapshots F = false ->
  FLAGS_max_key F <= 2 ^ 63 ->
  0 <= rand_key < FLAGS_max_key F ->
  agree F host (h_shared h) (h_db h) ->
  exists h',
    OperateDb_delete h rand_key = Returned h' /\
    (reachable F votes (h_shared h') /\
     agree F host (h_shared h') (h_db h')) /\
    Get (h_shared h') rand_key = Returned SENTINEL /\
    h_db h' = delete (Key rand_key) (h_db h) /\
    h_stats h' = AddDeletes 1 (h_stats h).
Proof.
  intros Hr Hb Hmax Hk Ha.
  destruct (Put_Get_frame F votes (h_shared h) rand_key SENTINEL Hr Hb Hk)
    as (s' & Eput & Eget & Hframe).
  unfold OperateDb_delete, Delete. rewrite Eput.
  eexists. split; [reflexivity|].
  cbn [h_shared h_db h_stats db_apply].
  split; [|split; [exact Eget|split; reflexivity]].
  split.
  - apply (reachable_step F votes (h_shared h) false s' Hr).
    apply (step_Put (h_shared h) rand_key SENTINEL s' Eput).
  - exact (agree_update F host votes (h_shared h) s' (h_db h) rand_key
             SENTINEL Hr Hb Hmax Hk Ha Eget Hframe).
Qed.

Lemma OperateDb_updates_agree F host (verify_value : bytes) votes :
  FLAGS_test_batches_snapshots F = false ->
  valid_value_size_mult F ->
  Z.of_nat (length verify_value) = value_buffer_size ->
  FLAGS_max_key F <= 2 ^ 63 ->
  forall us h (value : bytes),
    Forall (valid_update F) us ->
    reachable F votes (h_shared h) ->
    Z.of_nat (length value) = value_buffer_size ->
    agree F host (h_shared h) (h_db h) ->
    exists t h' value',
      OperateDb_updates F host value verify_value h us
      = (t, Returned (h', value')) /\
      reachable F votes (h_shared h') /\
      agree F host (h_shared h') (h_db h') /\
      Z.of_nat (length value') = value_buffer_size /\
      List.filter is_stderr t = [].
Proof.
  intros Hb Hmult Hvbuf Hmax us.
  induction us as [|u us IH]; intros h value Hus Hr Hbuf Ha.
  - exists [], h, value. repeat split; assumption.
  - apply Forall_cons_1 in Hus. destruct Hus as [Hu Hus].
    unfold OperateDb_updates in *. cbn [prog_foldl].
    cbn [lift mbind prog_mbind prog_bind mret prog_mret prog_ret app] in IH |- *.
    destruct u as [rand_key value_base | rand_key]; cbn [valid_update] in Hu.
    + destruct Hu as (Hk & _ & Hne).
      destruct (OperateDb_write_agree F host value verify_value votes h
                  rand_key value_base Hr Hb Hmult Hbuf Hvbuf Hmax Hk Hne Ha)
        as (t & h' & value' & E & (Hr' & Ha' & Hbuf' & Hs) & _).
      rewrite E. cbn [mbind prog_mbind prog_bind].
      destruct (IH h' value' Hus Hr' Hbuf' Ha')
        as (t2 & h2 & value2 & E2 & Hr2 & Ha2 & Hbuf2 & Hs2).
      rewrite E2.
      exists (t ++ t2), h2, value2. repeat split; try assumption.
      rewrite List.filter_app, Hs, Hs2. reflexivity.
    + destruct (OperateDb_delete_agree F host votes h rand_key
                  Hr Hb Hmax Hu Ha) as (h' & E & (Hr' & Ha') & _).
      rewrite E. cbn [lift mbind prog_mbind prog_bind mret prog_mret prog_ret app].
      destruct (IH h' value Hus Hr' Hbuf Ha')
        as (t2 & h2 & value2 & E2 & Hr2 & Ha2 & Hbuf2 & Hs2).
      rewrite E2.
      exists t2, h2, value2. repeat split; assumption.
Qed.

Lemma agree_new F host :
  agree F host (new_SharedState F) ∅.
Proof.
  intros key base Eg.
  destruct (Get_Returned _ _ _ Eg) as (vs & Hv & Hk & Hl).
  cbn [new_SharedState values_] in Hv.
  destruct (FLAGS_test_batches_snapshots F); [discriminate|].
  injection Hv as <-.
  apply lookup_replicate in Hl. destruct Hl as [-> _].
  rewrite Z.eqb_refl. apply lookup_empty.
Qed.



(** X11.  Outside the batch mode, over a database that is a map, for a
    multiplier with [4 <= value_size_mult] and [3 * value_size_mult < 100],
    with 100-byte buffers, [max_key <= 2^63] and [1 <= threads < 2^32], a
    verification after any sequence of writes and deletes finds nothing.
    From a state where the shadow array and the database agree (the
    constructor's array and an empty database do), any sequence of writes
    and deletes with keys in [0, max_key) and bases other than SENTINEL
    returns with no line on stderr, and [VerifyDb] of any thread on the
    resulting state returns with no line on stderr. *)
Theorem updates_then_VerifyDb_passes (F : Flags) (host : byte_order)
    (value verify_value : list Z) (votes : nat) (h : harness)
    (us : list update) (start : Z) :
  reachable F votes (h_shared h) ->
  FLAGS_test_batches_snapshots F = false ->
  valid_value_size_mult F ->
  Z.of_nat (length value) = value_buffer_size ->
  Z.of_nat (length verify_value) = value_buffer_size ->
  FLAGS_max_key F <= 2 ^ 63 ->
  1 <= FLAGS_threads F < 2 ^ 32 ->
  0 <= start ->
  Forall (valid_update F) us ->
  agree F host (h_shared h) (h_db h) ->
  exists t h' value',
    OperateDb_updates F host value verify_value h us
    = (t, Returned (h', value')) /\
    List.filter is_stderr t = [] /\
    exists t',
      VerifyDb F host (db_get (h_db h')) verify_value (h_shared h') start
      = (t', Returned tt) /\
      List.filter is_stderr t' = [].
Proof.
  intros Hr Hb Hmult Hbuf Hvbuf Hmax Ht Hstart Hus Ha.
  destruct (OperateDb_updates_agree F host verify_value votes Hb Hmult Hvbuf
              Hmax us h value Hus Hr Hbuf Ha)
    as (t & h' & value' & E & Hr' & Ha' & _ & Hs).
  exists t, h', value'. split; [exact E|]. split; [exact Hs|].
  rewrite (VerifyDb_unfold F host _ verify_value votes (h_shared h') start
             Hr' Ht).
  destruct (VerifyDb_loop_passes F host (db_get (h_db h')) verify_value
              (h_shared h') (FLAGS_max_key F) (FLAGS_threads F)
              ltac:(lia) Hmult Hvbuf
              (Z.to_nat (FLAGS_max_key F - start)) start ltac:(lia))
    as (t' & E' & _ & Hs').
  - intros key Hin. apply In_stride in Hin; [|lia].
    destruct (Get_in_range F votes (h_shared h') key Hr' Hb ltac:(lia))
      as [base Eg].
    exact (agree_shadow_consistent F host (h_shared h') (h_db h') key base
             Ha' Eg).
  - exists t'. split; assumption.
Qed.

Lemma updates_then_VerifyDb_passes_witness :
  let F := set_max_key default_flags 4 in
  let h := {| h_shared := new_SharedState F; h_db := ∅;
              h_stats := Start 0; h_from_db := [] |} in
  exists t h' value',
    OperateDb_updates F LittleEndian (replicate 100 0) (replicate 100 0) h
      [Write 2 77; Write 1 5; Remove 2; Write 3 9]
    = (t, Returned (h', value')) /\
    List.filter is_stderr t = [] /\
    exists t',
      VerifyDb F LittleEndian (db_get (h_db h')) (replicate 100 0)
        (h_shared h') 1
      = (t', Returned tt) /\
      List.filter is_stderr t' = [].
Proof.
  cbv zeta.
  apply (updates_then_VerifyDb_passes
           (set_max_key default_flags 4) LittleEndian
           (replicate 100 0) (replicate 100 0) 0
           {| h_shared := new_SharedState (set_max_key default_flags 4);
              h_db := ∅; h_stats := Start 0; h_from_db := [] |}
           [Write 2 77; Write 1 5; Remove 2; Write 3 9] 1).
  - apply reachable_new.
  - reflexivity.
  - unfold valid_value_size_mult. simpl. lia.
  - reflexivity.
  - reflexivity.
  - simpl. lia.
  - simpl. lia.
  - lia.
  - repeat (apply Forall_cons_2 || apply Forall_nil_2);
      simpl; unfold SENTINEL; lia.
  - apply agree_new.
Defined.

(** ** Statistics of a run *)

Lemma merge_threads_snoc first others other :
  merge_threads first (others ++ [other])
  = Stats_Merge (merge_threads first others) other.
Proof. unfold merge_threads. rewrite fold_left_app. reflexivity. Qed.

Lemma total_snoc f l x : total f (l ++ [x]) = total f l + f x.
Proof.
  unfold total. induction l as [|y l IH]; cbn; [lia|].
  fold (total f (l ++ [x])) in *. cbn in IH. lia.
Qed.

(** X12.  The loop of [Run] that merges the statistics of the threads
    [1 .. n-1] into those of thread 0 leaves in thread 0 the sum of every
    counter over all threads (the byte count modulo 2^64), the earliest
    start and the latest finish of any thread, the samples of all the
    histograms, and thread 0's own report threshold. *)
Theorem merge_threads_totals (first : Stats) (others : list Stats) :
  0 <= bytes_ first < 2 ^ 64 ->
  let m := merge_threads first others in
  done_ m = done_ first + total done_ others /\
  gets_ m = gets_ first + total gets_ others /\
  prefixes_ m = prefixes_ first + total prefixes_ others /\
  writes_ m = writes_ first + total writes_ others /\
  deletes_ m = deletes_ first + total deletes_ others /\
  iterator_size_sums_ m
  = iterator_size_sums_ first + total iterator_size_sums_ others /\
  founds_ m = founds_ first + total founds_ others /\
  errors_ m = errors_ first + total errors_ others /\
  bytes_ m = uint64 (bytes_ first + total bytes_ others) /\
  start_stats m = fold_right Z.min (start_stats first) (map start_stats others) /\
  finish_ m = fold_right Z.max (finish_ first) (map finish_ others) /\
  hist_ m = hist_ first ++ concat (map hist_ others) /\
  next_report_ m = next_report_ first.
Proof.
  intros Hb. cbv zeta.
  induction others as [|other others IH] using rev_ind.
  - unfold merge_threads, total. cbn.
    rewrite !Z.add_0_r, app_nil_r, uint64_small by lia.
    repeat split; reflexivity.
  - rewrite merge_threads_snoc, !total_snoc, !map_app, concat_app.
    cbn [map concat].
    destruct IH as (H1 & H2 & H3 & H4 & H5 & H6 & H7 & H8 & H9 & H10 & H11
                    & H12 & H13).
    unfold Stats_Merge; cbn [done_ gets_ prefixes_ writes_ deletes_
      iterator_size_sums_ founds_ errors_ bytes_ start_stats finish_ hist_
      next_report_].
    rewrite H1, H2, H3, H4, H5, H6, H7, H8, H9, H10, H11, H12, H13.
    repeat split; try lia.
    + unfold uint64. rewrite Zplus_mod_idemp_l. f_equal. lia.
    + set (l := map start_stats others).
      generalize (start_stats first) as a. intros a.
      induction l as [|x l IHl]; cbn.
      * destruct (Z.ltb_spec (start_stats other) a); lia.
      * rewrite <- IHl.
        destruct (Z.ltb_spec (start_stats other) (fold_right Z.min a l)),
                 (Z.ltb_spec (start_stats other)
                    (x `min` fold_right Z.min a l)); lia.
    + set (l := map finish_ others).
      generalize (finish_ first) as a. intros a.
      induction l as [|x l IHl]; cbn.
      * destruct (Z.ltb_spec a (finish_ other)); lia.
      * rewrite <- IHl.
        destruct (Z.ltb_spec (fold_right Z.max a l) (finish_ other)),
                 (Z.ltb_spec (x `max` fold_right Z.max a l) (finish_ other));
          lia.
    + rewrite app_nil_r, app_assoc. reflexivity.
Qed.

Lemma merge_threads_totals_witness :
  let first := AddBytesForWrites 1 24 (Start 5) in
  let others := [AddBytesForWrites 2 40 (Start 3); AddDeletes 1 (Start 9)] in
  let m := merge_threads first others in
  done_ m = done_ first + total done_ others /\
  gets_ m = gets_ first + total gets_ others /\
  prefixes_ m = prefixes_ first + total prefixes_ others /\
  writes_ m = writes_ first + total writes_ others /\
  deletes_ m = deletes_ first + total deletes_ others /\
  iterator_size_sums_ m
  = iterator_size_sums_ first + total iterator_size_sums_ others /\
  founds_ m = founds_ first + total founds_ others /\
  errors_ m = errors_ first + total errors_ others /\
  bytes_ m = uint64 (bytes_ first + total bytes_ others) /\
  start_stats m = fold_right Z.min (start_stats first) (map start_stats others) /\
  finish_ m = fold_right Z.max (finish_ first) (map finish_ others) /\
  hist_ m = hist_ first ++ concat (map hist_ others) /\
  next_report_ m = next_report_ first.
Proof.
  cbv zeta.
  apply (merge_threads_totals (AddBytesForWrites 1 24 (Start 5))
           [AddBytesForWrites 2 40 (Start 3); AddDeletes 1 (Start 9)]).
  vm_compute. split; [discriminate|reflexivity].
Defined.

(** ** The argument loop of main *)



(** ** Reopens under any flags *)



(** ** Prefix scans *)

Lemma Key_prefix v :
  take (length (Key v) - 1) (Key v)
  = map (fun k : Z => (uint64 v / 256 / 2 ^ k) mod 256)
        [48; 40; 32; 24; 16; 8; 0].
Proof.
  rewrite Key_length, Key_bytes. cbn [sizeof_long Nat.sub take map].
  rewrite !Z.div_div by lia. reflexivity.
Qed.

Lemma Key_prefix_length v : length (take (length (Key v) - 1) (Key v)) = 7%nat.
Proof. rewrite Key_prefix. reflexivity. Qed.

Lemma Key_prefix_decode v :
  decode_key (take (length (Key v) - 1) (Key v)) = uint64 v / 256.
Proof.
  rewrite Key_prefix. unfold decode_key. cbn [map fold_left].
  assert (H : 0 <= uint64 v / 256 < 2 ^ 56).
  { assert (0 <= uint64 v < 2 ^ 64) by (apply Z.mod_pos_bound; lia).
    split; [apply Z.div_pos; lia|apply Z.div_lt_upper_bound; lia]. }
  revert H. generalize (uint64 v / 256) as w. intros w H.
  change (2 ^ 0) with 1. rewrite Z.div_1_r.
  Z.div_mod_to_equations. lia.
Qed.








(** X16.  The prefix of the prefix-scan branch, [Key(k)] without its last
    byte, groups the keys in blocks of 256: two keys of [0, 2^63) have the
    same prefix exactly when they have the same quotient by 256. *)
Theorem Key_prefix_block (x y : Z) :
  0 <= x < 2 ^ 63 -> 0 <= y < 2 ^ 63 ->
  take (length (Key x) - 1) (Key x) = take (length (Key y) - 1) (Key y)
  <-> x / 256 = y / 256.
Proof.
  intros Hx Hy.
  assert (Ex : uint64 x = x) by (apply uint64_small; lia).
  assert (Ey : uint64 y = y) by (apply uint64_small; lia).
  split.
  - intros E. apply (f_equal decode_key) in E.
    rewrite !Key_prefix_decode, Ex, Ey in E. exact E.
  - intros E. rewrite !Key_prefix, Ex, Ey, E. reflexivity.
Qed.

Lemma Key_prefix_block_witness :
  take (length (Key 512) - 1) (Key 512) = take (length (Key 767) - 1) (Key 767)
  <-> 512 / 256 = 767 / 256.
Proof.
  apply (Key_prefix_block 512 767); lia.
Defined.

(** *** MultiPrefixScan *)

Lemma MultiPrefixScan_value_lane (prefixes : list (list Z))
    (ipre ipost : iterators) (lane : list (list Z * list Z))
    (vpre vpost : list (list Z)) (x : list Z) :
  length vpre = length ipre -> head_value lane <> [] ->
  MultiPrefixScan_value prefixes (ipre ++ lane :: ipost) (vpre ++ x :: vpost)
    (length ipre)
  = ((if first_char (head_value lane) =? first_char (prefixes !!! length ipre)
      then []
      else [EvFprintf Stderr "error expected first = %c actual = %c\n"
              [ArgInt (first_char (prefixes !!! length ipre));
               ArgInt (first_char (head_value lane))]]),
     Returned (vpre ++ blank (head_value lane) :: vpost)).
Proof.
  intros Hlen Hv. unfold MultiPrefixScan_value.
  rewrite (list_lookup_total_middle ipre ipost lane) by reflexivity.
  destruct lane as [|[k v] rest]; [contradiction|].
  cbn [head_value] in *.
  rewrite (insert_middle vpre vpost x v) by (symmetry; exact Hlen).
  rewrite (list_lookup_total_middle vpre vpost v) by (symmetry; exact Hlen).
  destruct v as [|c v']; [contradiction|].
  pose proof (store_ok (c :: v') 0 32 ltac:(cbn; lia)) as Es.
  change (Z.of_nat 0) with 0 in Es. rewrite Es. clear Es.
  cbn [take drop app lift mbind prog_mbind prog_bind].
  rewrite (insert_middle vpre vpost (c :: v') (32 :: v'))
    by (symmetry; exact Hlen).
  unfold blank. cbn [tail].
  destruct (first_char (c :: v') =? first_char (prefixes !!! length ipre));
    reflexivity.
Qed.

Lemma MultiPrefixScan_value_ended (prefixes : list (list Z))
    (ipre ipost : iterators) (values : list (list Z)) :
  MultiPrefixScan_value prefixes (ipre ++ [] :: ipost) values (length ipre)
  = ([], AssertFailed).
Proof.
  unfold MultiPrefixScan_value.
  rewrite (list_lookup_total_middle ipre ipost []) by reflexivity.
  reflexivity.
Qed.

Lemma MultiPrefixScan_values (prefixes : list (list Z)) (iters : iterators) :
  forall (todo ipre ipost : iterators) (vpre vtodo vpost : list (list Z)),
    iters = ipre ++ todo ++ ipost ->
    length vpre = length ipre -> length vtodo = length todo ->
    Forall (fun lane => head_value lane <> []) todo ->
    exists t,
      prog_foldl (MultiPrefixScan_value prefixes iters)
        (seq (length ipre) (length todo))
        (vpre ++ vtodo ++ vpost)
      = (t, Returned (vpre ++ map (fun lane => blank (head_value lane)) todo
                      ++ vpost)) /\
      (t = [] <->
       forall i, (i < length todo)%nat ->
         first_char (head_value (todo !!! i))
         = first_char (prefixes !!! (length ipre + i)%nat)).
Proof.
  intros todo.
  induction todo as [|lane todo IH];
    intros ipre ipost vpre vtodo vpost Hi Hlen Hlen' Hv.
  - destruct vtodo; [|discriminate].
    exists []. cbn. split; [reflexivity|].
    split; [intros _ i Hi'; lia|reflexivity].
  - destruct vtodo as [|x vtodo]; [discriminate|].
    inversion Hv as [|? ? Hlane Hv']; subst.
    cbn [length seq prog_foldl app].
    rewrite (MultiPrefixScan_value_lane prefixes ipre (todo ++ ipost) lane vpre
               (vtodo ++ vpost) x) by assumption.
    destruct (IH (ipre ++ [lane]) ipost (vpre ++ [blank (head_value lane)])
                vtodo vpost)
      as (t' & E' & Ht').
    { rewrite <- app_assoc. reflexivity. }
    { rewrite !length_app. cbn [length]. lia. }
    { cbn [length] in Hlen'. lia. }
    { exact Hv'. }
    rewrite !length_app in E'. cbn [length] in E'.
    rewrite <- !app_assoc in E'. cbn [app] in E'.
    replace (length ipre + 1)%nat with (S (length ipre)) in E' by lia.
    cbn [mbind prog_mbind prog_bind].
    rewrite E'. cbn [map app].
    eexists. split; [reflexivity|].
    rewrite length_app in Ht'. cbn [length] in Ht'.
    split.
    + intros Et. apply app_eq_nil in Et. destruct Et as [E1 E2].
      intros [|i] Hi'.
      * rewrite Nat.add_0_r. cbn [lookup_total list_lookup_total].
        destruct (Z.eqb_spec (first_char (head_value lane))
                    (first_char (prefixes !!! length ipre)));
          [assumption|discriminate].
      * cbn [lookup_total list_lookup_total].
        replace (length ipre + S i)%nat with (length ipre + 1 + i)%nat by lia.
        apply Ht'; [exact E2|cbn [length] in Hi'; lia].
    + intros Hall.
      pose proof (Hall 0%nat ltac:(cbn [length]; lia)) as H0.
      rewrite Nat.add_0_r in H0. cbn [lookup_total list_lookup_total] in H0.
      rewrite H0, Z.eqb_refl. cbn [app].
      apply Ht'. intros i Hi'.
      specialize (Hall (S i) ltac:(cbn [length]; lia)).
      cbn [lookup_total list_lookup_total] in Hall.
      replace (length ipre + 1 + i)%nat with (length ipre + S i)%nat by lia.
      exact Hall.
Qed.

Lemma prog_foldl_app {S A} (f : S -> A -> prog S) (l1 l2 : list A) (s : S) :
  prog_foldl f (l1 ++ l2) s = s' ← prog_foldl f l1 s; prog_foldl f l2 s'.
Proof.
  revert s. induction l1 as [|a l1 IH]; intros s; cbn [app prog_foldl].
  - cbn [mret prog_mret prog_ret mbind prog_mbind prog_bind].
    destruct (prog_foldl f l2 s). reflexivity.
  - cbn [mbind prog_mbind prog_bind].
    destruct (f s a) as [t [s1| | |]];
      cbn [mbind prog_mbind prog_bind]; try reflexivity.
    rewrite IH.
    destruct (prog_foldl f l1 s1) as [t1 [s2| | |]]; try reflexivity.
    cbn [mbind prog_mbind prog_bind].
    destruct (prog_foldl f l2 s2) as [t2 r2].
    rewrite app_assoc. reflexivity.
Qed.

(** An iterator that ends before the first one trips the assertion of the
    first inner loop. *)
Lemma MultiPrefixScan_values_fail (prefixes : list (list Z))
    (good rest : iterators) :
  Forall (fun lane => head_value lane <> []) good ->
  snd (prog_foldl (MultiPrefixScan_value prefixes (good ++ [] :: rest))
         (seq 0 (length (good ++ [] :: rest)))
         (replicate (length (good ++ [] :: rest)) []))
  = AssertFailed.
Proof.
  intros Hgood.
  rewrite length_app. cbn [length].
  rewrite seq_app, prog_foldl_app, replicate_add. cbn [Nat.add].
  destruct (MultiPrefixScan_values prefixes (good ++ [] :: rest)
              good [] ([] :: rest) [] (replicate (length good) [])
              (replicate (S (length rest)) [])
              eq_refl eq_refl (length_replicate _ _) Hgood) as (t & E & _).
  cbn [length app] in E. rewrite E.
  cbn [mbind prog_mbind prog_bind seq prog_foldl].
  pose proof (MultiPrefixScan_value_ended prefixes good rest
                (map (fun lane => blank (head_value lane)) good
                 ++ replicate (S (length rest)) [])) as Ee.
  rewrite Ee. reflexivity.
Qed.

Lemma MultiPrefixScan_next_lane (prefix : bytes) (values : list (list Z))
    (ipre ipost : iterators) (lane : list (list Z * list Z)) :
  MultiPrefixScan_next prefix values (ipre ++ lane :: ipost) (length ipre)
  = ((if bool_decide (values !!! length ipre = values !!! 0%nat) then []
      else [EvFprintf Stderr
              "error : inconsistent values for prefix %s: %s, %s\n"
              [ArgStr prefix; ArgStr (values !!! 0%nat);
               ArgStr (values !!! length ipre)]]),
     Returned (ipre ++ tail lane :: ipost)).
Proof.
  unfold MultiPrefixScan_next.
  rewrite (list_lookup_total_middle ipre ipost lane) by reflexivity.
  rewrite (insert_middle ipre ipost lane (tail lane)) by reflexivity.
  destruct (bool_decide (values !!! length ipre = values !!! 0%nat));
    reflexivity.
Qed.

Lemma MultiPrefixScan_nexts (prefix : bytes) (values : list (list Z)) :
  forall (todo ipre : iterators),
    exists t,
      prog_foldl (MultiPrefixScan_next prefix values)
        (seq (length ipre) (length todo)) (ipre ++ todo)
      = (t, Returned (ipre ++ map tail todo)) /\
      (t = [] <->
       forall i, (i < length todo)%nat ->
         values !!! (length ipre + i)%nat = values !!! 0%nat).
Proof.
  intros todo. induction todo as [|lane todo IH]; intros ipre.
  - exists []. cbn. split; [reflexivity|].
    split; [intros _ i Hi'; lia|reflexivity].
  - cbn [length seq prog_foldl].
    rewrite MultiPrefixScan_next_lane.
    destruct (IH (ipre ++ [tail lane])) as (t' & E' & Ht').
    rewrite !length_app in E'. cbn [length] in E'.
    rewrite <- !app_assoc in E'. cbn [app] in E'.
    replace (length ipre + 1)%nat with (S (length ipre)) in E' by lia.
    cbn [mbind prog_mbind prog_bind].
    rewrite E'. cbn [map].
    eexists. split; [reflexivity|].
    rewrite length_app in Ht'. cbn [length] in Ht'.
    split.
    + intros Et. apply app_eq_nil in Et. destruct Et as [E1 E2].
      intros [|i] Hi'.
      * rewrite Nat.add_0_r.
        destruct (bool_decide_reflect
                    (values !!! length ipre = values !!! 0%nat));
          [assumption|discriminate].
      * replace (length ipre + S i)%nat with (length ipre + 1 + i)%nat by lia.
        apply Ht'; [exact E2|cbn [length] in Hi'; lia].
    + intros Hall.
      pose proof (Hall 0%nat ltac:(cbn [length]; lia)) as H0.
      rewrite Nat.add_0_r in H0.
      rewrite bool_decide_eq_true_2 by exact H0. cbn [app].
      apply Ht'. intros i Hi'.
      specialize (Hall (S i) ltac:(cbn [length]; lia)).
      replace (length ipre + 1 + i)%nat with (length ipre + S i)%nat by lia.
      exact Hall.
Qed.

Lemma cleanup_asserts (b : nat -> bool) (idxs : list nat) :
  prog_foldl (fun (_ : unit) (i : nat) => lift (cassert (b i))) idxs tt
  = ([], if forallb b idxs then Returned tt else AssertFailed).
Proof.
  induction idxs as [|i idxs IH]; cbn [prog_foldl forallb]; [reflexivity|].
  destruct (b i); cbn [cassert lift mbind prog_mbind prog_bind andb];
    [|reflexivity].
  rewrite IH. reflexivity.
Qed.

Lemma lookup_total_map {A B} `{!Inhabited A, !Inhabited B} (f : A -> B)
    (l : list A) (i : nat) :
  (i < length l)%nat -> map f l !!! i = f (l !!! i).
Proof.
  revert i. induction l as [|x l IH]; intros [|i] Hi; cbn in *; try lia.
  - reflexivity.
  - apply IH. lia.
Qed.

Lemma head_value_lookup (lane : list (list Z * list Z)) :
  head_value lane = snd (lane !!! 0%nat).
Proof. destruct lane as [|[k v] rest]; reflexivity. Qed.

Lemma head_value_nonempty (lane : list (list Z * list Z)) :
  Forall (fun kv => snd kv <> []) lane -> lane <> [] -> head_value lane <> [].
Proof.
  intros Hwf Hne. destruct lane as [|[k v] rest]; [congruence|].
  inversion Hwf; subst. assumption.
Qed.

Lemma lane_value_tail (iters : iterators) (i j : nat) :
  (i < length iters)%nat ->
  lane_value (map tail iters) i j = lane_value iters i (S j).
Proof.
  intros Hi. unfold lane_value.
  rewrite lookup_total_map by exact Hi.
  rewrite lookup_total_tail. reflexivity.
Qed.

Lemma map_drop_tail {A} (n : nat) (ls : list (list A)) :
  map (drop n) (map tail ls) = map (drop (S n)) ls.
Proof.
  rewrite map_map. apply map_ext. intros [|x l]; [|reflexivity].
  cbn. destruct n; reflexivity.
Qed.

(** One round of the [while] loop on ten iterators that are all valid. *)
Lemma MultiPrefixScan_while_step (fuel : nat) (prefix : bytes)
    (prefixes : list (list Z)) (iters : iterators) (count : Z) :
  length iters = 10%nat ->
  Forall (fun lane => head_value lane <> []) iters ->
  exists t,
    (t = [] <->
     forall i, (i < 10)%nat ->
       first_char (lane_value iters i 0) = first_char (prefixes !!! i) /\
       blank (lane_value iters i 0) = blank (lane_value iters 0 0)) /\
    MultiPrefixScan_while (S fuel) prefix prefixes iters count
    = (t ++ fst (MultiPrefixScan_while fuel prefix prefixes (map tail iters)
                   (int32 (count + 1))),
       snd (MultiPrefixScan_while fuel prefix prefixes (map tail iters)
              (int32 (count + 1)))).
Proof.
  intros Hlen Hv.
  assert (H0 : iters !!! 0%nat <> []).
  { destruct iters as [|lane iters]; [discriminate|].
    inversion Hv as [|? ? Hl _]; subst. cbn. intros E. apply Hl.
    rewrite E. reflexivity. }
  destruct (MultiPrefixScan_values prefixes iters iters [] [] []
              (replicate (length iters) []) [] (eq_sym (app_nil_r iters))
              eq_refl (length_replicate _ _) Hv) as (tv & Ev & Htv).
  cbn [length app] in Ev. rewrite !app_nil_r, Hlen in Ev.
  set (values := map (fun lane => blank (head_value lane)) iters) in *.
  destruct (MultiPrefixScan_nexts prefix values iters []) as (tn & En & Htn).
  cbn [length app] in En. rewrite Hlen in En.
  cbn [MultiPrefixScan_while].
  destruct (iters !!! 0%nat) as [|e0 lane0] eqn:E0; [congruence|].
  rewrite Ev. cbn [mbind prog_mbind prog_bind].
  rewrite En. cbn [mbind prog_mbind prog_bind].
  destruct (MultiPrefixScan_while fuel prefix prefixes (map tail iters)
              (int32 (count + 1))) as [tw rw].
  cbn [fst snd].
  exists (tv ++ tn). split; [|rewrite <- app_assoc; reflexivity].
  assert (Hval : forall i, (i < 10)%nat ->
            values !!! i = blank (lane_value iters i 0)).
  { intros i Hi. unfold values, lane_value.
    rewrite lookup_total_map by lia.
    rewrite head_value_lookup. reflexivity. }
  rewrite Hlen in Htv, Htn. cbn [length Nat.add] in Htv, Htn.
  split.
  - intros Et. apply app_eq_nil in Et. destruct Et as [E1 E2].
    intros i Hi. split.
    + unfold lane_value. rewrite <- head_value_lookup.
      apply Htv; assumption.
    + rewrite <- !Hval by lia. apply Htn; assumption.
  - intros Hall.
    replace tv with (@nil event); [replace tn with (@nil event)|];
      [reflexivity| |].
    + symmetry. apply Htn. intros i Hi. rewrite !Hval by lia.
      apply Hall. exact Hi.
    + symmetry. apply Htv. intros i Hi. rewrite head_value_lookup.
      apply (Hall i Hi).
Qed.

Lemma lanes_valid (n : nat) (iters : iterators) :
  Forall (Forall (fun kv => snd kv <> [])) iters ->
  Forall (fun lane => (S n <= length lane)%nat) iters ->
  Forall (fun lane => head_value lane <> []) iters.
Proof.
  intros Hwf Hlen. induction iters as [|lane iters IH]; constructor.
  - inversion Hwf; inversion Hlen; subst.
    apply head_value_nonempty; [assumption|].
    intros ->. cbn in *. lia.
  - inversion Hwf; inversion Hlen; subst. apply IH; assumption.
Qed.

Lemma lanes_tail_wf (iters : iterators) :
  Forall (Forall (fun kv => snd kv <> [])) iters ->
  Forall (Forall (fun kv => snd kv <> [])) (map tail iters).
Proof.
  intros Hwf. induction Hwf as [|lane iters Hl Hwf IH]; constructor.
  - destruct lane as [|e lane]; [constructor|].
    inversion Hl; subst. assumption.
  - exact IH.
Qed.

Lemma length_tail_S {A} (l : list A) (n : nat) :
  (S n <= length l)%nat -> (n <= length (tail l))%nat.
Proof. destruct l; cbn; lia. Qed.

(** The [while] loop when no iterator ends before the first one. *)
Lemma MultiPrefixScan_while_runs (prefix : bytes) (prefixes : list (list Z)) :
  forall (fuel : nat) (iters : iterators) (count : Z),
    length iters = 10%nat ->
    Forall (Forall (fun kv => snd kv <> [])) iters ->
    Forall (fun lane => (fuel <= length lane)%nat) iters ->
    0 <= count -> count + Z.of_nat fuel < 2 ^ 31 ->
    exists t,
      MultiPrefixScan_while fuel prefix prefixes iters count
      = (t, Returned (map (drop fuel) iters, count + Z.of_nat fuel)) /\
      (t = [] <->
       forall i j, (i < 10)%nat -> (j < fuel)%nat ->
         first_char (lane_value iters i j) = first_char (prefixes !!! i) /\
         blank (lane_value iters i j) = blank (lane_value iters 0 j)).
Proof.
  intros fuel.
  induction fuel as [|fuel IH]; intros iters count Hlen Hwf Hge H0 Hb.
  - exists []. split.
    + cbn [MultiPrefixScan_while]. rewrite Z.add_0_r.
      rewrite (map_ext (drop 0) (fun l => l)) by reflexivity.
      rewrite map_id. reflexivity.
    + split; [intros _ i j _ Hj; lia|reflexivity].
  - destruct (MultiPrefixScan_while_step fuel prefix prefixes iters count Hlen
                (lanes_valid fuel iters Hwf Hge)) as (t & Ht & E).
    assert (Hc : int32 (count + 1) = count + 1).
    { apply int32_small. change (2 ^ 31) with 2147483648 in *. lia. }
    rewrite Hc in E.
    destruct (IH (map tail iters) (count + 1)) as (t' & E' & Ht').
    + rewrite length_map. exact Hlen.
    + apply lanes_tail_wf. exact Hwf.
    + apply Forall_forall. intros lane Hin.
      rewrite list_elem_of_In in Hin.
      apply in_map_iff in Hin. destruct Hin as (l & <- & Hl).
      apply length_tail_S.
      rewrite List.Forall_forall in Hge. apply Hge. exact Hl.
    + lia.
    + lia.
    + rewrite E, E'. cbn [fst snd].
      rewrite map_drop_tail.
      replace (count + 1 + Z.of_nat fuel) with (count + Z.of_nat (S fuel))
        by lia.
      exists (t ++ t'). split; [reflexivity|].
      split.
      * intros Et. apply app_eq_nil in Et. destruct Et as [E1 E2].
        intros i [|j] Hi Hj.
        -- apply Ht; assumption.
        -- rewrite <- !lane_value_tail by lia.
           apply Ht'; [exact E2|exact Hi|lia].
      * intros Hall.
        replace t with (@nil event); [replace t' with (@nil event)|];
          [reflexivity| |].
        -- symmetry. apply Ht'. intros i j Hi Hj.
           rewrite !lane_value_tail by lia. apply Hall; [exact Hi|lia].
        -- symmetry. apply Ht. intros i Hi. apply Hall; [exact Hi|lia].
Qed.

Lemma first_ended (iters : iterators) :
  Forall (fun lane => head_value lane <> []) iters \/
  exists good rest lane,
    iters = good ++ lane :: rest /\
    Forall (fun lane => head_value lane <> []) good /\
    head_value lane = [].
Proof.
  induction iters as [|lane iters IH]; [left; constructor|].
  destruct (decide (head_value lane = [])) as [E|E].
  - right. exists [], iters, lane. repeat split; [constructor|exact E].
  - destruct IH as [IH|(good & rest & l & -> & Hg & Hl)].
    + left. constructor; assumption.
    + right. exists (lane :: good), rest, l.
      repeat split; [constructor; assumption|exact Hl].
Qed.

(** The [while] loop when some iterator ends before the first one. *)
Lemma MultiPrefixScan_while_short (prefix : bytes) (prefixes : list (list Z)) :
  forall (fuel : nat) (iters : iterators) (count : Z),
    length iters = 10%nat ->
    Forall (Forall (fun kv => snd kv <> [])) iters ->
    length (iters !!! 0%nat) = fuel ->
    Exists (fun lane => (length lane < fuel)%nat) iters ->
    snd (MultiPrefixScan_while fuel prefix prefixes iters count) = AssertFailed.
Proof.
  intros fuel.
  induction fuel as [|fuel IH]; intros iters count Hlen Hwf H0 Hex.
  - apply Exists_exists in Hex. destruct Hex as (lane & _ & Hl). lia.
  - destruct (first_ended iters) as [Hv|(good & rest & lane & -> & Hg & Hl)].
    + destruct (MultiPrefixScan_while_step fuel prefix prefixes iters count
                  Hlen Hv) as (t & _ & E).
      rewrite E. cbn [snd]. apply IH.
      * rewrite length_map. exact Hlen.
      * apply lanes_tail_wf. exact Hwf.
      * rewrite lookup_total_map by lia.
        destruct (iters !!! 0%nat); cbn in *; lia.
      * apply Exists_exists in Hex. destruct Hex as (lane & Hin & Hl).
        apply Exists_exists. exists (tail lane). split.
        -- rewrite list_elem_of_In in Hin |- *. apply in_map. exact Hin.
        -- assert (head_value lane <> []) as Hne.
           { rewrite List.Forall_forall in Hv. apply Hv.
             rewrite <- list_elem_of_In. exact Hin. }
           destruct lane; cbn in *; [congruence|lia].
    + assert (lane = []) as ->.
      { destruct lane as [|[k v] l]; [reflexivity|].
        cbn in Hl. subst v.
        rewrite List.Forall_forall in Hwf.
        specialize (Hwf ((k, []) :: l)
                      ltac:(apply in_or_app; right; left; reflexivity)).
        inversion Hwf as [|? ? Hbad _]; subst. cbn in Hbad. congruence. }
      cbn [MultiPrefixScan_while].
      destruct ((good ++ [] :: rest) !!! 0%nat) as [|e0 lane0] eqn:E0.
      { discriminate H0. }
      pose proof (MultiPrefixScan_values_fail prefixes good rest Hg) as Ef.
      rewrite Hlen in Ef.
      destruct (prog_foldl (MultiPrefixScan_value prefixes (good ++ [] :: rest))
                  (seq 0 10) (replicate 10 [])) as [tv rv].
      cbn [snd] in Ef. subst rv. reflexivity.
Qed.

Lemma prog_foldl_ext {S A} (f g : S -> A -> prog S) (l : list A) (s : S) :
  (forall s a, f s a = g s a) -> prog_foldl f l s = prog_foldl g l s.
Proof.
  intros Hfg. revert s. induction l as [|a l IH]; intros s; cbn [prog_foldl].
  - reflexivity.
  - rewrite Hfg. destruct (g s a) as [t [s'| | |]]; try reflexivity.
    cbn [mbind prog_mbind prog_bind]. rewrite IH. reflexivity.
Qed.


(** The two ways [MultiPrefixScan] can go, by the lengths of what the ten
    iterators yield. *)
Lemma MultiPrefixScan_result
    (db_Scan : list Z -> list (list Z * list Z) * Status)
    (stats : Stats) (prefix : list Z) :
  let prefixes := map (fun d => lit d ++ prefix) get_lane_digits in
  let lanes := map (fun p => fst (db_Scan p)) prefixes in
  let n := length (lanes !!! 0%nat) in
  Forall (Forall (fun kv => snd kv <> [])) lanes ->
  Z.of_nat n < 2 ^ 31 ->
  (Exists (fun lane => (length lane < n)%nat) lanes /\
   snd (MultiPrefixScan db_Scan stats prefix) = AssertFailed) \/
  (Forall (fun lane => (n <= length lane)%nat) lanes /\
   exists t,
     (t = [] <->
      forall i j, (i < 10)%nat -> (j < n)%nat ->
        first_char (lane_value lanes i j) = first_char (prefixes !!! i) /\
        blank (lane_value lanes i j) = blank (lane_value lanes 0 j)) /\
     MultiPrefixScan db_Scan stats prefix
     = (t,
        if forallb
             (fun i =>
                match map (drop n) lanes !!! i with
                | [] => true
                | _ => false
                end && ok (snd (db_Scan (prefixes !!! i))))
             (seq 0 10)
        then Returned (OK, AddPrefixes 1 (Z.of_nat n) stats)
        else AssertFailed)).
Proof.
  intros prefixes lanes n Hwf Hn.
  assert (Hlen : length lanes = 10%nat) by reflexivity.
  unfold MultiPrefixScan. fold prefixes. fold lanes. fold n.
  destruct (decide (Exists (fun lane => (length lane < n)%nat) lanes))
    as [Hex|Hex].
  - left. split; [exact Hex|].
    pose proof (MultiPrefixScan_while_short prefix prefixes n lanes 0
                  Hlen Hwf eq_refl Hex) as E.
    destruct (MultiPrefixScan_while n prefix prefixes lanes 0) as [t r].
    cbn [snd] in E. subst r. reflexivity.
  - right.
    assert (Hge : Forall (fun lane => (n <= length lane)%nat) lanes).
    { apply not_Exists_Forall in Hex; [|intros x; apply _].
      eapply Forall_impl; [exact Hex|]. cbn. intros; lia. }
    split; [exact Hge|].
    destruct (MultiPrefixScan_while_runs prefix prefixes n lanes 0
                Hlen Hwf Hge ltac:(lia) ltac:(lia)) as (t & E & Ht).
    exists t. split; [exact Ht|].
    rewrite E. cbn [mbind prog_mbind prog_bind].
    rewrite (prog_foldl_ext _
               (fun (_ : unit) (i : nat) =>
                  lift (cassert
                          (match map (drop n) lanes !!! i with
                           | [] => true
                           | _ => false
                           end && ok (snd (db_Scan (prefixes !!! i)))))))
      by (intros [] i; destruct (map (drop n) lanes !!! i);
          [destruct (ok (snd (db_Scan (prefixes !!! i))))|]; reflexivity).
    rewrite cleanup_asserts.
    destruct (forallb _ (seq 0 10)); cbn; rewrite ?app_nil_r; reflexivity.
Qed.






Lemma lane_first_char (prefix : list Z) (i : nat) :
  (i < 10)%nat ->
  first_char (map (fun d => lit d ++ prefix) get_lane_digits !!! i)
  = 48 + Z.of_nat i.
Proof.
  intros Hi.
  do 10 (destruct i as [|i]; [reflexivity|]). lia.
Qed.

(** X18.  What [MultiPrefixScan] reports.  When the ten iterators yield
    equally many entries, the scan writes nothing at all exactly when, for
    every index [j], the value of entry [j] of lane [i] starts with the
    digit of the lane and continues as the value of entry [j] of lane 0
    does; any other value makes it write an error line. *)
Theorem MultiPrefixScan_reports
    (db_Scan : list Z -> list (list Z * list Z) * Status)
    (stats : Stats) (prefix : list Z) :
  let prefixes := map (fun d => lit d ++ prefix) get_lane_digits in
  let lanes := map (fun p => fst (db_Scan p)) prefixes in
  let n := length (lanes !!! 0%nat) in
  Forall (Forall (fun kv => snd kv <> [])) lanes ->
  Z.of_nat n < 2 ^ 31 ->
  Forall (fun lane => length lane = n) lanes ->
  fst (MultiPrefixScan db_Scan stats prefix) = []
  <-> forall i j, (i < 10)%nat -> (j < n)%nat ->
        first_char (lane_value lanes i j) = 48 + Z.of_nat i /\
        tail (lane_value lanes i j) = tail (lane_value lanes 0 j).
Proof.
  intros prefixes lanes n Hwf Hn Heven.
  pose proof (MultiPrefixScan_result db_Scan stats prefix) as R.
  cbv zeta in R. fold prefixes in R. fold lanes in R. fold n in R.
  destruct (R Hwf Hn) as [[Hex E]|(Hge & t & Ht & E)]; clear R.
  - exfalso.
    apply Exists_exists in Hex. destruct Hex as (lane & Hin & Hl).
    rewrite Forall_forall in Heven. specialize (Heven lane Hin). lia.
  - rewrite E. cbn [fst]. rewrite Ht.
    split; intros H i j Hi Hj; destruct (H i j Hi Hj) as [H1 H2].
    + unfold prefixes in H1. rewrite lane_first_char in H1 by exact Hi.
      split; [exact H1|]. unfold blank in H2. congruence.
    + unfold prefixes. rewrite lane_first_char by exact Hi.
      split; [exact H1|]. unfold blank. rewrite H2. reflexivity.
Qed.

Lemma MultiPrefixScan_reports_witness :
  let db_Scan := fun p : list Z => ([(p, p); (p ++ [1], p)], OK) in
  let stats := Start 0 in
  let prefix := [7] in
  let prefixes := map (fun d => lit d ++ prefix) get_lane_digits in
  let lanes := map (fun p => fst (db_Scan p)) prefixes in
  let n := length (lanes !!! 0%nat) in
  fst (MultiPrefixScan db_Scan stats prefix) = []
  <-> forall i j, (i < 10)%nat -> (j < n)%nat ->
        first_char (lane_value lanes i j) = 48 + Z.of_nat i /\
        tail (lane_value lanes i j) = tail (lane_value lanes 0 j).
Proof.
  cbv zeta.
  apply (MultiPrefixScan_reports
           (fun p => ([(p, p); (p ++ [1], p)], OK)) (Start 0) [7]).
  - vm_compute. repeat constructor; discriminate.
  - vm_compute. reflexivity.
  - vm_compute. repeat constructor.
Defined.

(** ** The read branch and the thread states *)

(** X19.  Outside the batch mode, over a database that is a map and agrees
    with the shadow array, a read of a key of [0, max_key) asks the
    database once and never counts an error: it counts a get that found
    nothing and leaves [from_db] alone when the shadow entry is SENTINEL,
    and counts a get that found its value and leaves the canonical value of
    the entry in [from_db] otherwise. *)
Theorem OperateDb_read_agrees (F : Flags) (host : byte_order) (votes : nat)
    (shared : SharedState) (db : gmap (list Z) (list Z)) (stats : Stats)
    (from_db : list Z) (rand_key : Z) :
  reachable F votes shared ->
  FLAGS_test_batches_snapshots F = false ->
  0 <= rand_key < FLAGS_max_key F ->
  agree F host shared db ->
  exists base,
    Get shared rand_key = Returned base /\
    OperateDb_read (db_get db) stats from_db rand_key
    = ([EvDbGet (Key rand_key)],
       Returned (if base =? SENTINEL then (AddGets 1 0 stats, from_db)
                 else (AddGets 1 1 stats,
                       canonical_value host base (value_size F base)))).
Proof.
  intros Hr Hb Hk Ha.
  destruct (Get_in_range F votes shared rand_key Hr Hb Hk) as [base Eg].
  exists base. split; [exact Eg|].
  unfold OperateDb_read, db_get. rewrite (Ha rand_key base Eg).
  destruct (base =? SENTINEL); reflexivity.
Qed.

Lemma OperateDb_read_agrees_witness :
  let F := set_max_key default_flags 4 in
  exists base,
    Get (new_SharedState F) 2 = Returned base /\
    OperateDb_read (db_get ∅) (Start 0) [] 2
    = ([EvDbGet (Key 2)],
       Returned (if base =? SENTINEL then (AddGets 1 0 (Start 0), [])
                 else (AddGets 1 1 (Start 0),
                       canonical_value LittleEndian base (value_size F base)))).
Proof.
  cbv zeta.
  apply (OperateDb_read_agrees (set_max_key default_flags 4) LittleEndian 0
           (new_SharedState (set_max_key default_flags 4)) ∅ (Start 0) [] 2).
  - apply reachable_new.
  - reflexivity.
  - simpl. lia.
  - apply agree_new.
Defined.

(** X20.  The generators of the threads get different seeds:
    [1000 + index + seed] in [uint32_t] is a different number for every
    thread index. *)
Theorem thread_seed_distinct (s : SharedState) (i j : Z) :
  0 <= i < 2 ^ 32 -> 0 <= j < 2 ^ 32 -> i <> j ->
  thread_seed s i <> thread_seed s j.
Proof.
  unfold thread_seed, uint32. change (2 ^ 32) with 4294967296.
  intros Hi Hj Hne E. apply Hne.
  Z.div_mod_to_equations. lia.
Qed.

Lemma thread_seed_distinct_witness :
  thread_seed (new_SharedState default_flags) 0
  <> thread_seed (new_SharedState default_flags) 31.
Proof.
  apply (thread_seed_distinct (new_SharedState default_flags) 0 31); lia.
Defined.
